(** * Smart pointers: control blocks, SharedPtr, WeakPtr, UniquePtr

    A shallow embedding of [shared.h], [weak.h] and [unique.h].

    The C++ objects live in a store: control blocks on the heap, keyed by
    their address, and the [SharedPtr] / [WeakPtr] objects themselves, keyed
    by the address of the object ([this]).  Member functions are state
    transformers in a small state-and-error monad; touching a freed control
    block or a dead object is undefined behaviour ([Undef]), the only
    exception of the library is [BadWeakPtr].  The reference counts are
    [std::size_t] values, taken to be 64 bits wide, and wrap around.
    Pointees hold no smart pointers, except in [Owning], where the
    destructor of the pointee destroys its members. *)

From Stdlib Require Import ZArith List Lia.
From stdpp Require Import base decidable numbers option list gmap fin_maps.

Open Scope Z_scope.

(** ** [std::size_t] *)

Module SizeT.
Definition modulus : Z := 2 ^ 64.
Definition max : Z := modulus - 1.
Definition wrap (z : Z) : Z := z mod modulus.
(** [++x], [--x] and [x + y] on [std::size_t] *)
Definition incr (x : Z) : Z := wrap (x + 1).
Definition decr (x : Z) : Z := wrap (x - 1).
Definition add (x y : Z) : Z := wrap (x + y).
Definition in_range (x : Z) : Prop := 0 <= x < modulus.
End SizeT.

(** ** Addresses *)

Definition addr := N.
Definition nullptr : addr := 0%N.

(** ** Observable and instrumented events, in program order *)

Inductive event :=
| EvAddStrong (b : addr)      (* ++strong_ of block b *)
| EvAddWeak (b : addr)        (* ++weak_ of block b *)
| EvRemoveStrong (b : addr)   (* --strong_ of block b *)
| EvRemoveWeak (b : addr)     (* --weak_ of block b *)
| EvOnZeroStrong (b : addr)   (* virtual call b->OnZeroStrong() *)
| EvDelete (p : addr)         (* std::default_delete<T>()(p) *)
| EvDestroy (b : addr)        (* in-place ~T() of the object embedded in b *)
| EvFree (b : addr).          (* delete of the control block b *)

#[global] Instance event_eq_dec : EqDecision event.
Proof. solve_decision. Defined.

(** ** Control blocks *)

Inductive Derived :=
| ControlBlockPointer (ptr_ : addr)
| ControlBlockEmplace.

Record ControlBlock := mkBlock {
  strong_ : Z;
  weak_ : Z;
  derived : Derived
}.

Definition set_strong (s : Z) (cb : ControlBlock) : ControlBlock :=
  mkBlock s (weak_ cb) (derived cb).
Definition set_weak (w : Z) (cb : ControlBlock) : ControlBlock :=
  mkBlock (strong_ cb) w (derived cb).
Definition set_derived (d : Derived) (cb : ControlBlock) : ControlBlock :=
  mkBlock (strong_ cb) (weak_ cb) d.

(** [new ControlBlockPointer<T>(ptr)]: strong_ = 1, weak_ = 0 *)
Definition ControlBlockPointer_new (ptr : addr) : ControlBlock :=
  mkBlock 1 0 (ControlBlockPointer ptr).

(** ** Pointer objects *)

Record SharedPtr := mkShared { s_block_ : addr; s_ptr_ : addr }.
Record WeakPtr := mkWeak { w_block_ : addr; w_ptr_ : addr }.

#[global] Instance SharedPtr_eq_dec : EqDecision SharedPtr.
Proof. solve_decision. Defined.
#[global] Instance WeakPtr_eq_dec : EqDecision WeakPtr.
Proof. solve_decision. Defined.

(** ** Program state *)

Record State := mkState {
  blocks : gmap N ControlBlock;   (* allocated control blocks *)
  shared : gmap N SharedPtr;      (* live SharedPtr objects *)
  weak : gmap N WeakPtr;          (* live WeakPtr objects *)
  trace : list event              (* events so far, oldest first *)
}.

Definition set_blocks (f : gmap N ControlBlock → gmap N ControlBlock) (σ : State) :=
  mkState (f (blocks σ)) (shared σ) (weak σ) (trace σ).
Definition set_shared (f : gmap N SharedPtr → gmap N SharedPtr) (σ : State) :=
  mkState (blocks σ) (f (shared σ)) (weak σ) (trace σ).
Definition set_weakptrs (f : gmap N WeakPtr → gmap N WeakPtr) (σ : State) :=
  mkState (blocks σ) (shared σ) (f (weak σ)) (trace σ).
Definition set_trace (f : list event → list event) (σ : State) :=
  mkState (blocks σ) (shared σ) (weak σ) (f (trace σ)).

(** ** The monad *)

(** Modelled from the spec: [BadWeakPtr] is declared in [sw_fwd.h], which is
    not among the sources; it is the expired-reference error. *)
Inductive exn := BadWeakPtr.

Inductive result (A : Type) :=
| Ok (a : A) (σ : State)
| Throw (e : exn)
| Undef.
Arguments Ok {A} a σ.
Arguments Throw {A} e.
Arguments Undef {A}.

Definition M (A : Type) : Type := State → result A.

#[global] Instance M_ret : MRet M := λ A a σ, Ok a σ.
#[global] Instance M_bind : MBind M := λ A B f m σ,
  match m σ with
  | Ok a σ' => f a σ'
  | Throw e => Throw e
  | Undef => Undef
  end.

Definition throw {A} (e : exn) : M A := λ _, Throw e.
Definition when (c : bool) (m : M ()) : M () := if c then m else mret ().

Definition emit (e : event) : M () :=
  λ σ, Ok () (set_trace (λ t, t ++ [e]) σ).

(** *** Heap of control blocks *)

Definition get_block (b : addr) : M ControlBlock :=
  λ σ, match blocks σ !! b with Some cb => Ok cb σ | None => Undef end.

Definition put_block (b : addr) (cb : ControlBlock) : M () :=
  λ σ, match blocks σ !! b with
       | Some _ => Ok () (set_blocks (insert b cb) σ)
       | None => Undef
       end.

(** [new]: the allocator hands out [nb], which must be a non-null address
    that is not in use. *)
Definition new_block (nb : addr) (cb : ControlBlock) : M addr :=
  λ σ, if bool_decide (nb = nullptr) then Undef
       else match blocks σ !! nb with
            | Some _ => Undef
            | None => Ok nb (set_blocks (insert nb cb) σ)
            end.

(** [delete block_] *)
Definition delete_block (b : addr) : M () :=
  λ σ, match blocks σ !! b with
       | Some _ => Ok () (set_trace (λ t, t ++ [EvFree b]) (set_blocks (delete b) σ))
       | None => Undef
       end.

(** *** Stores of pointer objects *)

Definition get_shared (this : addr) : M SharedPtr :=
  λ σ, match shared σ !! this with Some s => Ok s σ | None => Undef end.
Definition put_shared (this : addr) (s : SharedPtr) : M () :=
  λ σ, match shared σ !! this with
       | Some _ => Ok () (set_shared (insert this s) σ)
       | None => Undef
       end.
Definition construct_shared (this : addr) (s : SharedPtr) : M () :=
  λ σ, match shared σ !! this with
       | Some _ => Undef
       | None => Ok () (set_shared (insert this s) σ)
       end.
Definition destruct_shared (this : addr) : M () :=
  λ σ, match shared σ !! this with
       | Some _ => Ok () (set_shared (delete this) σ)
       | None => Undef
       end.

Definition get_weak (this : addr) : M WeakPtr :=
  λ σ, match weak σ !! this with Some w => Ok w σ | None => Undef end.
Definition put_weak (this : addr) (w : WeakPtr) : M () :=
  λ σ, match weak σ !! this with
       | Some _ => Ok () (set_weakptrs (insert this w) σ)
       | None => Undef
       end.
Definition construct_weak (this : addr) (w : WeakPtr) : M () :=
  λ σ, match weak σ !! this with
       | Some _ => Undef
       | None => Ok () (set_weakptrs (insert this w) σ)
       end.
Definition destruct_weak (this : addr) : M () :=
  λ σ, match weak σ !! this with
       | Some _ => Ok () (set_weakptrs (delete this) σ)
       | None => Undef
       end.

(** ** ControlBlockBase and its two derived classes *)

Module ControlBlockBase.

Definition AddStrong (this : addr) : M () :=
  cb ← get_block this;
  put_block this (set_strong (SizeT.incr (strong_ cb)) cb);;
  emit (EvAddStrong this).

Definition AddWeak (this : addr) : M () :=
  cb ← get_block this;
  put_block this (set_weak (SizeT.incr (weak_ cb)) cb);;
  emit (EvAddWeak this).

(** virtual [OnZeroStrong]: [ControlBlockPointer] deletes [ptr_] and nulls
    it, [ControlBlockEmplace] runs the destructor in place.  Here the
    pointee holds no smart pointer, so that destroying it is an event and
    nothing else; [Owning.OnZeroStrong] below is the hook with the
    destructor of the pointee. *)
Definition OnZeroStrong (this : addr) : M () :=
  emit (EvOnZeroStrong this);;
  cb ← get_block this;
  match derived cb with
  | ControlBlockPointer p =>
      emit (EvDelete p);;
      put_block this (set_derived (ControlBlockPointer nullptr) cb)
  | ControlBlockEmplace => emit (EvDestroy this)
  end.

Definition RemoveStrong (this : addr) : M bool :=
  cb ← get_block this;
  put_block this (set_strong (SizeT.decr (strong_ cb)) cb);;
  emit (EvRemoveStrong this);;
  cb ← get_block this;
  when (strong_ cb =? 0) (OnZeroStrong this);;
  cb ← get_block this;
  mret (SizeT.add (strong_ cb) (weak_ cb) =? 0).

Definition RemoveWeak (this : addr) : M bool :=
  cb ← get_block this;
  put_block this (set_weak (SizeT.decr (weak_ cb)) cb);;
  emit (EvRemoveWeak this);;
  cb ← get_block this;
  mret (SizeT.add (strong_ cb) (weak_ cb) =? 0).

Definition GetStrong (this : addr) : M Z :=
  cb ← get_block this; mret (strong_ cb).

Definition GetWeak (this : addr) : M Z :=
  cb ← get_block this; mret (weak_ cb).

End ControlBlockBase.

(** ** SharedPtr

    [this] is the address of the SharedPtr object the member function is
    called on; [other] the address of its argument. *)

Definition null_shared : SharedPtr := mkShared nullptr nullptr.
Definition null_weak : WeakPtr := mkWeak nullptr nullptr.

Definition is_null (a : addr) : bool := bool_decide (a = nullptr).

(** [SharedPtr()] and [SharedPtr(std::nullptr_t)] *)
Definition SharedPtr_ctor_default (this : addr) : M () :=
  construct_shared this null_shared.
Definition SharedPtr_ctor_nullptr (this : addr) : M () :=
  construct_shared this null_shared.

(** [explicit SharedPtr(T* ptr)]; [nb] is the address [new] returns *)
Definition SharedPtr_ctor_ptr (nb : addr) (this ptr : addr) : M () :=
  b ← new_block nb (ControlBlockPointer_new ptr);
  construct_shared this (mkShared b ptr).


Definition SharedPtr_Get (this : addr) : M addr :=
  s ← get_shared this; mret (s_ptr_ s).
Definition SharedPtr_GetControlBlock (this : addr) : M addr :=
  s ← get_shared this; mret (s_block_ s).

(** [void Reset()] *)
Definition SharedPtr_Reset (this : addr) : M () :=
  s ← get_shared this;
  if is_null (s_block_ s) then mret ()
  else
    last ← ControlBlockBase.RemoveStrong (s_block_ s);
    when last (delete_block (s_block_ s));;
    put_shared this null_shared.

(** [void Reset(T* ptr, ControlBlockBase* block)] *)
Definition SharedPtr_Reset_ptr_block (this ptr block : addr) : M () :=
  s ← get_shared this;
  if bool_decide (s_block_ s = block) then mret ()
  else
    SharedPtr_Reset this;;
    put_shared this (mkShared block ptr).


(** [SharedPtr(const SharedPtr& other)] *)
Definition SharedPtr_ctor_copy (this other : addr) : M () :=
  p ← SharedPtr_Get other;
  b ← SharedPtr_GetControlBlock other;
  construct_shared this (mkShared b p);;
  when (negb (is_null b)) (ControlBlockBase.AddStrong b).

(** [SharedPtr(SharedPtr&& other)] *)
Definition SharedPtr_ctor_move (this other : addr) : M () :=
  p ← SharedPtr_Get other;
  b ← SharedPtr_GetControlBlock other;
  construct_shared this (mkShared b p);;
  when (negb (is_null b)) (ControlBlockBase.AddStrong b);;
  SharedPtr_Reset other.

(** Aliasing constructor [SharedPtr(const SharedPtr<Y>& other, T* ptr)] *)
Definition SharedPtr_ctor_alias (this other ptr : addr) : M () :=
  b ← SharedPtr_GetControlBlock other;
  construct_shared this (mkShared b ptr);;
  when (negb (is_null b)) (ControlBlockBase.AddStrong b).

(** [SharedPtr& operator=(const SharedPtr& other)] *)
Definition SharedPtr_assign_copy (this other : addr) : M () :=
  if bool_decide (this = other) then mret ()
  else
    p ← SharedPtr_Get other;
    b ← SharedPtr_GetControlBlock other;
    SharedPtr_Reset_ptr_block this p b;;
    s ← get_shared this;
    when (negb (is_null (s_block_ s))) (ControlBlockBase.AddStrong (s_block_ s)).

(** [SharedPtr& operator=(SharedPtr&& other)] *)
Definition SharedPtr_assign_move (this other : addr) : M () :=
  if bool_decide (this = other) then mret ()
  else
    o ← get_shared other;
    SharedPtr_Reset_ptr_block this (s_ptr_ o) (s_block_ o);;
    s ← get_shared this;
    when (negb (is_null (s_block_ s))) (ControlBlockBase.AddStrong (s_block_ s));;
    SharedPtr_Reset other.

(** [~SharedPtr()] *)
Definition SharedPtr_dtor (this : addr) : M () :=
  SharedPtr_Reset this;;
  destruct_shared this.

(** [void Swap(SharedPtr& other)]; [tmp] is the address of the local *)
Definition SharedPtr_Swap (tmp : addr) (this other : addr) : M () :=
  SharedPtr_ctor_copy tmp this;;
  SharedPtr_assign_copy this other;;
  SharedPtr_assign_copy other tmp;;
  SharedPtr_dtor tmp.

Definition SharedPtr_UseCount (this : addr) : M Z :=
  s ← get_shared this;
  if negb (is_null (s_block_ s)) then ControlBlockBase.GetStrong (s_block_ s)
  else mret 0.

(** [explicit operator bool()] *)
Definition SharedPtr_bool (this : addr) : M bool :=
  s ← get_shared this; mret (negb (is_null (s_ptr_ s))).

(** ** WeakPtr *)

Definition WeakPtr_ctor_default (this : addr) : M () :=
  construct_weak this null_weak.

Definition WeakPtr_Get (this : addr) : M addr :=
  w ← get_weak this; mret (w_ptr_ w).
Definition WeakPtr_GetControlBlock (this : addr) : M addr :=
  w ← get_weak this; mret (w_block_ w).

(** [void Reset()] *)
Definition WeakPtr_Reset (this : addr) : M () :=
  w ← get_weak this;
  if is_null (w_block_ w) then mret ()
  else
    last ← ControlBlockBase.RemoveWeak (w_block_ w);
    when last (delete_block (w_block_ w));;
    put_weak this null_weak.

(** [void Reset(T* ptr, ControlBlockBase* block)] *)
Definition WeakPtr_Reset_ptr_block (this ptr block : addr) : M () :=
  w ← get_weak this;
  if bool_decide (w_block_ w = block) then mret ()
  else
    WeakPtr_Reset this;;
    put_weak this (mkWeak block ptr);;
    when (negb (is_null block)) (ControlBlockBase.AddWeak block).

(** [WeakPtr(const WeakPtr& other)] *)
Definition WeakPtr_ctor_copy (this other : addr) : M () :=
  p ← WeakPtr_Get other;
  b ← WeakPtr_GetControlBlock other;
  construct_weak this (mkWeak b p);;
  when (negb (is_null b)) (ControlBlockBase.AddWeak b).

(** [WeakPtr(WeakPtr&& other)] *)
Definition WeakPtr_ctor_move (this other : addr) : M () :=
  p ← WeakPtr_Get other;
  b ← WeakPtr_GetControlBlock other;
  construct_weak this (mkWeak b p);;
  when (negb (is_null b)) (ControlBlockBase.AddWeak b);;
  WeakPtr_Reset other.

(** Demotion [WeakPtr(const SharedPtr<T>& other)] *)
Definition WeakPtr_ctor_shared (this other : addr) : M () :=
  p ← SharedPtr_Get other;
  b ← SharedPtr_GetControlBlock other;
  construct_weak this (mkWeak b p);;
  when (negb (is_null b)) (ControlBlockBase.AddWeak b).

(** [WeakPtr& operator=(const WeakPtr& other)] *)
Definition WeakPtr_assign_copy (this other : addr) : M () :=
  if bool_decide (this = other) then mret ()
  else
    p ← WeakPtr_Get other;
    b ← WeakPtr_GetControlBlock other;
    WeakPtr_Reset_ptr_block this p b.

(** [WeakPtr& operator=(WeakPtr&& other)] *)
Definition WeakPtr_assign_move (this other : addr) : M () :=
  if bool_decide (this = other) then mret ()
  else
    p ← WeakPtr_Get other;
    b ← WeakPtr_GetControlBlock other;
    WeakPtr_Reset_ptr_block this p b;;
    WeakPtr_Reset other.

(** [~WeakPtr()] *)
Definition WeakPtr_dtor (this : addr) : M () :=
  WeakPtr_Reset this;;
  destruct_weak this.

Definition WeakPtr_UseCount (this : addr) : M Z :=
  w ← get_weak this;
  if negb (is_null (w_block_ w)) then ControlBlockBase.GetStrong (w_block_ w)
  else mret 0.

Definition WeakPtr_Expired (this : addr) : M bool :=
  n ← WeakPtr_UseCount this; mret (n =? 0).

(** Promotion [explicit SharedPtr(const WeakPtr<T>& other)] *)
Definition SharedPtr_ctor_weak (this other : addr) : M () :=
  expired ← WeakPtr_Expired other;
  if expired : bool then throw BadWeakPtr
  else
    p ← WeakPtr_Get other;
    b ← WeakPtr_GetControlBlock other;
    construct_shared this (mkShared b p);;
    when (negb (is_null b)) (ControlBlockBase.AddStrong b).

(** [SharedPtr<T> Lock() const]; the result is built in [ret] *)
Definition WeakPtr_Lock (ret : addr) (this : addr) : M () :=
  expired ← WeakPtr_Expired this;
  if expired : bool then SharedPtr_ctor_default ret
  else SharedPtr_ctor_weak ret this.

(** ** Running a program *)

Definition σ0 : State := mkState ∅ ∅ ∅ [].

Definition exec {A} (m : M A) (σ : State) : State :=
  match m σ with Ok _ σ' => σ' | _ => σ end.

(** ** Pure descriptions of what the hook does *)

(** The derived part of a block after [OnZeroStrong] *)
Definition on_zero (d : Derived) : Derived :=
  match d with
  | ControlBlockPointer _ => ControlBlockPointer nullptr
  | ControlBlockEmplace => ControlBlockEmplace
  end.

(** The events of one call of [OnZeroStrong] on block [this] *)
Definition on_zero_events (this : addr) (d : Derived) : list event :=
  EvOnZeroStrong this ::
  match d with
  | ControlBlockPointer p => [EvDelete p]
  | ControlBlockEmplace => [EvDestroy this]
  end.

(** Number of calls of the hook of block [b] recorded in a trace *)
Definition hook_calls (b : addr) (t : list event) : nat :=
  count_occ event_eq_dec t (EvOnZeroStrong b).

(** Number of times [default_delete] ran on the address [p] *)
Definition deletions (p : addr) (t : list event) : nat :=
  count_occ event_eq_dec t (EvDelete p).

(** Number of times the control block at [b] was deallocated *)
Definition frees (b : addr) (t : list event) : nat :=
  count_occ event_eq_dec t (EvFree b).

(** The block after one strong reference is released through
    [SharedPtr::Reset()]: [None] when the block itself is deleted. *)
Definition release_strong (cb : ControlBlock) : option ControlBlock :=
  let s := SizeT.decr (strong_ cb) in
  if SizeT.add s (weak_ cb) =? 0 then None
  else Some (mkBlock s (weak_ cb)
               (if s =? 0 then on_zero (derived cb) else derived cb)).

Definition release_strong_events (b : addr) (cb : ControlBlock) : list event :=
  let s := SizeT.decr (strong_ cb) in
  EvRemoveStrong b ::
  (if s =? 0 then on_zero_events b (derived cb) else []) ++
  (if SizeT.add s (weak_ cb) =? 0 then [EvFree b] else []).

(** The same for a weak reference released through [WeakPtr::Reset()] *)
Definition release_weak (cb : ControlBlock) : option ControlBlock :=
  let w := SizeT.decr (weak_ cb) in
  if SizeT.add (strong_ cb) w =? 0 then None
  else Some (mkBlock (strong_ cb) w (derived cb)).

Definition release_weak_events (b : addr) (cb : ControlBlock) : list event :=
  EvRemoveWeak b ::
  (if SizeT.add (strong_ cb) (SizeT.decr (weak_ cb)) =? 0 then [EvFree b] else []).

(** Store [o] at [b], or remove [b] *)
Definition update_block (b : addr) (o : option ControlBlock)
    (m : gmap N ControlBlock) : gmap N ControlBlock :=
  match o with
  | Some cb => <[b := cb]> m
  | None => delete b m
  end.

(** ** Sequences of calls *)

Fixpoint run_all {A} (f : A → M ()) (l : list A) : M () :=
  match l with
  | [] => mret ()
  | x :: l' => f x;; run_all f l'
  end.

(** Position of the first occurrence of an event in a trace *)
Fixpoint index_of (e : event) (t : list event) : option nat :=
  match t with
  | [] => None
  | e' :: t' => if decide (e = e') then Some O else S <$> index_of e t'
  end.

(** Both events occur, and the first [e1] comes before the first [e2]. *)
Definition occurs_before (e1 e2 : event) (t : list event) : bool :=
  match index_of e1 t, index_of e2 t with
  | Some i, Some j => (i <? j)%nat
  | _, _ => false
  end.

(** ** UniquePtr

    A UniquePtr is the compressed pair of the held address and the cleanup
    policy.  What the policy does when it is called is a parameter: [call]
    transforms everything a policy can reach, which includes the UniquePtr
    objects themselves.  The calls made are recorded next to that. *)

Record UniquePtr (D : Type) := mkUnique { u_first : addr; u_second : D }.
Arguments mkUnique {D} _ _.
Arguments u_first {D} _.
Arguments u_second {D} _.

(** What a cleanup policy can read and write: the live UniquePtr objects and
    the rest of the program's data. *)
Record World (D U : Type) := mkWorld {
  uniques : gmap N (UniquePtr D);
  user : U
}.
Arguments mkWorld {D U} _ _.
Arguments uniques {D U} _.
Arguments user {D U} _.

Record UState (D U : Type) := mkUState {
  world : World D U;
  cleanups : list (addr * addr)   (* (owner, address) of each policy call *)
}.
Arguments mkUState {D U} _ _.
Arguments world {D U} _.
Arguments cleanups {D U} _.

Section UniquePtr.
Context {D U : Type}.
Variable call : D → addr → World D U → World D U.

Definition set_first (this ptr : addr) (w : World D U) : World D U :=
  mkWorld (alter (λ u, mkUnique ptr (u_second u)) this (uniques w)) (user w).

(** [T* Get() const] *)
Definition UniquePtr_Get (this : addr) (w : World D U) : option addr :=
  u_first <$> uniques w !! this.

(** [T* Release()] *)
Definition UniquePtr_Release (this : addr) (σ : UState D U) : option (addr * UState D U) :=
  match uniques (world σ) !! this with
  | None => None
  | Some u =>
      let tmp_ptr := u_first u in
      Some (tmp_ptr, mkUState (set_first this nullptr (world σ)) (cleanups σ))
  end.

(** [void Reset(T* ptr = nullptr)] of [UniquePtr<T, D>] *)
Definition UniquePtr_Reset (this ptr : addr) (σ : UState D U) : option (UState D U) :=
  match uniques (world σ) !! this with
  | None => None
  | Some u =>
      let tmp_ptr := u_first u in
      let w := set_first this ptr (world σ) in
      if is_null tmp_ptr then Some (mkUState w (cleanups σ))
      else
        match uniques w !! this with
        | None => None
        | Some u' =>
            Some (mkUState (call (u_second u') tmp_ptr w)
                    (cleanups σ ++ [(this, tmp_ptr)]))
        end
  end.

(** [void Reset(T* ptr = nullptr)] of the array form [UniquePtr<T[], D>] *)
Definition UniquePtrArray_Reset (this ptr : addr) (σ : UState D U) : option (UState D U) :=
  match uniques (world σ) !! this with
  | None => None
  | Some u =>
      let tmp_ptr := u_first u in
      let w := set_first this ptr (world σ) in
      if is_null tmp_ptr then Some (mkUState w (cleanups σ))
      else
        match uniques w !! this with
        | None => None
        | Some u' =>
            Some (mkUState (call (u_second u') tmp_ptr w)
                    (cleanups σ ++ [(this, tmp_ptr)]))
        end
  end.

(** [~UniquePtr()] *)
Definition UniquePtr_dtor (this : addr) (σ : UState D U) : option (UState D U) :=
  match UniquePtr_Reset this nullptr σ with
  | None => None
  | Some σ' =>
      Some (mkUState (mkWorld (delete this (uniques (world σ'))) (user (world σ')))
              (cleanups σ'))
  end.

End UniquePtr.

(** Number of SharedPtr objects of a store that hold the control block [b] *)
Definition owners_of (b : addr) (m : gmap N SharedPtr) : nat :=
  size (filter (λ kv : N * SharedPtr, s_block_ kv.2 = b) m).

(** Number of live SharedPtr objects that hold the control block [b] *)
Definition live_owners (b : addr) (σ : State) : nat := owners_of b (shared σ).

(** ** Programs over the owners of one control block *)

Inductive op :=
| CopyCons (x y : addr)     (* SharedPtr x(y); *)
| MoveCons (x y : addr)     (* SharedPtr x(std::move(y)); *)
| CopyAssign (x y : addr)   (* x = y; *)
| MoveAssign (x y : addr)   (* x = std::move(y); *)
| ResetOp (x : addr)        (* x.Reset(); *)
| Destroy (x : addr).       (* x goes out of scope *)

Definition run_op (o : op) : M () :=
  match o with
  | CopyCons x y => SharedPtr_ctor_copy x y
  | MoveCons x y => SharedPtr_ctor_move x y
  | CopyAssign x y => SharedPtr_assign_copy x y
  | MoveAssign x y => SharedPtr_assign_move x y
  | ResetOp x => SharedPtr_Reset x
  | Destroy x => SharedPtr_dtor x
  end.

(** The object at [x] is live and holds the block [b]. *)
Definition holds (σ : State) (x b : addr) : Prop :=
  ∃ s, shared σ !! x = Some s ∧ s_block_ s = b.

(** The operation names live objects, and constructs at an unused place. *)
Definition well_scoped (o : op) (σ : State) : Prop :=
  match o with
  | CopyCons x y | MoveCons x y => shared σ !! x = None ∧ is_Some (shared σ !! y)
  | CopyAssign x y | MoveAssign x y =>
      is_Some (shared σ !! x) ∧ is_Some (shared σ !! y)
  | ResetOp x | Destroy x => is_Some (shared σ !! x)
  end.

(** The operation assigns between two distinct owners of the block [b]. *)
Definition assigns_within (b : addr) (o : op) (σ : State) : Prop :=
  match o with
  | CopyAssign x y | MoveAssign x y => x ≠ y ∧ holds σ x b ∧ holds σ y b
  | _ => False
  end.

(** A program all of whose operations are well scoped when they run, and
    none of which assigns between two distinct owners of [b]. *)
Fixpoint admissible (b : addr) (ops : list op) (σ : State) : Prop :=
  match ops with
  | [] => True
  | o :: ops' =>
      well_scoped o σ ∧ ¬ assigns_within b o σ ∧
      ∀ σ', run_op o σ = Ok () σ' → admissible b ops' σ'
  end.

(** Every SharedPtr of the store holds [b] or nothing. *)
Definition owns_only (b : addr) (m : gmap N SharedPtr) : Prop :=
  ∀ x s, m !! x = Some s → s_block_ s = b ∨ s_block_ s = nullptr.

(** The strong count of [b] counts its live owners: while [b] has owners its
    strong count is their number and its hook has run [h] times; once it has
    none the hook has run once more.  [n] is the room left below
    [SIZE_MAX]. *)
Definition counted (b : addr) (h n : nat) (σ : State) : Prop :=
  owns_only b (shared σ) ∧
  ((0 < live_owners b σ)%nat →
   ∃ cb, blocks σ !! b = Some cb ∧
     strong_ cb = Z.of_nat (live_owners b σ) ∧
     0 <= weak_ cb ∧
     strong_ cb + weak_ cb + Z.of_nat n <= SizeT.max ∧
     hook_calls b (trace σ) = h) ∧
  (live_owners b σ = 0%nat → hook_calls b (trace σ) = S h).

(** ** Example data *)

(** [SharedPtr a(p7); SharedPtr b(a);] with objects at 1 and 2, the control
    block at 100 and the pointee at 7 *)
Definition two_owners : M () :=
  SharedPtr_ctor_ptr 100%N 1%N 7%N;;
  SharedPtr_ctor_copy 2%N 1%N.

(** [SharedPtr a(p7); SharedPtr b(p8);] with control blocks at 100 and 200 *)
Definition two_objects : M () :=
  SharedPtr_ctor_ptr 100%N 1%N 7%N;;
  SharedPtr_ctor_ptr 200%N 2%N 8%N.

(** [SharedPtr a(p7); WeakPtr w(a); WeakPtr v(w);] with the WeakPtr objects at
    11 and 12 *)
Definition one_owner_two_observers : M () :=
  SharedPtr_ctor_ptr 100%N 1%N 7%N;;
  WeakPtr_ctor_shared 11%N 1%N;;
  WeakPtr_ctor_copy 12%N 11%N.

(** [SharedPtr a; SharedPtr b(nullptr); WeakPtr w; WeakPtr v;] *)
Definition null_objects : M () :=
  SharedPtr_ctor_default 1%N;;
  SharedPtr_ctor_nullptr 2%N;;
  WeakPtr_ctor_default 11%N;;
  WeakPtr_ctor_default 12%N.

Definition σ_two_owners : State := exec two_owners σ0.
Definition σ_two_objects : State := exec two_objects σ0.
Definition σ_observed : State := exec one_owner_two_observers σ0.
Definition σ_null_objects : State := exec null_objects σ0.

(** A cleanup policy that writes down the address it is given together with
    the address its owner (the UniquePtr at 1) holds at that moment. *)
Definition recording_policy (_ : ()) (p : addr) (w : World () (list (addr * option addr)))
    : World () (list (addr * option addr)) :=
  mkWorld (uniques w) (user w ++ [(p, UniquePtr_Get 1%N w)]).

Definition unique_at_1 : UState () (list (addr * option addr)) :=
  mkUState (mkWorld {[1%N := mkUnique 7%N ()]} []) [].

(** ** The rest of SharedPtr and WeakPtr *)

(** [operator==(const SharedPtr<T>& left, const SharedPtr<U>& right)] *)
Definition SharedPtr_eq (left right : addr) : M bool :=
  l ← SharedPtr_Get left;
  r ← SharedPtr_Get right;
  mret (bool_decide (l = r)).

(** [ControlBlockEmplace<T>::Get()]: the address of the member [storage_],
    which lies [off] bytes into the block *)
Definition ControlBlockEmplace_Get (off : N) (this : addr) : addr :=
  (this + off)%N.


(** [void WeakPtr::Swap(WeakPtr& other)]; [tmp] is the address of the local *)
Definition WeakPtr_Swap (tmp : addr) (this other : addr) : M () :=
  WeakPtr_ctor_copy tmp this;;
  WeakPtr_assign_copy this other;;
  WeakPtr_assign_copy other tmp;;
  WeakPtr_dtor tmp.

(** ** References of both kinds going out of scope *)

Inductive ref :=
| Owner (x : addr)       (* the SharedPtr at x *)
| Observer (w : addr).   (* the WeakPtr at w *)

Definition release (r : ref) : M () :=
  match r with
  | Owner x => SharedPtr_dtor x
  | Observer w => WeakPtr_dtor w
  end.



(** ** Pointees that own smart pointers

    [ControlBlockBase.OnZeroStrong] above is the hook for a pointee whose
    destructor releases no smart pointer (an [int], say): deleting it leaves
    an event and nothing else.  In general [~T()] destroys the members of
    the object, and these may be SharedPtr and WeakPtr objects in their
    turn.  [destroy p] is what [~T()] does on the object at [p]; the
    functions that reach the hook are given again with it. *)

Module Owning.
Section pointee_destructor.
Variable off : N.                  (* offset of [storage_] in its block *)
Variable destroy : addr → M ().    (* [~T()] on the object at an address *)

(** [std::default_delete<T>()(ptr_); ptr_ = nullptr;] of
    [ControlBlockPointer] and [Get()->~T();] of [ControlBlockEmplace];
    [delete] of a null address does nothing. *)
Definition OnZeroStrong (this : addr) : M () :=
  emit (EvOnZeroStrong this);;
  cb ← get_block this;
  match derived cb with
  | ControlBlockPointer p =>
      emit (EvDelete p);;
      when (negb (is_null p)) (destroy p);;
      cb' ← get_block this;
      put_block this (set_derived (ControlBlockPointer nullptr) cb')
  | ControlBlockEmplace =>
      emit (EvDestroy this);;
      destroy (ControlBlockEmplace_Get off this)
  end.

Definition RemoveStrong (this : addr) : M bool :=
  cb ← get_block this;
  put_block this (set_strong (SizeT.decr (strong_ cb)) cb);;
  emit (EvRemoveStrong this);;
  cb ← get_block this;
  when (strong_ cb =? 0) (OnZeroStrong this);;
  cb ← get_block this;
  mret (SizeT.add (strong_ cb) (weak_ cb) =? 0).

(** [void Reset()] *)
Definition SharedPtr_Reset (this : addr) : M () :=
  s ← get_shared this;
  if is_null (s_block_ s) then mret ()
  else
    last ← RemoveStrong (s_block_ s);
    when last (delete_block (s_block_ s));;
    put_shared this null_shared.

(** [void Reset(T* ptr, ControlBlockBase* block)] *)
Definition SharedPtr_Reset_ptr_block (this ptr block : addr) : M () :=
  s ← get_shared this;
  if bool_decide (s_block_ s = block) then mret ()
  else
    SharedPtr_Reset this;;
    put_shared this (mkShared block ptr).

(** [SharedPtr& operator=(const SharedPtr& other)] *)
Definition SharedPtr_assign_copy (this other : addr) : M () :=
  if bool_decide (this = other) then mret ()
  else
    p ← SharedPtr_Get other;
    b ← SharedPtr_GetControlBlock other;
    SharedPtr_Reset_ptr_block this p b;;
    s ← get_shared this;
    when (negb (is_null (s_block_ s))) (ControlBlockBase.AddStrong (s_block_ s)).

(** [SharedPtr& operator=(SharedPtr&& other)] *)
Definition SharedPtr_assign_move (this other : addr) : M () :=
  if bool_decide (this = other) then mret ()
  else
    o ← get_shared other;
    SharedPtr_Reset_ptr_block this (s_ptr_ o) (s_block_ o);;
    s ← get_shared this;
    when (negb (is_null (s_block_ s))) (ControlBlockBase.AddStrong (s_block_ s));;
    SharedPtr_Reset other.

(** [~SharedPtr()] *)
Definition SharedPtr_dtor (this : addr) : M () :=
  SharedPtr_Reset this;;
  destruct_shared this.

(** A member going out of scope; [~WeakPtr()] never reaches the hook. *)
Definition release (r : ref) : M () :=
  match r with
  | Owner x => SharedPtr_dtor x
  | Observer w => WeakPtr_dtor w
  end.

End pointee_destructor.
End Owning.

(** [~T()] of a type whose objects hold smart pointers: [members p] are the
    SharedPtr and WeakPtr members of the object at [p], in the order they
    are destroyed.  The members' pointees are destroyed the same way; one
    unit of [fuel] is spent per nested destructor, and a run that needs more
    is abandoned. *)
Fixpoint destroy_members (off : N) (members : addr → list ref) (fuel : nat)
    (p : addr) : M () :=
  match fuel with
  | O => match members p with [] => mret () | _ :: _ => λ _, Undef end
  | S n => run_all (Owning.release off (destroy_members off members n)) (members p)
  end.

(** [~T()] of a pointee that holds no smart pointer *)
Definition plain : addr → M () := λ _, mret ().

(** ** Programs over the observers of one control block *)

(** Number of WeakPtr objects of a store that hold the control block [b] *)
Definition observers_of (b : addr) (m : gmap N WeakPtr) : nat :=
  size (filter (λ kv : N * WeakPtr, w_block_ kv.2 = b) m).

Definition live_observers (b : addr) (σ : State) : nat := observers_of b (weak σ).

Inductive wop :=
| WCopyCons (x y : addr)     (* WeakPtr x(y); *)
| WMoveCons (x y : addr)     (* WeakPtr x(std::move(y)); *)
| Demote (x s : addr)        (* WeakPtr x(s); for a SharedPtr s *)
| WCopyAssign (x y : addr)   (* x = y; *)
| WMoveAssign (x y : addr)   (* x = std::move(y); *)
| WSwapOp (tmp x y : addr)   (* x.Swap(y); with its local at tmp *)
| WResetOp (x : addr)        (* x.Reset(); *)
| WDestroy (x : addr).       (* x goes out of scope *)

Definition run_wop (o : wop) : M () :=
  match o with
  | WCopyCons x y => WeakPtr_ctor_copy x y
  | WMoveCons x y => WeakPtr_ctor_move x y
  | Demote x s => WeakPtr_ctor_shared x s
  | WCopyAssign x y => WeakPtr_assign_copy x y
  | WMoveAssign x y => WeakPtr_assign_move x y
  | WSwapOp tmp x y => WeakPtr_Swap tmp x y
  | WResetOp x => WeakPtr_Reset x
  | WDestroy x => WeakPtr_dtor x
  end.

(** The operation names live objects, and constructs at an unused place. *)
Definition wop_scoped (o : wop) (σ : State) : Prop :=
  match o with
  | WCopyCons x y | WMoveCons x y => weak σ !! x = None ∧ is_Some (weak σ !! y)
  | Demote x s => weak σ !! x = None ∧ is_Some (shared σ !! s)
  | WCopyAssign x y | WMoveAssign x y =>
      is_Some (weak σ !! x) ∧ is_Some (weak σ !! y)
  | WSwapOp tmp x y =>
      weak σ !! tmp = None ∧ is_Some (weak σ !! x) ∧ is_Some (weak σ !! y)
  | WResetOp x | WDestroy x => is_Some (weak σ !! x)
  end.

Fixpoint wops_scoped (ops : list wop) (σ : State) : Prop :=
  match ops with
  | [] => True
  | o :: ops' =>
      wop_scoped o σ ∧ ∀ σ', run_wop o σ = Ok () σ' → wops_scoped ops' σ'
  end.

(** Increments an operation may need room for below [SIZE_MAX] *)
Definition wop_room (o : wop) : nat :=
  match o with
  | WSwapOp _ _ _ => 3
  | _ => 1
  end.

Fixpoint wops_room (ops : list wop) : nat :=
  match ops with
  | [] => 0
  | o :: ops' => wop_room o + wops_room ops'
  end.

(** Every WeakPtr of the store holds [b] or nothing. *)
Definition observes_only (b : addr) (m : gmap N WeakPtr) : Prop :=
  ∀ x w, m !! x = Some w → w_block_ w = b ∨ w_block_ w = nullptr.

(** The weak count of [b] counts its live observers, while [b] keeps the
    strong count [s > 0] and its variant [d]; the hook of [b] has run [h]
    times and [b] has been freed [f] times.  [n] is the room left below
    [SIZE_MAX]. *)
Definition observed (b : addr) (s : Z) (d : Derived) (h f n : nat) (σ : State) : Prop :=
  observes_only b (weak σ) ∧ owns_only b (shared σ) ∧
  blocks σ !! b = Some (mkBlock s (Z.of_nat (live_observers b σ)) d) ∧
  0 < s ∧ s + Z.of_nat (live_observers b σ) + Z.of_nat n <= SizeT.max ∧
  hook_calls b (trace σ) = h ∧ frees b (trace σ) = f.

(** ** The rest of UniquePtr

    [moved d] is what a move out of the policy value [d] leaves behind. *)

Section UniquePtr_moves.
Context {D U : Type}.
Variable call : D → addr → World D U → World D U.
Variable moved : D → D.

Definition set_second (this : addr) (d : D) (w : World D U) : World D U :=
  mkWorld (alter (λ u, mkUnique (u_first u) d) this (uniques w)) (user w).

(** [UniquePtr(T* ptr, D_&& deleter)], and [explicit UniquePtr(T* ptr)] with
    [d] the value [D()] *)
Definition UniquePtr_ctor (this ptr : addr) (d : D) (σ : UState D U) : option (UState D U) :=
  match uniques (world σ) !! this with
  | Some _ => None
  | None =>
      Some (mkUState (mkWorld (<[this := mkUnique ptr d]> (uniques (world σ)))
                        (user (world σ)))
              (cleanups σ))
  end.

(** [D& GetDeleter()] *)
Definition UniquePtr_GetDeleter (this : addr) (w : World D U) : option D :=
  u_second <$> uniques w !! this.

(** [explicit operator bool()] *)
Definition UniquePtr_bool (this : addr) (w : World D U) : option bool :=
  (λ u, negb (is_null (u_first u))) <$> uniques w !! this.

(** [UniquePtr(UniquePtr<U, E>&& other)] *)
Definition UniquePtr_ctor_move (this other : addr) (σ : UState D U) : option (UState D U) :=
  match UniquePtr_Release other σ with
  | None => None
  | Some (p, σ1) =>
      match UniquePtr_GetDeleter other (world σ1) with
      | None => None
      | Some d =>
          UniquePtr_ctor this p d
            (mkUState (set_second other (moved d) (world σ1)) (cleanups σ1))
      end
  end.

(** [UniquePtr& operator=(UniquePtr&& other)] *)
Definition UniquePtr_assign_move (this other : addr) (σ : UState D U) : option (UState D U) :=
  match UniquePtr_Get other (world σ), UniquePtr_Get this (world σ) with
  | Some po, Some pt =>
      if bool_decide (po = pt) then Some σ
      else
        match UniquePtr_Release other σ with
        | None => None
        | Some (p, σ1) =>
            match UniquePtr_Reset call this p σ1 with
            | None => None
            | Some σ2 =>
                match UniquePtr_GetDeleter other (world σ2),
                      uniques (world σ2) !! this with
                | Some d, Some _ =>
                    Some (mkUState
                            (set_second this d (set_second other (moved d) (world σ2)))
                            (cleanups σ2))
                | _, _ => None
                end
            end
        end
  | _, _ => None
  end.

(** [UniquePtr& operator=(std::nullptr_t)] *)
Definition UniquePtr_assign_nullptr (this : addr) (σ : UState D U) : option (UState D U) :=
  UniquePtr_Reset call this nullptr σ.

(** [void Swap(UniquePtr& other)] *)
Definition UniquePtr_Swap (this other : addr) (σ : UState D U) : option (UState D U) :=
  match uniques (world σ) !! this, uniques (world σ) !! other with
  | Some u, Some o =>
      Some (mkUState
              (mkWorld (<[other := u]> (<[this := o]> (uniques (world σ))))
                 (user (world σ)))
              (cleanups σ))
  | _, _ => None
  end.

End UniquePtr_moves.

(** [SharedPtr a(p7); SharedPtr b(a, p9);]: [b] aliases into the object of
    [a] *)
Definition aliased_owners : M () :=
  SharedPtr_ctor_ptr 100%N 1%N 7%N;;
  SharedPtr_ctor_alias 2%N 1%N 9%N.

Definition σ_aliased : State := exec aliased_owners σ0.

(** [SharedPtr a(p7); SharedPtr b(p8); WeakPtr w(a); WeakPtr v(b);] *)
Definition two_observed_objects : M () :=
  two_objects;;
  WeakPtr_ctor_shared 11%N 1%N;;
  WeakPtr_ctor_shared 12%N 2%N.

Definition σ_two_observed : State := exec two_observed_objects σ0.

(** [SharedPtr a(p7); SharedPtr b(a, p9); WeakPtr w(a); WeakPtr v(b);]: two
    observers of one block with different stored addresses *)
Definition aliased_observers : M () :=
  aliased_owners;;
  WeakPtr_ctor_shared 11%N 1%N;;
  WeakPtr_ctor_shared 12%N 2%N.

Definition σ_aliased_observed : State := exec aliased_observers σ0.

(** [struct Node { SharedPtr<Node> next; };] with
    [SharedPtr<Node> head(new Node); head->next = SharedPtr<Node>(new Node);]:
    the nodes are at 7 and 8 with their members [next] at 5 and 6, [head] is
    at 1 and the temporary at 3; the control blocks are at 100 and 200. *)
Definition node_members (p : addr) : list ref :=
  if bool_decide (p = 7%N) then [Owner 5%N]
  else if bool_decide (p = 8%N) then [Owner 6%N]
  else [].

Definition linked_nodes : M () :=
  SharedPtr_ctor_default 5%N;;
  SharedPtr_ctor_ptr 100%N 1%N 7%N;;
  SharedPtr_ctor_default 6%N;;
  SharedPtr_ctor_ptr 200%N 3%N 8%N;;
  SharedPtr_assign_move 5%N 3%N;;
  SharedPtr_dtor 3%N.

Definition σ_linked : State := exec linked_nodes σ0.

(** [SharedPtr a(p7); SharedPtr b(a); WeakPtr w(a); a = b;] and then [a] and
    [b] going out of scope *)
Definition owners_gone_after_assignment : M () :=
  two_owners;;
  WeakPtr_ctor_shared 11%N 1%N;;
  SharedPtr_assign_copy 1%N 2%N;;
  SharedPtr_dtor 1%N;;
  SharedPtr_dtor 2%N.



(** Two UniquePtr objects with the policies [true] and [false]; a policy
    call writes down the policy and the address. *)
Definition noting_policy (d : bool) (p : addr) (w : World bool (list (bool * addr)))
    : World bool (list (bool * addr)) :=
  mkWorld (uniques w) (user w ++ [(d, p)]).

Definition two_uniques : UState bool (list (bool * addr)) :=
  mkUState (mkWorld {[1%N := mkUnique 7%N true; 2%N := mkUnique 8%N false]} []) [].

(** Two null UniquePtr objects with different policies *)
Definition two_null_uniques : UState bool (list (bool * addr)) :=
  mkUState (mkWorld {[1%N := mkUnique nullptr true; 2%N := mkUnique nullptr false]} []) [].

(** * Reasoning principles *)

Arguments SizeT.wrap : simpl never.
Arguments SizeT.incr : simpl never.
Arguments SizeT.decr : simpl never.
Arguments SizeT.add : simpl never.

Section size_t.
Import SizeT.

Lemma wrap_small z : in_range z → wrap z = z.
Proof. unfold in_range, wrap. intros. apply Z.mod_small. lia. Qed.

Lemma wrap_in_range z : in_range (wrap z).
Proof. unfold in_range, wrap, modulus. apply Z.mod_pos_bound. lia. Qed.

Lemma incr_small x : 0 <= x < max → incr x = x + 1.
Proof. intros. apply wrap_small. unfold in_range, max in *. lia. Qed.

Lemma decr_pos x : 0 < x < modulus → decr x = x - 1.
Proof. intros. apply wrap_small. unfold in_range. lia. Qed.

Lemma decr_zero : decr 0 = max.
Proof. reflexivity. Qed.

Lemma incr_max : incr max = 0.
Proof. reflexivity. Qed.

Lemma decr_incr x : in_range x → decr (incr x) = x.
Proof.
  unfold in_range, decr, incr, wrap. intros.
  rewrite Zminus_mod_idemp_l. replace (x + 1 - 1) with x by lia.
  apply Z.mod_small. lia.
Qed.

Lemma add_small x y : 0 <= x → 0 <= y → x + y <= max → add x y = x + y.
Proof. intros. apply wrap_small. unfold in_range, max in *. lia. Qed.

Lemma add_zero_l y : in_range y → add 0 y = y.
Proof. intros. apply wrap_small. assumption. Qed.

Lemma decr_eq_zero x : in_range x → decr x = 0 → x = 1.
Proof.
  unfold in_range. intros Hx Hd.
  destruct (Z.eq_dec x 0) as [->|Hne]; [rewrite decr_zero in Hd; discriminate|].
  rewrite decr_pos in Hd by lia. lia.
Qed.

End size_t.

Lemma bind_Ok {A B} (m : M A) (f : A → M B) σ a σ' :
  m σ = Ok a σ' → (m ≫= f) σ = f a σ'.
Proof. unfold mbind, M_bind. intros ->. reflexivity. Qed.

Lemma state_eta σ : mkState (blocks σ) (shared σ) (weak σ) (trace σ) = σ.
Proof. destruct σ; reflexivity. Qed.

Lemma lookup_update_block_eq b o (m : gmap N ControlBlock) :
  update_block b o m !! b = o.
Proof.
  destruct o; simpl; [apply lookup_insert_eq | apply lookup_delete_eq].
Qed.

Lemma lookup_update_block_ne b b' o (m : gmap N ControlBlock) :
  b ≠ b' → update_block b o m !! b' = m !! b'.
Proof.
  intros. destruct o; simpl;
    [apply lookup_insert_ne | apply lookup_delete_ne]; assumption.
Qed.

(** Unfold the primitive actions and the monad. *)
Ltac munfold :=
  unfold when, emit, get_block, put_block, delete_block, new_block,
    get_shared, put_shared, construct_shared, destruct_shared,
    get_weak, put_weak, construct_weak, destruct_weak, throw,
    mbind, M_bind, mret, M_ret,
    set_blocks, set_shared, set_weakptrs, set_trace,
    set_strong, set_weak, set_derived; simpl.

(** One step of symbolic execution: resolve a lookup from the context or
    from the shape of the map, or compute. *)
Ltac mstep :=
  first
    [ match goal with
      | H : ?m !! ?k = _ |- context [?m !! ?k] => rewrite H
      | H : ?x = true |- context [if ?x then _ else _] => rewrite H
      | H : ?x = false |- context [if ?x then _ else _] => rewrite H
      | H : ?x = ?v |- context [?x =? _] => rewrite H
      end
    | rewrite lookup_insert_eq
    | rewrite lookup_delete_eq
    | rewrite lookup_update_block_eq
    | rewrite lookup_insert_ne by congruence
    | rewrite lookup_delete_ne by congruence
    | rewrite lookup_update_block_ne by congruence
    | rewrite insert_insert_eq
    | rewrite <- app_assoc
    | rewrite bool_decide_eq_true_2 by congruence
    | rewrite bool_decide_eq_false_2 by congruence
    | progress simpl ].
Ltac mrun := munfold; repeat mstep.

(** Equal traces up to the bracketing of [++]. *)
Ltac trace_eq :=
  repeat first [rewrite <- app_assoc | progress simpl]; reflexivity.

(** ** Control block operations *)

Section block_ops.
Import ControlBlockBase.

Lemma AddStrong_ok σ this cb :
  blocks σ !! this = Some cb →
  AddStrong this σ =
  Ok () (mkState (<[this := mkBlock (SizeT.incr (strong_ cb)) (weak_ cb) (derived cb)]> (blocks σ))
           (shared σ) (weak σ) (trace σ ++ [EvAddStrong this])).
Proof. intros H. unfold AddStrong. mrun. reflexivity. Qed.

Lemma AddWeak_ok σ this cb :
  blocks σ !! this = Some cb →
  AddWeak this σ =
  Ok () (mkState (<[this := mkBlock (strong_ cb) (SizeT.incr (weak_ cb)) (derived cb)]> (blocks σ))
           (shared σ) (weak σ) (trace σ ++ [EvAddWeak this])).
Proof. intros H. unfold AddWeak. mrun. reflexivity. Qed.

Lemma GetStrong_ok σ this cb :
  blocks σ !! this = Some cb → GetStrong this σ = Ok (strong_ cb) σ.
Proof. intros H. unfold GetStrong. mrun. reflexivity. Qed.

Lemma RemoveStrong_zero σ this cb :
  blocks σ !! this = Some cb → SizeT.decr (strong_ cb) = 0 →
  RemoveStrong this σ =
  Ok (SizeT.add 0 (weak_ cb) =? 0)
     (mkState (<[this := mkBlock 0 (weak_ cb) (on_zero (derived cb))]> (blocks σ))
        (shared σ) (weak σ)
        (trace σ ++ EvRemoveStrong this :: on_zero_events this (derived cb))).
Proof.
  intros H Hz. unfold RemoveStrong, OnZeroStrong. mrun.
  destruct (derived cb); mrun; reflexivity.
Qed.

Lemma RemoveStrong_nonzero σ this cb :
  blocks σ !! this = Some cb → SizeT.decr (strong_ cb) ≠ 0 →
  RemoveStrong this σ =
  Ok (SizeT.add (SizeT.decr (strong_ cb)) (weak_ cb) =? 0)
     (mkState (<[this := mkBlock (SizeT.decr (strong_ cb)) (weak_ cb) (derived cb)]> (blocks σ))
        (shared σ) (weak σ) (trace σ ++ [EvRemoveStrong this])).
Proof.
  intros H Hz. apply Z.eqb_neq in Hz. unfold RemoveStrong. mrun. reflexivity.
Qed.

Lemma RemoveWeak_ok σ this cb :
  blocks σ !! this = Some cb →
  RemoveWeak this σ =
  Ok (SizeT.add (strong_ cb) (SizeT.decr (weak_ cb)) =? 0)
     (mkState (<[this := mkBlock (strong_ cb) (SizeT.decr (weak_ cb)) (derived cb)]> (blocks σ))
        (shared σ) (weak σ) (trace σ ++ [EvRemoveWeak this])).
Proof. intros H. unfold RemoveWeak. mrun. reflexivity. Qed.

End block_ops.

(** ** SharedPtr and WeakPtr: release of a reference *)

Lemma SharedPtr_Reset_null σ this s :
  shared σ !! this = Some s → s_block_ s = nullptr →
  SharedPtr_Reset this σ = Ok () σ.
Proof. intros H Hb. unfold SharedPtr_Reset, is_null. mrun. reflexivity. Qed.

Lemma SharedPtr_Reset_live σ this s cb :
  shared σ !! this = Some s → s_block_ s ≠ nullptr →
  blocks σ !! s_block_ s = Some cb →
  SharedPtr_Reset this σ =
  Ok () (mkState (update_block (s_block_ s) (release_strong cb) (blocks σ))
           (<[this := null_shared]> (shared σ)) (weak σ)
           (trace σ ++ release_strong_events (s_block_ s) cb)).
Proof.
  intros H Hb Hcb. unfold SharedPtr_Reset, is_null.
  unfold mbind at 1, M_bind at 1, get_shared. rewrite H.
  rewrite bool_decide_eq_false_2 by assumption.
  unfold release_strong, release_strong_events, update_block.
  destruct (Z.eq_dec (SizeT.decr (strong_ cb)) 0) as [Hz|Hz].
  - erewrite bind_Ok by (apply RemoveStrong_zero; eassumption).
    rewrite Hz. simpl (0 =? 0).
    destruct (SizeT.add 0 (weak_ cb) =? 0), (derived cb); mrun;
      rewrite ?delete_insert_eq; reflexivity.
  - erewrite bind_Ok by (apply RemoveStrong_nonzero; eassumption).
    apply Z.eqb_neq in Hz. rewrite Hz.
    destruct (SizeT.add (SizeT.decr (strong_ cb)) (weak_ cb) =? 0); mrun;
      rewrite ?delete_insert_eq; reflexivity.
Qed.

Lemma WeakPtr_Reset_null σ this w :
  weak σ !! this = Some w → w_block_ w = nullptr →
  WeakPtr_Reset this σ = Ok () σ.
Proof. intros H Hb. unfold WeakPtr_Reset, is_null. mrun. reflexivity. Qed.

Lemma WeakPtr_Reset_live σ this w cb :
  weak σ !! this = Some w → w_block_ w ≠ nullptr →
  blocks σ !! w_block_ w = Some cb →
  WeakPtr_Reset this σ =
  Ok () (mkState (update_block (w_block_ w) (release_weak cb) (blocks σ))
           (shared σ) (<[this := null_weak]> (weak σ))
           (trace σ ++ release_weak_events (w_block_ w) cb)).
Proof.
  intros H Hb Hcb. unfold WeakPtr_Reset, is_null.
  unfold mbind at 1, M_bind at 1, get_weak. rewrite H.
  rewrite bool_decide_eq_false_2 by assumption.
  erewrite bind_Ok by (apply RemoveWeak_ok; eassumption).
  unfold release_weak, release_weak_events, update_block.
  destruct (SizeT.add (strong_ cb) (SizeT.decr (weak_ cb)) =? 0); mrun;
    rewrite ?delete_insert_eq; reflexivity.
Qed.

Lemma hook_calls_app b t1 t2 :
  hook_calls b (t1 ++ t2) = (hook_calls b t1 + hook_calls b t2)%nat.
Proof. apply count_occ_app. Qed.

Lemma deletions_app p t1 t2 :
  deletions p (t1 ++ t2) = (deletions p t1 + deletions p t2)%nat.
Proof. apply count_occ_app. Qed.

Lemma frees_app b t1 t2 :
  frees b (t1 ++ t2) = (frees b t1 + frees b t2)%nat.
Proof. apply count_occ_app. Qed.

Lemma hook_calls_cons_neq b e t :
  e ≠ EvOnZeroStrong b → hook_calls b (e :: t) = hook_calls b t.
Proof. intros. apply count_occ_cons_neq. assumption. Qed.

Lemma hook_calls_on_zero b d : hook_calls b (on_zero_events b d) = 1%nat.
Proof.
  unfold hook_calls, on_zero_events. rewrite count_occ_cons_eq by reflexivity.
  destruct d; reflexivity.
Qed.

(** * The control block protocol *)


(** * Promotion of a WeakPtr *)

Lemma WeakPtr_UseCount_null σ this w :
  weak σ !! this = Some w → w_block_ w = nullptr →
  WeakPtr_UseCount this σ = Ok 0 σ.
Proof. intros H Hb. unfold WeakPtr_UseCount, is_null. mrun. reflexivity. Qed.

Lemma WeakPtr_UseCount_live σ this w cb :
  weak σ !! this = Some w → w_block_ w ≠ nullptr →
  blocks σ !! w_block_ w = Some cb →
  WeakPtr_UseCount this σ = Ok (strong_ cb) σ.
Proof.
  intros H Hb Hcb. unfold WeakPtr_UseCount, is_null, ControlBlockBase.GetStrong.
  mrun. reflexivity.
Qed.

Lemma WeakPtr_UseCount_dangling σ this w :
  weak σ !! this = Some w → w_block_ w ≠ nullptr →
  blocks σ !! w_block_ w = None →
  WeakPtr_UseCount this σ = Undef.
Proof.
  intros H Hb Hcb. unfold WeakPtr_UseCount, is_null, ControlBlockBase.GetStrong.
  mrun. reflexivity.
Qed.

(** [Expired] is an observer: it never changes the state. *)
Lemma WeakPtr_Expired_pure σ this e σ' :
  WeakPtr_Expired this σ = Ok e σ' → σ' = σ.
Proof.
  unfold WeakPtr_Expired, WeakPtr_UseCount, ControlBlockBase.GetStrong, is_null.
  munfold. destruct (weak σ !! this) as [w|]; [|discriminate]. simpl.
  destruct (bool_decide (w_block_ w = nullptr)); simpl.
  - intros [= _ <-]. reflexivity.
  - destruct (blocks σ !! w_block_ w); [|discriminate]. simpl.
    intros [= _ <-]. reflexivity.
Qed.

(** C3: the promoting constructor raises [BadWeakPtr] if and only if the
    WeakPtr is expired; [Lock] on an expired WeakPtr returns a null SharedPtr
    and raises nothing; [Lock] on a WeakPtr that is not expired returns a
    SharedPtr on the same address and block, and the strong count of the block
    has gone up by exactly one. *)
Theorem promotion_and_Lock σ ret w wp :
  weak σ !! w = Some wp →
  shared σ !! ret = None →
  (SharedPtr_ctor_weak ret w σ = Throw BadWeakPtr ↔ WeakPtr_Expired w σ = Ok true σ) ∧
  (WeakPtr_Expired w σ = Ok true σ ↔
   w_block_ wp = nullptr ∨ ∃ cb, blocks σ !! w_block_ wp = Some cb ∧ strong_ cb = 0) ∧
  (WeakPtr_Expired w σ = Ok true σ →
   WeakPtr_Lock ret w σ =
   Ok () (mkState (blocks σ) (<[ret := null_shared]> (shared σ)) (weak σ) (trace σ))) ∧
  (WeakPtr_Expired w σ = Ok false σ →
   ∃ cb, w_block_ wp ≠ nullptr ∧ blocks σ !! w_block_ wp = Some cb ∧ strong_ cb ≠ 0 ∧
     let σ' := mkState
         (<[w_block_ wp := mkBlock (SizeT.incr (strong_ cb)) (weak_ cb) (derived cb)]> (blocks σ))
         (<[ret := mkShared (w_block_ wp) (w_ptr_ wp)]> (shared σ))
         (weak σ) (trace σ ++ [EvAddStrong (w_block_ wp)]) in
     WeakPtr_Lock ret w σ = Ok () σ' ∧
     SharedPtr_ctor_weak ret w σ = Ok () σ' ∧
     SharedPtr_UseCount ret σ' = Ok (SizeT.incr (strong_ cb)) σ' ∧
     (0 <= strong_ cb < SizeT.max → SizeT.incr (strong_ cb) = strong_ cb + 1)).
Proof.
  intros Hw Hret.
  destruct (decide (w_block_ wp = nullptr)) as [Hnull|Hnull].
  { (* no control block: expired *)
    assert (He : WeakPtr_Expired w σ = Ok true σ).
    { unfold WeakPtr_Expired. erewrite bind_Ok by (eapply WeakPtr_UseCount_null; eassumption).
      reflexivity. }
    repeat split; try (intros; (assumption || congruence || (left; assumption))).
    - unfold SharedPtr_ctor_weak. erewrite bind_Ok by exact He. reflexivity.
    - unfold WeakPtr_Lock. erewrite bind_Ok by exact He.
      unfold SharedPtr_ctor_default. mrun. reflexivity. }
  destruct (blocks σ !! w_block_ wp) as [cb|] eqn:Hcb.
  2:{ (* dangling block: undefined behaviour on every path *)
    assert (He : WeakPtr_Expired w σ = Undef).
    { unfold WeakPtr_Expired, mbind, M_bind.
      erewrite WeakPtr_UseCount_dangling by eassumption. reflexivity. }
    repeat split; try (rewrite He; discriminate).
    - unfold SharedPtr_ctor_weak, mbind, M_bind. rewrite He. discriminate.
    - intros [?|(cb & ? & _)]; congruence. }
  assert (He : WeakPtr_Expired w σ = Ok (strong_ cb =? 0) σ).
  { unfold WeakPtr_Expired. erewrite bind_Ok by (eapply WeakPtr_UseCount_live; eassumption).
    reflexivity. }
  assert (Hrun : strong_ cb ≠ 0 →
    SharedPtr_ctor_weak ret w σ =
    Ok () (mkState
         (<[w_block_ wp := mkBlock (SizeT.incr (strong_ cb)) (weak_ cb) (derived cb)]> (blocks σ))
         (<[ret := mkShared (w_block_ wp) (w_ptr_ wp)]> (shared σ))
         (weak σ) (trace σ ++ [EvAddStrong (w_block_ wp)]))).
  { intros Hs. apply Z.eqb_neq in Hs.
    unfold SharedPtr_ctor_weak. erewrite bind_Ok by exact He. rewrite Hs.
    unfold WeakPtr_Get, WeakPtr_GetControlBlock, is_null, ControlBlockBase.AddStrong.
    mrun. reflexivity. }
  destruct (Z.eq_dec (strong_ cb) 0) as [Hs|Hs].
  - rewrite Hs in He. simpl in He.
    repeat split; try (intros; (assumption || congruence)).
    + unfold SharedPtr_ctor_weak. erewrite bind_Ok by exact He. reflexivity.
    + intros _. right. eauto.
    + unfold WeakPtr_Lock. erewrite bind_Ok by exact He.
      unfold SharedPtr_ctor_default. mrun. reflexivity.
  - pose proof Hs as Hs'. apply Z.eqb_neq in Hs'. rewrite Hs' in He.
    repeat split; try (intros; congruence).
    + rewrite Hrun by assumption. discriminate.
    + intros [?|(cb' & Hcb' & ?)]; congruence.
    + intros _. exists cb. repeat split; try assumption.
      * unfold WeakPtr_Lock. erewrite bind_Ok by exact He. auto.
      * auto.
      * unfold SharedPtr_UseCount, is_null, ControlBlockBase.GetStrong. mrun. reflexivity.
      * apply incr_small.
Qed.

(** * Null pointers *)

Lemma SharedPtr_UseCount_null σ this s :
  shared σ !! this = Some s → s_block_ s = nullptr →
  SharedPtr_UseCount this σ = Ok 0 σ.
Proof. intros H Hb. unfold SharedPtr_UseCount, is_null. mrun. reflexivity. Qed.

Lemma SharedPtr_UseCount_live σ this s cb :
  shared σ !! this = Some s → s_block_ s ≠ nullptr →
  blocks σ !! s_block_ s = Some cb →
  SharedPtr_UseCount this σ = Ok (strong_ cb) σ.
Proof.
  intros H Hb Hcb. unfold SharedPtr_UseCount, is_null, ControlBlockBase.GetStrong.
  mrun. reflexivity.
Qed.

(** C9: the raw-pointer constructor applied to a null address still
    allocates a referencing control block, so that [UseCount()] is 1 while
    [operator bool()] is false; the default and the [nullptr] constructor
    allocate nothing and give [UseCount()] 0. *)
Theorem raw_null_constructor σ nb this :
  nb ≠ nullptr → blocks σ !! nb = None → shared σ !! this = None →
  (∃ σ', SharedPtr_ctor_ptr nb this nullptr σ = Ok () σ' ∧
     blocks σ' = <[nb := mkBlock 1 0 (ControlBlockPointer nullptr)]> (blocks σ) ∧
     shared σ' !! this = Some (mkShared nb nullptr) ∧
     SharedPtr_UseCount this σ' = Ok 1 σ' ∧
     SharedPtr_bool this σ' = Ok false σ') ∧
  (∃ σ', SharedPtr_ctor_default this σ = Ok () σ' ∧
     blocks σ' = blocks σ ∧
     shared σ' !! this = Some null_shared ∧
     SharedPtr_UseCount this σ' = Ok 0 σ' ∧
     SharedPtr_bool this σ' = Ok false σ') ∧
  (∃ σ', SharedPtr_ctor_nullptr this σ = Ok () σ' ∧
     blocks σ' = blocks σ ∧
     shared σ' !! this = Some null_shared ∧
     SharedPtr_UseCount this σ' = Ok 0 σ' ∧
     SharedPtr_bool this σ' = Ok false σ').
Proof.
  intros Hnb Hfree Hthis. repeat split.
  - eexists. split.
    { unfold SharedPtr_ctor_ptr, ControlBlockPointer_new. mrun. reflexivity. }
    simpl. repeat split.
    + apply lookup_insert_eq.
    + unfold SharedPtr_UseCount, is_null, ControlBlockBase.GetStrong. mrun. reflexivity.
    + unfold SharedPtr_bool, is_null. mrun. reflexivity.
  - eexists. split.
    { unfold SharedPtr_ctor_default. mrun. reflexivity. }
    simpl. repeat split.
    + apply lookup_insert_eq.
    + unfold SharedPtr_UseCount, is_null. mrun. reflexivity.
    + unfold SharedPtr_bool, is_null. mrun. reflexivity.
  - eexists. split.
    { unfold SharedPtr_ctor_nullptr. mrun. reflexivity. }
    simpl. repeat split.
    + apply lookup_insert_eq.
    + unfold SharedPtr_UseCount, is_null. mrun. reflexivity.
    + unfold SharedPtr_bool, is_null. mrun. reflexivity.
Qed.

(** C10: on null SharedPtr and WeakPtr objects the copy constructor, the move
    constructor, both assignments, [Reset()] and [UseCount()] all return
    normally, change no control block and emit no event, and every null
    pointer involved is still null, with [UseCount()] 0, afterwards. *)
Theorem null_pointer_operations σ n m x wn wm wx :
  shared σ !! n = Some null_shared → shared σ !! m = Some null_shared →
  shared σ !! x = None →
  weak σ !! wn = Some null_weak → weak σ !! wm = Some null_weak →
  weak σ !! wx = None →
  let σs := mkState (blocks σ) (<[x := null_shared]> (shared σ)) (weak σ) (trace σ) in
  let σw := mkState (blocks σ) (shared σ) (<[wx := null_weak]> (weak σ)) (trace σ) in
  (SharedPtr_ctor_copy x n σ = Ok () σs ∧
   SharedPtr_ctor_move x n σ = Ok () σs ∧
   SharedPtr_UseCount x σs = Ok 0 σs ∧ SharedPtr_UseCount n σs = Ok 0 σs ∧
   shared σs !! n = Some null_shared ∧
   SharedPtr_assign_copy n m σ = Ok () σ ∧
   SharedPtr_assign_move n m σ = Ok () σ ∧
   SharedPtr_Reset n σ = Ok () σ ∧
   SharedPtr_UseCount n σ = Ok 0 σ) ∧
  (WeakPtr_ctor_copy wx wn σ = Ok () σw ∧
   WeakPtr_ctor_move wx wn σ = Ok () σw ∧
   WeakPtr_UseCount wx σw = Ok 0 σw ∧ WeakPtr_UseCount wn σw = Ok 0 σw ∧
   weak σw !! wn = Some null_weak ∧
   WeakPtr_assign_copy wn wm σ = Ok () σ ∧
   WeakPtr_assign_move wn wm σ = Ok () σ ∧
   WeakPtr_Reset wn σ = Ok () σ ∧
   WeakPtr_UseCount wn σ = Ok 0 σ).
Proof.
  intros Hn Hm Hx Hwn Hwm Hwx σs σw.
  assert (Hxn : x ≠ n) by congruence.
  assert (Hwxn : wx ≠ wn) by congruence.
  split; repeat split.
  - unfold SharedPtr_ctor_copy, SharedPtr_Get, SharedPtr_GetControlBlock, is_null.
    mrun. reflexivity.
  - unfold SharedPtr_ctor_move, SharedPtr_Get, SharedPtr_GetControlBlock,
      SharedPtr_Reset, is_null.
    mrun. reflexivity.
  - unfold SharedPtr_UseCount, is_null. mrun. reflexivity.
  - unfold SharedPtr_UseCount, is_null. mrun. reflexivity.
  - simpl. rewrite lookup_insert_ne by assumption. assumption.
  - unfold SharedPtr_assign_copy, SharedPtr_Get, SharedPtr_GetControlBlock,
      SharedPtr_Reset_ptr_block, is_null.
    destruct (bool_decide (n = m)); mrun; reflexivity.
  - unfold SharedPtr_assign_move, SharedPtr_Reset_ptr_block, SharedPtr_Reset, is_null.
    destruct (bool_decide (n = m)); mrun; reflexivity.
  - eapply SharedPtr_Reset_null; [eassumption | reflexivity].
  - eapply SharedPtr_UseCount_null; [eassumption | reflexivity].
  - unfold WeakPtr_ctor_copy, WeakPtr_Get, WeakPtr_GetControlBlock, is_null.
    mrun. reflexivity.
  - unfold WeakPtr_ctor_move, WeakPtr_Get, WeakPtr_GetControlBlock,
      WeakPtr_Reset, is_null.
    mrun. reflexivity.
  - unfold WeakPtr_UseCount, is_null. mrun. reflexivity.
  - unfold WeakPtr_UseCount, is_null. mrun. reflexivity.
  - simpl. rewrite lookup_insert_ne by assumption. assumption.
  - unfold WeakPtr_assign_copy, WeakPtr_Get, WeakPtr_GetControlBlock,
      WeakPtr_Reset_ptr_block, is_null.
    destruct (bool_decide (wn = wm)); mrun; reflexivity.
  - unfold WeakPtr_assign_move, WeakPtr_Get, WeakPtr_GetControlBlock,
      WeakPtr_Reset_ptr_block, WeakPtr_Reset, is_null.
    destruct (bool_decide (wn = wm)); mrun; reflexivity.
  - eapply WeakPtr_Reset_null; [eassumption | reflexivity].
  - eapply WeakPtr_UseCount_null; [eassumption | reflexivity].
Qed.

(** * Replacing the managed object *)



(** * Assignment *)

Lemma SharedPtr_assign_copy_self σ this :
  SharedPtr_assign_copy this this σ = Ok () σ.
Proof. unfold SharedPtr_assign_copy. mrun. reflexivity. Qed.

Lemma SharedPtr_assign_move_self σ this :
  SharedPtr_assign_move this this σ = Ok () σ.
Proof. unfold SharedPtr_assign_move. mrun. reflexivity. Qed.

(** Between distinct objects with different blocks, assignment is: release,
    adopt, add (and, for the move, reset the source). *)
Lemma SharedPtr_assign_copy_steps σ this other s o :
  this ≠ other → shared σ !! this = Some s → shared σ !! other = Some o →
  s_block_ s ≠ s_block_ o →
  SharedPtr_assign_copy this other σ =
  (SharedPtr_Reset this;;
   put_shared this (mkShared (s_block_ o) (s_ptr_ o));;
   when (negb (is_null (s_block_ o))) (ControlBlockBase.AddStrong (s_block_ o))) σ.
Proof.
  intros Hne Hs Ho Hb.
  unfold SharedPtr_assign_copy, SharedPtr_Get, SharedPtr_GetControlBlock,
    SharedPtr_Reset_ptr_block.
  mrun. destruct (SharedPtr_Reset this σ) as [[] σ1| |]; try reflexivity.
  destruct (shared σ1 !! this); mrun; reflexivity.
Qed.

Lemma SharedPtr_assign_move_steps σ this other s o :
  this ≠ other → shared σ !! this = Some s → shared σ !! other = Some o →
  s_block_ s ≠ s_block_ o →
  SharedPtr_assign_move this other σ =
  (SharedPtr_Reset this;;
   put_shared this (mkShared (s_block_ o) (s_ptr_ o));;
   when (negb (is_null (s_block_ o))) (ControlBlockBase.AddStrong (s_block_ o));;
   SharedPtr_Reset other) σ.
Proof.
  intros Hne Hs Ho Hb.
  unfold SharedPtr_assign_move, SharedPtr_Reset_ptr_block.
  mrun. destruct (SharedPtr_Reset this σ) as [[] σ1| |]; try reflexivity.
  destruct (shared σ1 !! this); mrun; reflexivity.
Qed.

(** The order of release and addition, for pointees that own no smart
    pointer: between two distinct SharedPtr objects that hold different
    control blocks, copy and move assignment first release the old strong
    reference of the destination, then adopt the address and the block of the
    source and add the new strong reference (the move then resets the
    source, so that the count of the adopted block is unchanged);
    self-assignment is a no-op that leaves the whole state, and so the stored
    address, the control block and both counts, unchanged. *)
Theorem assignment_releases_then_adds σ this other s o cbs cbo :
  this ≠ other → shared σ !! this = Some s → shared σ !! other = Some o →
  s_block_ s ≠ nullptr → s_block_ o ≠ nullptr → s_block_ s ≠ s_block_ o →
  blocks σ !! s_block_ s = Some cbs → blocks σ !! s_block_ o = Some cbo →
  0 < strong_ cbo < SizeT.max → 0 <= weak_ cbo →
  strong_ cbo + weak_ cbo <= SizeT.max →
  (∃ σ', SharedPtr_assign_copy this other σ = Ok () σ' ∧
     trace σ' = trace σ ++ release_strong_events (s_block_ s) cbs
                        ++ [EvAddStrong (s_block_ o)] ∧
     shared σ' = <[this := o]> (shared σ) ∧
     blocks σ' !! s_block_ s = release_strong cbs ∧
     blocks σ' !! s_block_ o =
       Some (mkBlock (strong_ cbo + 1) (weak_ cbo) (derived cbo))) ∧
  (∃ σ', SharedPtr_assign_move this other σ = Ok () σ' ∧
     trace σ' = trace σ ++ release_strong_events (s_block_ s) cbs
                        ++ [EvAddStrong (s_block_ o); EvRemoveStrong (s_block_ o)] ∧
     shared σ' = <[other := null_shared]> (<[this := o]> (shared σ)) ∧
     blocks σ' !! s_block_ s = release_strong cbs ∧
     blocks σ' !! s_block_ o = Some cbo) ∧
  SharedPtr_assign_copy this this σ = Ok () σ ∧
  SharedPtr_assign_move this this σ = Ok () σ.
Proof.
  intros Hne Hs Ho Hsn Hon Hb Hcbs Hcbo Hstrong Hweak Hsum.
  assert (Hincr : SizeT.incr (strong_ cbo) = strong_ cbo + 1)
    by (apply incr_small; lia).
  split; [|split; [|split]].
  - rewrite (SharedPtr_assign_copy_steps σ this other s o) by assumption.
    erewrite bind_Ok by (eapply SharedPtr_Reset_live; eassumption).
    eexists. split.
    { unfold ControlBlockBase.AddStrong, is_null. mrun. reflexivity. }
    simpl. rewrite Hincr. destruct o as [ob op]. simpl in *.
    repeat split.
    + rewrite <- app_assoc. reflexivity.
    + rewrite lookup_insert_ne by congruence. apply lookup_update_block_eq.
    + apply lookup_insert_eq.
  - rewrite (SharedPtr_assign_move_steps σ this other s o) by assumption.
    erewrite bind_Ok by (eapply SharedPtr_Reset_live; eassumption).
    assert (Hdecr : SizeT.decr (strong_ cbo + 1) = strong_ cbo).
    { rewrite <- Hincr. apply decr_incr. unfold SizeT.in_range, SizeT.max in *. lia. }
    assert (Hnz : SizeT.decr (strong_ cbo + 1) ≠ 0) by (rewrite Hdecr; lia).
    assert (Hadd : (SizeT.add (strong_ cbo) (weak_ cbo) =? 0) = false).
    { apply Z.eqb_neq. rewrite add_small by lia. lia. }
    eexists. split.
    { unfold ControlBlockBase.AddStrong, is_null. mrun. rewrite Hincr.
      erewrite SharedPtr_Reset_live.
      - reflexivity.
      - simpl. rewrite lookup_insert_ne by congruence. eassumption.
      - assumption.
      - simpl. apply lookup_insert_eq. }
    simpl. unfold release_strong, release_strong_events. simpl.
    rewrite Hdecr, Hadd. apply Z.eqb_neq in Hnz. rewrite Hdecr in Hnz. rewrite Hnz.
    simpl. destruct o as [ob op], cbo as [so wo do]. simpl in *.
    repeat split.
    + trace_eq.
    + rewrite insert_insert_eq.
      rewrite lookup_insert_ne by congruence. apply lookup_update_block_eq.
    + apply lookup_insert_eq.
  - apply SharedPtr_assign_copy_self.
  - apply SharedPtr_assign_move_self.
Qed.

(** * UniquePtr: cleanup on Reset *)

(** C8: [Reset(new_address)] calls the current cleanup policy exactly once,
    on the previously held address, when that address is not null, and calls
    nothing when it is null; the call happens after the new address has been
    stored, so a policy that reads the address of its owner during the call
    sees the new one.  The array form behaves identically. *)
Theorem UniquePtr_Reset_cleanup {D U} (call : D → addr → World D U → World D U)
    (σ : UState D U) (this ptr : addr) (u : UniquePtr D) :
  uniques (world σ) !! this = Some u →
  let w := set_first this ptr (world σ) in
  UniquePtr_Get this w = Some ptr ∧
  (u_first u ≠ nullptr →
   UniquePtr_Reset call this ptr σ =
   Some (mkUState (call (u_second u) (u_first u) w)
           (cleanups σ ++ [(this, u_first u)]))) ∧
  (u_first u = nullptr →
   UniquePtr_Reset call this ptr σ = Some (mkUState w (cleanups σ))) ∧
  UniquePtrArray_Reset call this ptr σ = UniquePtr_Reset call this ptr σ.
Proof.
  intros Hu w.
  assert (Hw : uniques w !! this = Some (mkUnique ptr (u_second u))).
  { subst w. unfold set_first. simpl. rewrite lookup_alter_eq, Hu. reflexivity. }
  repeat split.
  - unfold UniquePtr_Get. rewrite Hw. reflexivity.
  - intros Hne. unfold UniquePtr_Reset, is_null. rewrite Hu.
    rewrite bool_decide_eq_false_2 by assumption.
    fold w. rewrite Hw. reflexivity.
  - intros Heq. unfold UniquePtr_Reset, is_null. rewrite Hu.
    rewrite bool_decide_eq_true_2 by assumption. reflexivity.
Qed.

Lemma UniquePtr_Reset_cleanup_witness :
  uniques (world unique_at_1) !! 1%N = Some (mkUnique 7%N ()) ∧
  (user ∘ world) <$> UniquePtr_Reset recording_policy 1%N 9%N unique_at_1
    = Some [(7%N, Some 9%N)] ∧
  cleanups <$> UniquePtr_Reset recording_policy 1%N 9%N unique_at_1
    = Some [(1%N, 7%N)].
Proof.
  split; [reflexivity|].
  destruct (UniquePtr_Reset_cleanup recording_policy unique_at_1 1%N 9%N
              (mkUnique 7%N ()) eq_refl) as (_ & H & _ & _).
  rewrite H by discriminate. split; reflexivity.
Defined.

(** * The example programs *)

Lemma two_owners_ok : two_owners σ0 = Ok () σ_two_owners.
Proof. reflexivity. Qed.

Lemma two_objects_ok : two_objects σ0 = Ok () σ_two_objects.
Proof. reflexivity. Qed.

Lemma one_owner_two_observers_ok : one_owner_two_observers σ0 = Ok () σ_observed.
Proof. reflexivity. Qed.

Lemma null_objects_ok : null_objects σ0 = Ok () σ_null_objects.
Proof. reflexivity. Qed.

(** * Assignment between owners of one control block *)

(** C1, at the failing input [SharedPtr a(p); SharedPtr b(a); a = b;]: the two
    objects already share the block, [Reset(ptr, block)] returns at its guard,
    and [operator=] still calls [AddStrong]: [UseCount()] is 3 with two live
    owners, and after both are destroyed the strong count is stuck at 1 and
    the pointee was never deleted.  With [a = std::move(b)] the count stays 2
    although only one owner is left. *)
Theorem assignment_within_one_block_miscounts :
  SharedPtr_UseCount 1%N σ_two_owners = Ok 2 σ_two_owners ∧
  live_owners 100%N σ_two_owners = 2%nat ∧
  (∃ σ', SharedPtr_assign_copy 1%N 2%N σ_two_owners = Ok () σ' ∧
     SharedPtr_UseCount 1%N σ' = Ok 3 σ' ∧
     live_owners 100%N σ' = 2%nat ∧
     ∃ σ'', (SharedPtr_dtor 1%N;; SharedPtr_dtor 2%N) σ' = Ok () σ'' ∧
       shared σ'' = ∅ ∧
       live_owners 100%N σ'' = 0%nat ∧
       blocks σ'' !! 100%N = Some (mkBlock 1 0 (ControlBlockPointer 7%N)) ∧
       deletions 7%N (trace σ'') = 0%nat) ∧
  (∃ σ', SharedPtr_assign_move 1%N 2%N σ_two_owners = Ok () σ' ∧
     SharedPtr_UseCount 1%N σ' = Ok 2 σ' ∧
     live_owners 100%N σ' = 1%nat).
Proof.
  split; [reflexivity|]. split; [reflexivity|]. split.
  - eexists. split; [reflexivity|]. split; [reflexivity|]. split; [reflexivity|].
    eexists. repeat split; reflexivity.
  - eexists. repeat split; reflexivity.
Qed.

(** At [SharedPtr a(p7); SharedPtr b(p8); a = b;] the old
    reference of [a] is released, its pointee deleted and its block freed,
    before the strong count of the block of [b] is incremented. *)
Lemma assignment_order_counterexample :
  (∃ σ', SharedPtr_assign_copy 1%N 2%N σ_two_objects = Ok () σ' ∧
     trace σ' = [EvRemoveStrong 100%N; EvOnZeroStrong 100%N; EvDelete 7%N;
                 EvFree 100%N; EvAddStrong 200%N] ∧
     occurs_before (EvAddStrong 200%N) (EvRemoveStrong 100%N) (trace σ') = false ∧
     occurs_before (EvRemoveStrong 100%N) (EvAddStrong 200%N) (trace σ') = true) ∧
  (∃ σ', SharedPtr_assign_move 1%N 2%N σ_two_objects = Ok () σ' ∧
     trace σ' = [EvRemoveStrong 100%N; EvOnZeroStrong 100%N; EvDelete 7%N;
                 EvFree 100%N; EvAddStrong 200%N; EvRemoveStrong 200%N] ∧
     occurs_before (EvAddStrong 200%N) (EvRemoveStrong 100%N) (trace σ') = false ∧
     occurs_before (EvRemoveStrong 100%N) (EvAddStrong 200%N) (trace σ') = true).
Proof. split; eexists; repeat split; reflexivity. Qed.

Lemma assignment_releases_then_adds_witness :
  shared σ_two_objects !! 1%N = Some (mkShared 100%N 7%N) ∧
  shared σ_two_objects !! 2%N = Some (mkShared 200%N 8%N) ∧
  blocks σ_two_objects !! 100%N = Some (mkBlock 1 0 (ControlBlockPointer 7%N)) ∧
  blocks σ_two_objects !! 200%N = Some (mkBlock 1 0 (ControlBlockPointer 8%N)) ∧
  ∃ σ', SharedPtr_assign_copy 1%N 2%N σ_two_objects = Ok () σ' ∧
    blocks σ' !! 200%N = Some (mkBlock 2 0 (ControlBlockPointer 8%N)).
Proof.
  repeat split; try reflexivity.
  destruct (assignment_releases_then_adds σ_two_objects 1%N 2%N
              (mkShared 100%N 7%N) (mkShared 200%N 8%N)
              (mkBlock 1 0 (ControlBlockPointer 7%N))
              (mkBlock 1 0 (ControlBlockPointer 8%N)))
    as [(σ' & Hrun & _ & _ & _ & Hb) _];
    try reflexivity; try discriminate; try (simpl; unfold SizeT.max, SizeT.modulus; lia).
  exists σ'. split; [exact Hrun | exact Hb].
Defined.




Lemma promotion_and_Lock_witness :
  weak σ_observed !! 11%N = Some (mkWeak 100%N 7%N) ∧
  shared σ_observed !! 5%N = None ∧
  ∃ σ', WeakPtr_Lock 5%N 11%N σ_observed = Ok () σ' ∧
    SharedPtr_UseCount 5%N σ' = Ok 2 σ'.
Proof.
  repeat split; try reflexivity.
  destruct (promotion_and_Lock σ_observed 5%N 11%N (mkWeak 100%N 7%N) eq_refl eq_refl)
    as (_ & _ & _ & H).
  destruct (H eq_refl) as (cb & _ & Hcb & _ & Hlock & _ & Hu & _).
  assert (Hc : blocks σ_observed !! 100%N = Some (mkBlock 1 2 (ControlBlockPointer 7%N)))
    by reflexivity.
  change (blocks σ_observed !! 100%N = Some cb) in Hcb.
  rewrite Hc in Hcb. injection Hcb as <-.
  eexists. split; [exact Hlock | exact Hu].
Defined.

Lemma raw_null_constructor_witness :
  blocks σ0 !! 100%N = None ∧ shared σ0 !! 1%N = None ∧
  ∃ σ', SharedPtr_ctor_ptr 100%N 1%N nullptr σ0 = Ok () σ' ∧
    SharedPtr_UseCount 1%N σ' = Ok 1 σ' ∧ SharedPtr_bool 1%N σ' = Ok false σ'.
Proof.
  repeat split; try reflexivity.
  destruct (raw_null_constructor σ0 100%N 1%N) as [(σ' & Hrun & _ & _ & Hu & Hb) _];
    try reflexivity; try discriminate.
  exists σ'. repeat split; assumption.
Defined.

Lemma null_pointer_operations_witness :
  shared σ_null_objects !! 1%N = Some null_shared ∧
  shared σ_null_objects !! 2%N = Some null_shared ∧
  shared σ_null_objects !! 3%N = None ∧
  weak σ_null_objects !! 11%N = Some null_weak ∧
  weak σ_null_objects !! 12%N = Some null_weak ∧
  weak σ_null_objects !! 13%N = None ∧
  SharedPtr_assign_move 1%N 2%N σ_null_objects = Ok () σ_null_objects ∧
  WeakPtr_assign_move 11%N 12%N σ_null_objects = Ok () σ_null_objects.
Proof.
  destruct (null_pointer_operations σ_null_objects 1%N 2%N 3%N 11%N 12%N 13%N
              eq_refl eq_refl eq_refl eq_refl eq_refl eq_refl)
    as [(_ & _ & _ & _ & _ & _ & Hs & _) (_ & _ & _ & _ & _ & _ & Hw & _)].
  do 6 (split; [reflexivity|]).
  split; [exact Hs | exact Hw].
Defined.

(** * Owners come and go *)

Lemma SharedPtr_dtor_live σ this s cb :
  shared σ !! this = Some s → s_block_ s ≠ nullptr →
  blocks σ !! s_block_ s = Some cb →
  SharedPtr_dtor this σ =
  Ok () (mkState (update_block (s_block_ s) (release_strong cb) (blocks σ))
           (delete this (shared σ)) (weak σ)
           (trace σ ++ release_strong_events (s_block_ s) cb)).
Proof.
  intros H Hb Hcb. unfold SharedPtr_dtor.
  erewrite bind_Ok by (eapply SharedPtr_Reset_live; eassumption).
  mrun. rewrite delete_insert_eq. reflexivity.
Qed.

Lemma SharedPtr_ctor_copy_live σ this other o cb :
  shared σ !! other = Some o → shared σ !! this = None →
  s_block_ o ≠ nullptr → blocks σ !! s_block_ o = Some cb →
  SharedPtr_ctor_copy this other σ =
  Ok () (mkState
           (<[s_block_ o := mkBlock (SizeT.incr (strong_ cb)) (weak_ cb) (derived cb)]> (blocks σ))
           (<[this := o]> (shared σ)) (weak σ)
           (trace σ ++ [EvAddStrong (s_block_ o)])).
Proof.
  intros Ho Hthis Hb Hcb.
  unfold SharedPtr_ctor_copy, SharedPtr_Get, SharedPtr_GetControlBlock,
    ControlBlockBase.AddStrong, is_null.
  mrun. destruct o. reflexivity.
Qed.

(** Releasing one of several strong references only decrements. *)
Lemma release_strong_many b cb :
  1 < strong_ cb → 0 <= weak_ cb → strong_ cb + weak_ cb <= SizeT.max →
  release_strong cb = Some (mkBlock (strong_ cb - 1) (weak_ cb) (derived cb)) ∧
  release_strong_events b cb = [EvRemoveStrong b].
Proof.
  intros Hs Hw Hsum. unfold release_strong, release_strong_events.
  assert (Hd : SizeT.decr (strong_ cb) = strong_ cb - 1).
  { apply decr_pos. unfold SizeT.max in *. lia. }
  rewrite Hd. rewrite add_small by lia.
  assert (H1 : (strong_ cb - 1 + weak_ cb =? 0) = false) by (apply Z.eqb_neq; lia).
  assert (H2 : (strong_ cb - 1 =? 0) = false) by (apply Z.eqb_neq; lia).
  rewrite H1, H2. split; reflexivity.
Qed.

(** Releasing the last strong reference runs the hook, and frees the block
    when nobody observes it. *)
Lemma release_strong_one b cb :
  strong_ cb = 1 → 0 <= weak_ cb <= SizeT.max →
  release_strong cb =
    (if weak_ cb =? 0 then None
     else Some (mkBlock 0 (weak_ cb) (on_zero (derived cb)))) ∧
  release_strong_events b cb =
    EvRemoveStrong b :: on_zero_events b (derived cb) ++
    (if weak_ cb =? 0 then [EvFree b] else []).
Proof.
  intros Hs Hw. unfold release_strong, release_strong_events.
  rewrite Hs. change (SizeT.decr 1) with 0.
  rewrite add_zero_l by (unfold SizeT.in_range, SizeT.max in *; lia).
  split; reflexivity.
Qed.

Section counting.
Variables (b p : addr).

Lemma deletions_RemoveStrong n : deletions p (repeat (EvRemoveStrong b) n) = 0%nat.
Proof. induction n; [reflexivity|]. simpl. assumption. Qed.

Lemma hook_calls_RemoveStrong b' n : hook_calls b' (repeat (EvRemoveStrong b) n) = 0%nat.
Proof. induction n; [reflexivity|]. simpl. assumption. Qed.

Lemma frees_RemoveStrong b' n : frees b' (repeat (EvRemoveStrong b) n) = 0%nat.
Proof. induction n; [reflexivity|]. simpl. assumption. Qed.

Lemma deletions_AddStrong n : deletions p (repeat (EvAddStrong b) n) = 0%nat.
Proof. induction n; [reflexivity|]. simpl. assumption. Qed.

Lemma hook_calls_AddStrong b' n : hook_calls b' (repeat (EvAddStrong b) n) = 0%nat.
Proof. induction n; [reflexivity|]. simpl. assumption. Qed.

Lemma frees_AddStrong b' n : frees b' (repeat (EvAddStrong b) n) = 0%nat.
Proof. induction n; [reflexivity|]. simpl. assumption. Qed.

Lemma deletions_on_zero_pointer :
  deletions p (on_zero_events b (ControlBlockPointer p)) = 1%nat.
Proof.
  unfold deletions, on_zero_events.
  rewrite count_occ_cons_neq by discriminate.
  rewrite count_occ_cons_eq by reflexivity. reflexivity.
Qed.

Lemma frees_on_zero b' d : frees b' (on_zero_events b d) = 0%nat.
Proof. destruct d; reflexivity. Qed.

Lemma frees_free : frees b [EvFree b] = 1%nat.
Proof. unfold frees. rewrite count_occ_cons_eq by reflexivity. reflexivity. Qed.

Lemma deletions_free : deletions p [EvFree b] = 0%nat.
Proof. reflexivity. Qed.

Lemma hook_calls_free b' : hook_calls b' [EvFree b] = 0%nat.
Proof. reflexivity. Qed.

End counting.

Lemma repeat_snoc {A} (x : A) n : repeat x n ++ [x] = x :: repeat x n.
Proof. induction n; [reflexivity|]. simpl. rewrite IHn. reflexivity. Qed.

(** Copy-constructing the objects [xs] from the owner [x0] *)
Lemma copy_owners x0 b p w d xs :
  b ≠ nullptr →
  ∀ σ k,
    shared σ !! x0 = Some (mkShared b p) →
    blocks σ !! b = Some (mkBlock k w d) →
    0 <= k → k + Z.of_nat (length xs) <= SizeT.max →
    NoDup xs → (∀ x, x ∈ xs → shared σ !! x = None) →
    ∃ σ', run_all (λ x, SharedPtr_ctor_copy x x0) xs σ = Ok () σ' ∧
      blocks σ' !! b = Some (mkBlock (k + Z.of_nat (length xs)) w d) ∧
      trace σ' = trace σ ++ repeat (EvAddStrong b) (length xs) ∧
      weak σ' = weak σ ∧
      (∀ x, x ∈ xs → shared σ' !! x = Some (mkShared b p)) ∧
      (∀ y, y ∉ xs → shared σ' !! y = shared σ !! y).
Proof.
  intros Hb. induction xs as [|x xs IH]; intros σ k Hx0 Hcb Hk Hmax Hnd Hfree.
  - exists σ. simpl. rewrite Z.add_0_r, app_nil_r.
    repeat split; try assumption; try reflexivity.
    intros x Hx. inversion Hx.
  - apply NoDup_cons in Hnd as [Hx Hnd].
    assert (Hxfree : shared σ !! x = None) by (apply Hfree; left).
    assert (Hxx0 : x ≠ x0) by congruence.
    simpl length in *. rewrite Nat2Z.inj_succ in *.
    pose proof (SharedPtr_ctor_copy_live σ x x0 _ _ Hx0 Hxfree Hb Hcb) as Hcopy.
    simpl in Hcopy. rewrite incr_small in Hcopy by lia.
    match type of Hcopy with
    | _ = Ok () ?σ1 =>
        destruct (IH σ1 (k + 1)) as (σ' & Hrun & Hblk & Htr & Hwk & Hin & Hout)
    end.
    + simpl. rewrite lookup_insert_ne by assumption. exact Hx0.
    + simpl. apply lookup_insert_eq.
    + lia.
    + lia.
    + assumption.
    + intros x' Hx'. simpl. rewrite lookup_insert_ne by (intros ->; contradiction).
      apply Hfree. right. assumption.
    + exists σ'. simpl run_all. erewrite bind_Ok by exact Hcopy.
      split; [exact Hrun|]. simpl in *.
      repeat split.
      * rewrite Hblk. do 2 f_equal. lia.
      * rewrite Htr. rewrite <- app_assoc. reflexivity.
      * assumption.
      * intros x' Hx'. apply elem_of_cons in Hx' as [->|Hx'].
        -- rewrite Hout by assumption. apply lookup_insert_eq.
        -- apply Hin. assumption.
      * intros y Hy. apply not_elem_of_cons in Hy as [Hyx Hy].
        rewrite Hout by assumption. apply lookup_insert_ne. congruence.
Qed.

(** Destroying owners of the block [b] one after the other: as long as an
    owner is left nothing but the count changes; the destruction of the last
    one runs the hook, and frees the block if no WeakPtr observes it. *)
Lemma destroy_owners b w d :
  b ≠ nullptr → 0 <= w →
  ∀ ys1 ys2 σ,
    NoDup (ys1 ++ ys2) →
    (∀ y, y ∈ ys1 ++ ys2 → ∃ s, shared σ !! y = Some s ∧ s_block_ s = b) →
    blocks σ !! b = Some (mkBlock (Z.of_nat (length (ys1 ++ ys2))) w d) →
    Z.of_nat (length (ys1 ++ ys2)) + w <= SizeT.max →
    ∃ σ', run_all SharedPtr_dtor ys1 σ = Ok () σ' ∧
      weak σ' = weak σ ∧
      (∀ y, y ∈ ys1 → shared σ' !! y = None) ∧
      (∀ y, y ∉ ys1 → shared σ' !! y = shared σ !! y) ∧
      (ys2 ≠ [] →
       trace σ' = trace σ ++ repeat (EvRemoveStrong b) (length ys1) ∧
       blocks σ' !! b = Some (mkBlock (Z.of_nat (length ys2)) w d)) ∧
      (ys2 = [] → ys1 ≠ [] →
       trace σ' = trace σ ++ repeat (EvRemoveStrong b) (length ys1) ++
                  on_zero_events b d ++ (if w =? 0 then [EvFree b] else []) ∧
       blocks σ' !! b =
         if w =? 0 then None else Some (mkBlock 0 w (on_zero d))).
Proof.
  intros Hb Hw ys1. induction ys1 as [|y ys1 IH]; intros ys2 σ Hnd Hown Hcb Hmax.
  - exists σ. simpl in *. rewrite app_nil_r.
    repeat split; try reflexivity; try assumption; try congruence.
    intros y Hy. inversion Hy.
  - simpl app in *. apply NoDup_cons in Hnd as [Hy Hnd].
    destruct (Hown y) as (s & Hs & Hsb); [left|]. subst b.
    set (n := length (ys1 ++ ys2)) in *.
    simpl length in Hcb, Hmax. fold n in Hcb, Hmax. rewrite Nat2Z.inj_succ in Hcb, Hmax.
    destruct (decide (ys1 ++ ys2 = [])) as [Hnil|Hnil].
    + (* y is the last owner *)
      apply app_eq_nil in Hnil as [-> ->]. subst n.
      change (Z.succ (Z.of_nat (length ([] ++ [])))) with 1 in *.
      pose proof (SharedPtr_dtor_live σ y s _ Hs Hb Hcb) as Hd.
      destruct (release_strong_one (s_block_ s) (mkBlock 1 w d)) as [Hr He];
        [reflexivity | simpl; unfold SizeT.max in *; lia |].
      rewrite Hr, He in Hd. simpl in Hd.
      eexists. simpl run_all. erewrite bind_Ok by exact Hd.
      split; [reflexivity|]. simpl.
      repeat split; try congruence.
      * intros y' Hy'. apply list_elem_of_singleton in Hy' as ->. apply lookup_delete_eq.
      * intros y' Hy'. apply not_elem_of_cons in Hy' as [Hne _].
        apply lookup_delete_ne. congruence.
      * apply lookup_update_block_eq.
    + (* other owners are left *)
      assert (Hn : (0 < n)%nat).
      { subst n. destruct (ys1 ++ ys2); [congruence | simpl; lia]. }
      pose proof (SharedPtr_dtor_live σ y s _ Hs Hb Hcb) as Hd.
      destruct (release_strong_many (s_block_ s)
                  (mkBlock (Z.succ (Z.of_nat n)) w d)) as [Hr He];
        [simpl; lia | assumption | simpl; lia |].
      rewrite Hr, He in Hd. simpl in Hd.
      replace (Z.succ (Z.of_nat n) - 1) with (Z.of_nat n) in Hd by lia.
      match type of Hd with
      | _ = Ok () ?σ1 =>
          destruct (IH ys2 σ1) as (σ' & Hrun & Hwk & Hgone & Hkeep & Hmore & Hlast)
      end.
      * assumption.
      * intros y' Hy'. simpl. rewrite lookup_delete_ne by (intros ->; contradiction).
        apply Hown. right. assumption.
      * simpl. apply lookup_insert_eq.
      * fold n. lia.
      * exists σ'. simpl run_all. erewrite bind_Ok by exact Hd.
        split; [exact Hrun|]. simpl in *.
        repeat split.
        -- assumption.
        -- intros y' Hy'. apply elem_of_cons in Hy' as [->|Hy'].
           ++ destruct (decide (y ∈ ys1)) as [Hin|Hin]; [apply Hgone; assumption|].
              rewrite Hkeep by assumption. apply lookup_delete_eq.
           ++ apply Hgone. assumption.
        -- intros y' Hy'. apply not_elem_of_cons in Hy' as [Hne Hy'].
           rewrite Hkeep by assumption. apply lookup_delete_ne. congruence.
        -- destruct (Hmore H) as [-> _]. rewrite <- app_assoc. reflexivity.
        -- apply Hmore. assumption.
        -- destruct Hlast as [-> _]; [assumption | |].
           ++ intros ->. simpl in Hnil. contradiction.
           ++ rewrite <- app_assoc. reflexivity.
        -- apply Hlast; [assumption|]. intros ->. simpl in Hnil. contradiction.
Qed.

Lemma SharedPtr_ctor_ptr_ok σ nb this ptr :
  nb ≠ nullptr → blocks σ !! nb = None → shared σ !! this = None →
  SharedPtr_ctor_ptr nb this ptr σ =
  Ok () (mkState (<[nb := mkBlock 1 0 (ControlBlockPointer ptr)]> (blocks σ))
           (<[this := mkShared nb ptr]> (shared σ)) (weak σ) (trace σ)).
Proof.
  intros Hnb Hfree Hthis. unfold SharedPtr_ctor_ptr, ControlBlockPointer_new.
  mrun. reflexivity.
Qed.

(** C2: construct one SharedPtr [x0] from a raw address and any number of
    copies [xs] of it, then destroy all of these objects, in any order [ys]:
    every step succeeds; as long as an object is left the pointee has not been
    deleted and the hook has not run; once the last one is destroyed the
    pointee has been deleted exactly once, the hook has run exactly once, and
    the control block has been freed exactly once. *)
Theorem copies_destroyed_once σ nb p x0 xs ys :
  nb ≠ nullptr → blocks σ !! nb = None →
  NoDup (x0 :: xs) → (∀ x, x ∈ x0 :: xs → shared σ !! x = None) →
  Z.of_nat (length xs) < SizeT.max →
  ys ≡ₚ x0 :: xs →
  ∃ σ1,
    (SharedPtr_ctor_ptr nb x0 p;;
     run_all (λ x, SharedPtr_ctor_copy x x0) xs) σ = Ok () σ1 ∧
    SharedPtr_UseCount x0 σ1 = Ok (1 + Z.of_nat (length xs)) σ1 ∧
    ∀ ys1 ys2, ys = ys1 ++ ys2 →
      ∃ σ2, run_all SharedPtr_dtor ys1 σ1 = Ok () σ2 ∧
        (ys2 ≠ [] →
         deletions p (trace σ2) = deletions p (trace σ) ∧
         hook_calls nb (trace σ2) = hook_calls nb (trace σ) ∧
         frees nb (trace σ2) = frees nb (trace σ) ∧
         blocks σ2 !! nb =
           Some (mkBlock (Z.of_nat (length ys2)) 0 (ControlBlockPointer p))) ∧
        (ys2 = [] →
         deletions p (trace σ2) = S (deletions p (trace σ)) ∧
         hook_calls nb (trace σ2) = S (hook_calls nb (trace σ)) ∧
         frees nb (trace σ2) = S (frees nb (trace σ)) ∧
         blocks σ2 !! nb = None ∧
         ∀ y, y ∈ ys → shared σ2 !! y = None).
Proof.
  intros Hnb Hfree Hnd Hdead Hmax Hperm.
  pose proof Hnd as Hnd'. apply NoDup_cons in Hnd' as [Hx0 Hndxs].
  pose proof (SharedPtr_ctor_ptr_ok σ nb x0 p Hnb Hfree (Hdead x0 ltac:(left))) as Hctor.
  match type of Hctor with
  | _ = Ok () ?σa =>
      destruct (copy_owners x0 nb p 0 (ControlBlockPointer p) xs Hnb σa 1)
        as (σ1 & Hcopies & Hblk & Htr & Hwk & Hin & Hout)
  end.
  { simpl. apply lookup_insert_eq. }
  { simpl. apply lookup_insert_eq. }
  { lia. }
  { lia. }
  { assumption. }
  { intros x Hx. simpl. rewrite lookup_insert_ne by (intros ->; contradiction).
    apply Hdead. right. assumption. }
  simpl in Htr, Hout.
  assert (Hown : ∀ y, y ∈ x0 :: xs → shared σ1 !! y = Some (mkShared nb p)).
  { intros y Hy. apply elem_of_cons in Hy as [->|Hy].
    - rewrite Hout by assumption. apply lookup_insert_eq.
    - apply Hin. assumption. }
  exists σ1. split; [|split].
  - erewrite bind_Ok by exact Hctor. exact Hcopies.
  - exact (SharedPtr_UseCount_live σ1 x0 (mkShared nb p) _
             (Hown x0 ltac:(left)) Hnb Hblk).
  - intros ys1 ys2 Hys. subst ys.
    assert (Hlen : length (ys1 ++ ys2) = S (length xs)).
    { rewrite Hperm. reflexivity. }
    destruct (destroy_owners nb 0 (ControlBlockPointer p) Hnb ltac:(lia) ys1 ys2 σ1)
      as (σ2 & Hrun & _ & Hgone & _ & Hmore & Hlast).
    + rewrite Hperm. assumption.
    + intros y Hy. exists (mkShared nb p). split; [|reflexivity].
      apply Hown. rewrite <- Hperm. assumption.
    + rewrite Hblk, Hlen. do 2 f_equal. lia.
    + rewrite Hlen. lia.
    + exists σ2. split; [exact Hrun|]. split.
      * intros Hne. destruct (Hmore Hne) as [Ht Hb]. rewrite Ht, Htr.
        rewrite !deletions_app, !hook_calls_app, !frees_app.
        rewrite deletions_RemoveStrong, deletions_AddStrong,
          hook_calls_RemoveStrong, hook_calls_AddStrong,
          frees_RemoveStrong, frees_AddStrong.
        repeat split; try lia. exact Hb.
      * intros ->. rewrite app_nil_r in *.
        destruct Hlast as [Ht Hb]; [reflexivity | |].
        { intros ->. simpl in Hlen. lia. }
        rewrite Ht, Htr. simpl (_ =? _) in *. cbv iota in *.
        rewrite !deletions_app, !hook_calls_app, !frees_app.
        rewrite deletions_RemoveStrong, deletions_AddStrong,
          hook_calls_RemoveStrong, hook_calls_AddStrong,
          frees_RemoveStrong, frees_AddStrong.
        rewrite deletions_on_zero_pointer, hook_calls_on_zero, frees_on_zero.
        rewrite deletions_free, hook_calls_free, frees_free.
        repeat split; try lia.
        -- exact Hb.
        -- intros y Hy. apply Hgone. assumption.
Qed.

Lemma copies_destroyed_once_witness :
  blocks σ0 !! 100%N = None ∧
  [2%N; 1%N; 3%N] ≡ₚ [1%N; 2%N; 3%N] ∧
  ∃ σ1 σ2,
    (SharedPtr_ctor_ptr 100%N 1%N 7%N;;
     run_all (λ x, SharedPtr_ctor_copy x 1%N) [2%N; 3%N]) σ0 = Ok () σ1 ∧
    run_all SharedPtr_dtor [2%N; 1%N; 3%N] σ1 = Ok () σ2 ∧
    deletions 7%N (trace σ2) = 1%nat.
Proof.
  split; [reflexivity|]. split; [apply perm_swap|].
  destruct (copies_destroyed_once σ0 100%N 7%N 1%N [2%N; 3%N] [2%N; 1%N; 3%N])
    as (σ1 & Hbuild & _ & Hdestroy).
  - discriminate.
  - reflexivity.
  - apply (bool_decide_unpack _). reflexivity.
  - intros x _. apply lookup_empty.
  - reflexivity.
  - apply perm_swap.
  - destruct (Hdestroy [2%N; 1%N; 3%N] [] eq_refl) as (σ2 & Hrun & _ & Hlast).
    destruct (Hlast eq_refl) as (Hdel & _).
    exists σ1, σ2. repeat split; assumption.
Defined.

(** * Observers *)

Lemma WeakPtr_dtor_live σ this w cb :
  weak σ !! this = Some w → w_block_ w ≠ nullptr →
  blocks σ !! w_block_ w = Some cb →
  WeakPtr_dtor this σ =
  Ok () (mkState (update_block (w_block_ w) (release_weak cb) (blocks σ))
           (shared σ) (delete this (weak σ))
           (trace σ ++ release_weak_events (w_block_ w) cb)).
Proof.
  intros H Hb Hcb. unfold WeakPtr_dtor.
  erewrite bind_Ok by (eapply WeakPtr_Reset_live; eassumption).
  mrun. rewrite delete_insert_eq. reflexivity.
Qed.

Lemma WeakPtr_Expired_live σ this w cb :
  weak σ !! this = Some w → w_block_ w ≠ nullptr →
  blocks σ !! w_block_ w = Some cb →
  WeakPtr_Expired this σ = Ok (strong_ cb =? 0) σ.
Proof.
  intros H Hb Hcb. unfold WeakPtr_Expired.
  erewrite bind_Ok by (eapply WeakPtr_UseCount_live; eassumption).
  reflexivity.
Qed.

(** With the pointee gone, releasing one of several weak references only
    decrements; releasing the last one frees the block. *)
Lemma release_weak_many b cb :
  strong_ cb = 0 → 1 < weak_ cb <= SizeT.max →
  release_weak cb = Some (mkBlock 0 (weak_ cb - 1) (derived cb)) ∧
  release_weak_events b cb = [EvRemoveWeak b].
Proof.
  intros Hs Hw. unfold release_weak, release_weak_events. rewrite Hs.
  assert (Hd : SizeT.decr (weak_ cb) = weak_ cb - 1).
  { apply decr_pos. unfold SizeT.max in *. lia. }
  rewrite Hd. rewrite add_small by lia.
  assert (H1 : (0 + (weak_ cb - 1) =? 0) = false) by (apply Z.eqb_neq; lia).
  rewrite H1. split; reflexivity.
Qed.

Lemma release_weak_last b cb :
  strong_ cb = 0 → weak_ cb = 1 →
  release_weak cb = None ∧
  release_weak_events b cb = [EvRemoveWeak b; EvFree b].
Proof.
  intros Hs Hw. unfold release_weak, release_weak_events. rewrite Hs, Hw.
  split; reflexivity.
Qed.

Section counting_weak.
Variables (b : addr).

Lemma frees_RemoveWeak b' n : frees b' (repeat (EvRemoveWeak b) n) = 0%nat.
Proof. induction n; [reflexivity|]. simpl. assumption. Qed.

End counting_weak.

(** Destroying the observers of a block whose pointee is gone, one after the
    other: the block stays allocated as long as an observer is left, and the
    destruction of the last one frees it. *)
Lemma destroy_observers b d :
  b ≠ nullptr →
  ∀ ws1 ws2 σ,
    NoDup (ws1 ++ ws2) →
    (∀ w, w ∈ ws1 ++ ws2 → ∃ wp, weak σ !! w = Some wp ∧ w_block_ wp = b) →
    blocks σ !! b = Some (mkBlock 0 (Z.of_nat (length (ws1 ++ ws2))) d) →
    Z.of_nat (length (ws1 ++ ws2)) <= SizeT.max →
    ∃ σ', run_all WeakPtr_dtor ws1 σ = Ok () σ' ∧
      shared σ' = shared σ ∧
      (∀ w, w ∈ ws1 → weak σ' !! w = None) ∧
      (∀ w, w ∉ ws1 → weak σ' !! w = weak σ !! w) ∧
      (ws2 ≠ [] →
       trace σ' = trace σ ++ repeat (EvRemoveWeak b) (length ws1) ∧
       blocks σ' !! b = Some (mkBlock 0 (Z.of_nat (length ws2)) d)) ∧
      (ws2 = [] → ws1 ≠ [] →
       trace σ' = trace σ ++ repeat (EvRemoveWeak b) (length ws1) ++ [EvFree b] ∧
       blocks σ' !! b = None).
Proof.
  intros Hb ws1. induction ws1 as [|y ws1 IH]; intros ws2 σ Hnd Hown Hcb Hmax.
  - exists σ. simpl in *. rewrite app_nil_r.
    repeat split; try reflexivity; try assumption; try congruence.
    intros y Hy. inversion Hy.
  - simpl app in *. apply NoDup_cons in Hnd as [Hy Hnd].
    destruct (Hown y) as (wp & Hwp & Hwb); [left|]. subst b.
    set (n := length (ws1 ++ ws2)) in *.
    simpl length in Hcb, Hmax. fold n in Hcb, Hmax. rewrite Nat2Z.inj_succ in Hcb, Hmax.
    destruct (decide (ws1 ++ ws2 = [])) as [Hnil|Hnil].
    + apply app_eq_nil in Hnil as [-> ->]. subst n.
      change (Z.succ (Z.of_nat (length ([] ++ [])))) with 1 in *.
      pose proof (WeakPtr_dtor_live σ y wp _ Hwp Hb Hcb) as Hd.
      destruct (release_weak_last (w_block_ wp) (mkBlock 0 1 d)) as [Hr He];
        [reflexivity | reflexivity |].
      rewrite Hr, He in Hd. simpl in Hd.
      eexists. simpl run_all. erewrite bind_Ok by exact Hd.
      split; [reflexivity|]. simpl.
      repeat split; try congruence.
      * intros y' Hy'. apply list_elem_of_singleton in Hy' as ->. apply lookup_delete_eq.
      * intros y' Hy'. apply not_elem_of_cons in Hy' as [Hne _].
        apply lookup_delete_ne. congruence.
      * apply lookup_delete_eq.
    + assert (Hn : (0 < n)%nat).
      { subst n. destruct (ws1 ++ ws2); [congruence | simpl; lia]. }
      pose proof (WeakPtr_dtor_live σ y wp _ Hwp Hb Hcb) as Hd.
      destruct (release_weak_many (w_block_ wp)
                  (mkBlock 0 (Z.succ (Z.of_nat n)) d)) as [Hr He];
        [reflexivity | simpl; lia |].
      rewrite Hr, He in Hd. simpl in Hd.
      replace (Z.succ (Z.of_nat n) - 1) with (Z.of_nat n) in Hd by lia.
      match type of Hd with
      | _ = Ok () ?σ1 =>
          destruct (IH ws2 σ1) as (σ' & Hrun & Hsh & Hgone & Hkeep & Hmore & Hlast)
      end.
      * assumption.
      * intros y' Hy'. simpl. rewrite lookup_delete_ne by (intros ->; contradiction).
        apply Hown. right. assumption.
      * simpl. apply lookup_insert_eq.
      * fold n. lia.
      * exists σ'. simpl run_all. erewrite bind_Ok by exact Hd.
        split; [exact Hrun|]. simpl in *.
        repeat split.
        -- assumption.
        -- intros y' Hy'. apply elem_of_cons in Hy' as [->|Hy'].
           ++ destruct (decide (y ∈ ws1)) as [Hin|Hin]; [apply Hgone; assumption|].
              rewrite Hkeep by assumption. apply lookup_delete_eq.
           ++ apply Hgone. assumption.
        -- intros y' Hy'. apply not_elem_of_cons in Hy' as [Hne Hy'].
           rewrite Hkeep by assumption. apply lookup_delete_ne. congruence.
        -- destruct (Hmore H) as [-> _]. rewrite <- app_assoc. reflexivity.
        -- apply Hmore. assumption.
        -- destruct Hlast as [-> _]; [assumption | |].
           ++ intros ->. simpl in Hnil. contradiction.
           ++ rewrite <- app_assoc. reflexivity.
        -- apply Hlast; [assumption|]. intros ->. simpl in Hnil. contradiction.
Qed.

(** Where the strong count is accurate: let [s] hold the one strong
    reference counted on a block that the WeakPtr objects [ws] observe.  As soon as [s] is reset or destroyed, the hook has run, the
    block is still allocated, and [Expired()] is true on every observer.  When
    the observers are then destroyed, in any order, the block stays allocated,
    and [Expired()] stays true on the observers that are left, until the last
    of them is destroyed; that destruction frees the block. *)
Theorem observers_expire_with_last_owner σ b s sp cb ws :
  b ≠ nullptr →
  shared σ !! s = Some sp → s_block_ sp = b → blocks σ !! b = Some cb →
  strong_ cb = 1 → weak_ cb = Z.of_nat (length ws) →
  ws ≠ [] → Z.of_nat (length ws) <= SizeT.max →
  NoDup ws → (∀ w, w ∈ ws → ∃ wp, weak σ !! w = Some wp ∧ w_block_ wp = b) →
  ∀ release, release = SharedPtr_Reset ∨ release = SharedPtr_dtor →
  ∃ σ1, release s σ = Ok () σ1 ∧
    hook_calls b (trace σ1) = S (hook_calls b (trace σ)) ∧
    frees b (trace σ1) = frees b (trace σ) ∧
    blocks σ1 !! b = Some (mkBlock 0 (weak_ cb) (on_zero (derived cb))) ∧
    (∀ w, w ∈ ws →
       WeakPtr_Expired w σ1 = Ok true σ1 ∧ WeakPtr_UseCount w σ1 = Ok 0 σ1) ∧
    ∀ ws1 ws2, ws1 ++ ws2 ≡ₚ ws →
      ∃ σ2, run_all WeakPtr_dtor ws1 σ1 = Ok () σ2 ∧
        (ws2 ≠ [] →
         blocks σ2 !! b =
           Some (mkBlock 0 (Z.of_nat (length ws2)) (on_zero (derived cb))) ∧
         frees b (trace σ2) = frees b (trace σ) ∧
         ∀ w, w ∈ ws2 → WeakPtr_Expired w σ2 = Ok true σ2) ∧
        (ws2 = [] →
         blocks σ2 !! b = None ∧
         frees b (trace σ2) = S (frees b (trace σ))).
Proof.
  intros Hb Hs Hsb Hcb Hstrong Hweak Hne Hmax Hnd Hobs release Hrel.
  subst b.
  assert (Hlen : (0 < length ws)%nat) by (destruct ws; [congruence | simpl; lia]).
  assert (Hrange : 0 <= weak_ cb <= SizeT.max) by lia.
  assert (Hwnz : (weak_ cb =? 0) = false) by (apply Z.eqb_neq; lia).
  destruct (release_strong_one (s_block_ sp) cb Hstrong Hrange) as [Hr He].
  rewrite Hwnz in Hr, He. rewrite app_nil_r in He.
  (* both ways of releasing agree on everything but the store of owners *)
  assert (Hσ1 : ∃ σ1, release s σ = Ok () σ1 ∧
            blocks σ1 = <[s_block_ sp := mkBlock 0 (weak_ cb) (on_zero (derived cb))]> (blocks σ) ∧
            weak σ1 = weak σ ∧
            trace σ1 = trace σ ++ EvRemoveStrong (s_block_ sp)
                               :: on_zero_events (s_block_ sp) (derived cb)).
  { destruct Hrel as [-> | ->].
    - eexists. split; [eapply SharedPtr_Reset_live; eassumption|].
      simpl. rewrite Hr, He. repeat split; reflexivity.
    - eexists. split; [eapply SharedPtr_dtor_live; eassumption|].
      simpl. rewrite Hr, He. repeat split; reflexivity. }
  destruct Hσ1 as (σ1 & Hrun & Hblocks & Hwk & Htr).
  assert (Hblk : blocks σ1 !! s_block_ sp =
                 Some (mkBlock 0 (weak_ cb) (on_zero (derived cb)))).
  { rewrite Hblocks. apply lookup_insert_eq. }
  assert (Hfrees1 : frees (s_block_ sp) (trace σ1) = frees (s_block_ sp) (trace σ)).
  { rewrite Htr, frees_app. unfold frees at 2.
    rewrite count_occ_cons_neq by discriminate.
    fold (frees (s_block_ sp) (on_zero_events (s_block_ sp) (derived cb))).
    rewrite frees_on_zero. lia. }
  exists σ1. split; [exact Hrun|]. split; [|split; [exact Hfrees1|split; [exact Hblk|split]]].
  - rewrite Htr, hook_calls_app. unfold hook_calls at 2.
    rewrite count_occ_cons_neq by discriminate.
    fold (hook_calls (s_block_ sp) (on_zero_events (s_block_ sp) (derived cb))).
    rewrite hook_calls_on_zero. lia.
  - intros w Hw. destruct (Hobs w Hw) as (wp & Hwp & Hwb).
    rewrite <- Hwk in Hwp. rewrite <- Hwb in Hblk, Hb. split.
    + rewrite (WeakPtr_Expired_live σ1 w wp _ Hwp Hb Hblk). reflexivity.
    + rewrite (WeakPtr_UseCount_live σ1 w wp _ Hwp Hb Hblk). reflexivity.
  - intros ws1 ws2 Hperm.
    assert (Hlen12 : length (ws1 ++ ws2) = length ws) by (rewrite Hperm; reflexivity).
    destruct (destroy_observers (s_block_ sp) (on_zero (derived cb)) Hb ws1 ws2 σ1)
      as (σ2 & Hrun2 & _ & _ & Hkeep & Hmore & Hlast).
    + rewrite Hperm. assumption.
    + intros w Hw. rewrite Hwk. apply Hobs. rewrite <- Hperm. assumption.
    + rewrite Hblk, Hlen12, Hweak. reflexivity.
    + rewrite Hlen12. assumption.
    + exists σ2. split; [exact Hrun2|]. split.
      * intros Hne2. destruct (Hmore Hne2) as [Ht Hb2].
        split; [exact Hb2|]. split.
        -- rewrite Ht, frees_app, frees_RemoveWeak. lia.
        -- intros w Hw.
           assert (Hwws : w ∈ ws) by (rewrite <- Hperm; apply elem_of_app; right; assumption).
           destruct (Hobs w Hwws) as (wp & Hwp & Hwb).
           assert (Hw1 : w ∉ ws1).
           { intros Hin. rewrite <- Hperm in Hnd. apply NoDup_app in Hnd as (_ & Hdis & _).
             exact (Hdis w Hin Hw). }
           rewrite <- Hwk, <- (Hkeep w Hw1) in Hwp.
           rewrite <- Hwb in Hb2, Hb.
           rewrite (WeakPtr_Expired_live σ2 w wp _ Hwp Hb Hb2). reflexivity.
      * intros ->. rewrite app_nil_r in *.
        destruct Hlast as [Ht Hb2]; [reflexivity | |].
        { intros ->. simpl in Hlen12. lia. }
        split; [exact Hb2|].
        rewrite Ht, !frees_app, frees_RemoveWeak, frees_free. lia.
Qed.

Lemma observers_expire_with_last_owner_witness :
  shared σ_observed !! 1%N = Some (mkShared 100%N 7%N) ∧
  blocks σ_observed !! 100%N = Some (mkBlock 1 2 (ControlBlockPointer 7%N)) ∧
  ∃ σ1 σ2,
    SharedPtr_dtor 1%N σ_observed = Ok () σ1 ∧
    WeakPtr_Expired 11%N σ1 = Ok true σ1 ∧
    WeakPtr_Expired 12%N σ1 = Ok true σ1 ∧
    run_all WeakPtr_dtor [12%N; 11%N] σ1 = Ok () σ2 ∧
    blocks σ2 !! 100%N = None.
Proof.
  split; [reflexivity|]. split; [reflexivity|].
  destruct (observers_expire_with_last_owner σ_observed 100%N 1%N
              (mkShared 100%N 7%N) (mkBlock 1 2 (ControlBlockPointer 7%N))
              [11%N; 12%N])
    with (release := SharedPtr_dtor)
    as (σ1 & Hrun & _ & _ & _ & Hexp & Hrest).
  - discriminate.
  - reflexivity.
  - reflexivity.
  - reflexivity.
  - reflexivity.
  - reflexivity.
  - discriminate.
  - discriminate.
  - apply (bool_decide_unpack _). reflexivity.
  - intros w Hw. apply elem_of_cons in Hw as [->|Hw].
    + eexists. split; reflexivity.
    + apply list_elem_of_singleton in Hw as ->. eexists. split; reflexivity.
  - right. reflexivity.
  - destruct (Hrest [12%N; 11%N] []) as (σ2 & Hrun2 & _ & Hlast).
    { simpl. apply perm_swap. }
    destruct (Hlast eq_refl) as [Hfreed _].
    exists σ1, σ2. repeat split; try assumption.
    + apply Hexp. left.
    + apply Hexp. right. left.
Defined.

(** * The strong count counts the owners *)

Section owners.
Variable b : addr.

Lemma owners_of_insert_other m x s' :
  (∀ s, m !! x = Some s → s_block_ s ≠ b) →
  owners_of b (<[x := s']> m) =
  if decide (s_block_ s' = b) then S (owners_of b m) else owners_of b m.
Proof.
  intros Hx. unfold owners_of. destruct (decide (s_block_ s' = b)) as [Hs|Hs].
  - rewrite map_filter_insert_True by exact Hs.
    apply map_size_insert_None. apply map_lookup_filter_None. right.
    intros s Hm. simpl. apply Hx. assumption.
  - rewrite map_filter_insert_not'; [reflexivity | exact Hs |].
    intros s Hm. simpl. apply Hx. assumption.
Qed.

Lemma owners_of_delete_other m x :
  (∀ s, m !! x = Some s → s_block_ s ≠ b) →
  owners_of b (delete x m) = owners_of b m.
Proof.
  intros Hx. unfold owners_of. rewrite map_filter_delete_not; [reflexivity|].
  intros s Hm. simpl. apply Hx. assumption.
Qed.

Lemma owners_of_delete_owner m x s :
  m !! x = Some s → s_block_ s = b →
  S (owners_of b (delete x m)) = owners_of b m.
Proof.
  intros Hm Hs. rewrite <- (insert_delete_id m x s Hm) at 2.
  rewrite owners_of_insert_other.
  - rewrite decide_True by exact Hs. reflexivity.
  - intros s0. rewrite lookup_delete_eq. discriminate.
Qed.

Lemma owners_of_insert_owner m x s s' :
  m !! x = Some s → s_block_ s = b → s_block_ s' ≠ b →
  S (owners_of b (<[x := s']> m)) = owners_of b m.
Proof.
  intros Hm Hs Hs'. rewrite <- (insert_delete_eq m).
  rewrite owners_of_insert_other.
  - rewrite decide_False by exact Hs'. eapply owners_of_delete_owner; eassumption.
  - intros s0. rewrite lookup_delete_eq. discriminate.
Qed.

Lemma owners_of_pos m x s :
  m !! x = Some s → s_block_ s = b → (0 < owners_of b m)%nat.
Proof.
  intros Hm Hs. rewrite <- (owners_of_delete_owner m x s Hm Hs). lia.
Qed.

End owners.

Section counted.
Variables (b : addr) (h : nat).

Lemma owns_only_insert m x s :
  owns_only b m → s_block_ s = b ∨ s_block_ s = nullptr →
  owns_only b (<[x := s]> m).
Proof.
  intros Hm Hs y sy Hy. apply lookup_insert_Some in Hy as [[_ <-]|[_ Hy]].
  - assumption.
  - eapply Hm. eassumption.
Qed.

Lemma owns_only_delete m x : owns_only b m → owns_only b (delete x m).
Proof.
  intros Hm y sy Hy. apply lookup_delete_Some in Hy as [_ Hy]. eapply Hm. eassumption.
Qed.

Lemma counted_weaken n σ : counted b h (S n) σ → counted b h n σ.
Proof.
  intros (Hc & Hpos & Hzero). split; [assumption|]. split; [|assumption].
  intros Hlive. destruct (Hpos Hlive) as (cb & ? & ? & ? & ? & ?).
  exists cb. repeat split; try assumption. lia.
Qed.

(** The block of an owner is allocated and counts the owners. *)
Lemma counted_owner n σ x s :
  counted b h n σ → shared σ !! x = Some s → s_block_ s = b →
  ∃ cb, blocks σ !! b = Some cb ∧
    strong_ cb = Z.of_nat (live_owners b σ) ∧ (0 < live_owners b σ)%nat ∧
    0 <= weak_ cb ∧ strong_ cb + weak_ cb + Z.of_nat n <= SizeT.max ∧
    hook_calls b (trace σ) = h.
Proof.
  intros (_ & Hpos & _) Hx Hs.
  assert (Hlive : (0 < live_owners b σ)%nat) by (eapply owners_of_pos; eassumption).
  destruct (Hpos Hlive) as (cb & ? & ? & ? & ? & ?).
  exists cb. repeat split; assumption.
Qed.

(** An object that held nothing (or a new object) becomes an owner. *)
Lemma counted_gain n σ x p cb :
  counted b h (S n) σ →
  (∀ s, shared σ !! x = Some s → s_block_ s ≠ b) →
  blocks σ !! b = Some cb → (0 < live_owners b σ)%nat →
  counted b h n
    (mkState (<[b := mkBlock (SizeT.incr (strong_ cb)) (weak_ cb) (derived cb)]> (blocks σ))
       (<[x := mkShared b p]> (shared σ)) (weak σ) (trace σ ++ [EvAddStrong b])).
Proof.
  intros (Hc & Hpos & Hzero) Hx Hcb Hlive.
  destruct (Hpos Hlive) as (cb' & Hcb' & Hs & Hw & Hmax & Hh).
  assert (cb' = cb) by congruence. subst cb'.
  assert (Hown : live_owners b
            (mkState (<[b := mkBlock (SizeT.incr (strong_ cb)) (weak_ cb) (derived cb)]> (blocks σ))
               (<[x := mkShared b p]> (shared σ)) (weak σ) (trace σ ++ [EvAddStrong b]))
          = S (live_owners b σ)).
  { unfold live_owners. simpl. rewrite owners_of_insert_other by assumption.
    rewrite decide_True by reflexivity. reflexivity. }
  split; [|split].
  - simpl. apply owns_only_insert; [assumption | left; reflexivity].
  - intros _. eexists. split; [simpl; apply lookup_insert_eq|]. simpl.
    rewrite Hown. rewrite incr_small by lia.
    repeat split; try lia.
    rewrite hook_calls_app, Hh, hook_calls_cons_neq by discriminate.
    unfold hook_calls. simpl. lia.
  - rewrite Hown. discriminate.
Qed.

(** The store changes, the owners do not. *)
Lemma counted_idle n σ m' :
  counted b h n σ → owns_only b m' → owners_of b m' = live_owners b σ →
  counted b h n (mkState (blocks σ) m' (weak σ) (trace σ)).
Proof.
  intros (Hc & Hpos & Hzero) Hc' Hown. unfold counted, live_owners in *. simpl.
  rewrite Hown. repeat split; assumption.
Qed.

(** An owner releases its reference. *)
Lemma counted_lose n σ cb m' :
  counted b h n σ → blocks σ !! b = Some cb →
  owns_only b m' → S (owners_of b m') = live_owners b σ →
  counted b h n
    (mkState (update_block b (release_strong cb) (blocks σ)) m' (weak σ)
       (trace σ ++ release_strong_events b cb)).
Proof.
  intros (Hc & Hpos & Hzero) Hcb Hc' Hown.
  assert (Hlive : (0 < live_owners b σ)%nat) by lia.
  destruct (Hpos Hlive) as (cb' & Hcb' & Hs & Hw & Hmax & Hh).
  assert (cb' = cb) by congruence. subst cb'.
  unfold counted, live_owners in *. simpl.
  split; [assumption|].
  destruct (owners_of b m') as [|k] eqn:Hk.
  - (* the last owner *)
    assert (Hone : strong_ cb = 1) by lia.
    destruct (release_strong_one b cb Hone) as [_ He]; [lia|].
    split; [intros; lia|]. intros _.
    rewrite He, hook_calls_app, Hh.
    rewrite hook_calls_cons_neq by discriminate.
    rewrite hook_calls_app, hook_calls_on_zero.
    destruct (weak_ cb =? 0); unfold hook_calls; simpl; lia.
  - destruct (release_strong_many b cb) as [Hr He]; [lia | lia | lia |].
    split; [|discriminate]. intros _.
    rewrite Hr, He. eexists. split; [simpl; apply lookup_insert_eq|]. simpl.
    repeat split; try lia.
    rewrite hook_calls_app, Hh, hook_calls_cons_neq by discriminate.
    unfold hook_calls. simpl. lia.
Qed.

End counted.

Lemma SharedPtr_ctor_copy_null σ this other o :
  shared σ !! other = Some o → shared σ !! this = None →
  s_block_ o = nullptr →
  SharedPtr_ctor_copy this other σ =
  Ok () (mkState (blocks σ) (<[this := o]> (shared σ)) (weak σ) (trace σ)).
Proof.
  intros Ho Hthis Hb.
  unfold SharedPtr_ctor_copy, SharedPtr_Get, SharedPtr_GetControlBlock, is_null.
  mrun. destruct o as [ob op]. simpl in *. subst ob. reflexivity.
Qed.

Lemma SharedPtr_ctor_move_steps σ this other :
  SharedPtr_ctor_move this other σ =
  (SharedPtr_ctor_copy this other;; SharedPtr_Reset other) σ.
Proof.
  unfold SharedPtr_ctor_move, SharedPtr_ctor_copy, SharedPtr_Get,
    SharedPtr_GetControlBlock.
  munfold. destruct (shared σ !! other) as [o|] eqn:Ho; simpl; [|reflexivity].
  rewrite ?Ho. simpl.
  destruct (shared σ !! this); reflexivity.
Qed.

Lemma SharedPtr_dtor_null σ this s :
  shared σ !! this = Some s → s_block_ s = nullptr →
  SharedPtr_dtor this σ =
  Ok () (mkState (blocks σ) (delete this (shared σ)) (weak σ) (trace σ)).
Proof.
  intros H Hb. unfold SharedPtr_dtor.
  erewrite bind_Ok by (eapply SharedPtr_Reset_null; eassumption).
  mrun. reflexivity.
Qed.

Lemma SharedPtr_assign_copy_nulls σ this other s o :
  shared σ !! this = Some s → shared σ !! other = Some o →
  s_block_ s = nullptr → s_block_ o = nullptr →
  SharedPtr_assign_copy this other σ = Ok () σ.
Proof.
  intros Hs Ho Hsb Hob.
  unfold SharedPtr_assign_copy, SharedPtr_Get, SharedPtr_GetControlBlock,
    SharedPtr_Reset_ptr_block, is_null.
  destruct (bool_decide (this = other)); mrun; reflexivity.
Qed.

Lemma SharedPtr_assign_move_nulls σ this other s o :
  shared σ !! this = Some s → shared σ !! other = Some o →
  s_block_ s = nullptr → s_block_ o = nullptr →
  SharedPtr_assign_move this other σ = Ok () σ.
Proof.
  intros Hs Ho Hsb Hob.
  unfold SharedPtr_assign_move, SharedPtr_Reset_ptr_block, SharedPtr_Reset, is_null.
  destruct (bool_decide (this = other)); mrun; reflexivity.
Qed.

Section steps.
Variables (b : addr) (h n : nat).
Hypothesis Hb : b ≠ nullptr.

Lemma not_owner_of_fresh σ x :
  shared σ !! x = None → ∀ s, shared σ !! x = Some s → s_block_ s ≠ b.
Proof. intros Hx s Hs. congruence. Qed.

Lemma not_owner_of_null σ x s0 :
  shared σ !! x = Some s0 → s_block_ s0 = nullptr →
  ∀ s, shared σ !! x = Some s → s_block_ s ≠ b.
Proof. intros Hx Hn s Hs. congruence. Qed.

(** [x.Reset()] *)
Lemma step_Reset σ x s :
  counted b h n σ → shared σ !! x = Some s →
  ∃ σ', SharedPtr_Reset x σ = Ok () σ' ∧ counted b h n σ' ∧
    shared σ' = (if decide (s_block_ s = b) then <[x := null_shared]> (shared σ)
                 else shared σ).
Proof.
  intros Hcnt Hx. pose proof Hcnt as (Hc & _).
  destruct (Hc x s Hx) as [Hs|Hs].
  - destruct (counted_owner b h n σ x s Hcnt Hx Hs) as (cb & Hcb & _).
    rewrite <- Hs in Hcb, Hb.
    eexists. split; [eapply SharedPtr_Reset_live; eassumption|].
    rewrite Hs in *. rewrite decide_True by reflexivity. split; [|reflexivity].
    apply counted_lose; try assumption.
    + apply owns_only_insert; [assumption | right; reflexivity].
    + eapply owners_of_insert_owner; [eassumption | assumption |].
      simpl. congruence.
  - exists σ. split; [eapply SharedPtr_Reset_null; eassumption|].
    rewrite decide_False by congruence. split; [assumption | reflexivity].
Qed.

(** [x] goes out of scope *)
Lemma step_Destroy σ x s :
  counted b h n σ → shared σ !! x = Some s →
  ∃ σ', SharedPtr_dtor x σ = Ok () σ' ∧ counted b h n σ'.
Proof.
  intros Hcnt Hx. pose proof Hcnt as (Hc & _).
  destruct (Hc x s Hx) as [Hs|Hs].
  - destruct (counted_owner b h n σ x s Hcnt Hx Hs) as (cb & Hcb & _).
    rewrite <- Hs in Hcb, Hb.
    eexists. split; [eapply SharedPtr_dtor_live; eassumption|].
    rewrite Hs in *. apply counted_lose; try assumption.
    + apply owns_only_delete. assumption.
    + eapply owners_of_delete_owner; eassumption.
  - eexists. split; [eapply SharedPtr_dtor_null; eassumption|].
    apply counted_idle; try assumption.
    + apply owns_only_delete. assumption.
    + apply owners_of_delete_other. eapply not_owner_of_null; eassumption.
Qed.

(** [SharedPtr x(y);] *)
Lemma step_CopyCons σ x y sy :
  counted b h (S n) σ → shared σ !! x = None → shared σ !! y = Some sy →
  ∃ σ', SharedPtr_ctor_copy x y σ = Ok () σ' ∧ counted b h n σ' ∧
    shared σ' = <[x := sy]> (shared σ).
Proof.
  intros Hcnt Hx Hy. pose proof Hcnt as (Hc & _).
  destruct (Hc y sy Hy) as [Hs|Hs].
  - destruct (counted_owner b h (S n) σ y sy Hcnt Hy Hs) as (cb & Hcb & _ & Hlive & _).
    rewrite <- Hs in Hcb, Hb.
    eexists. split; [eapply SharedPtr_ctor_copy_live; eassumption|].
    rewrite Hs in *. split; [|reflexivity].
    destruct sy as [yb yp]. simpl in Hs. subst yb.
    apply counted_gain; try assumption.
    apply not_owner_of_fresh. assumption.
  - eexists. split; [eapply SharedPtr_ctor_copy_null; eassumption|].
    split; [|reflexivity].
    apply counted_weaken. apply counted_idle; try assumption.
    + apply owns_only_insert; [assumption | right; assumption].
    + rewrite owners_of_insert_other by (apply not_owner_of_fresh; assumption).
      rewrite decide_False by congruence. reflexivity.
Qed.

(** [SharedPtr x(std::move(y));] *)
Lemma step_MoveCons σ x y sy :
  counted b h (S n) σ → shared σ !! x = None → shared σ !! y = Some sy →
  ∃ σ', SharedPtr_ctor_move x y σ = Ok () σ' ∧ counted b h n σ'.
Proof.
  intros Hcnt Hx Hy.
  destruct (step_CopyCons σ x y sy Hcnt Hx Hy) as (σ1 & Hcopy & Hcnt1 & Hsh1).
  assert (Hy1 : shared σ1 !! y = Some sy).
  { rewrite Hsh1. rewrite lookup_insert_ne by congruence. assumption. }
  destruct (step_Reset σ1 y sy Hcnt1 Hy1) as (σ2 & Hreset & Hcnt2 & _).
  exists σ2. split; [|assumption].
  rewrite SharedPtr_ctor_move_steps. erewrite bind_Ok by exact Hcopy. exact Hreset.
Qed.

End steps.

Lemma put_shared_ok σ x s v :
  shared σ !! x = Some s →
  put_shared x v σ =
  Ok () (mkState (blocks σ) (<[x := v]> (shared σ)) (weak σ) (trace σ)).
Proof. intros H. mrun. reflexivity. Qed.

Lemma SharedPtr_assign_move_as_copy σ this other :
  this ≠ other →
  SharedPtr_assign_move this other σ =
  (SharedPtr_assign_copy this other;; SharedPtr_Reset other) σ.
Proof.
  intros Hne.
  unfold SharedPtr_assign_move, SharedPtr_assign_copy, SharedPtr_Get,
    SharedPtr_GetControlBlock.
  munfold. rewrite bool_decide_eq_false_2 by assumption.
  destruct (shared σ !! other) as [o|] eqn:Ho; simpl; [|reflexivity].
  rewrite ?Ho. simpl.
  destruct (SharedPtr_Reset_ptr_block this (s_ptr_ o) (s_block_ o) σ) as [[] σ1| |];
    [|reflexivity|reflexivity].
  destruct (shared σ1 !! this) as [s|]; [|reflexivity].
  destruct (negb (is_null (s_block_ s))); reflexivity.
Qed.

Section assignments.
Variables (b : addr) (h n : nat).
Hypothesis Hb : b ≠ nullptr.

(** [x = y;] *)
Lemma step_CopyAssign σ x y sx sy :
  counted b h (S n) σ →
  shared σ !! x = Some sx → shared σ !! y = Some sy →
  ¬ (x ≠ y ∧ holds σ x b ∧ holds σ y b) →
  ∃ σ', SharedPtr_assign_copy x y σ = Ok () σ' ∧ counted b h n σ' ∧
    (x ≠ y → shared σ' !! y = Some sy).
Proof.
  intros Hcnt Hx Hy Hbenign. pose proof Hcnt as (Hc & _).
  destruct (decide (x = y)) as [->|Hne].
  { exists σ. split; [apply SharedPtr_assign_copy_self|].
    split; [apply counted_weaken; assumption | congruence]. }
  destruct (Hc x sx Hx) as [Hsx|Hsx], (Hc y sy Hy) as [Hsy|Hsy].
  - exfalso. apply Hbenign.
    split; [assumption|]. split; [exists sx | exists sy]; split; assumption.
  - (* an owner is assigned an empty pointer *)
    rewrite (SharedPtr_assign_copy_steps σ x y sx sy) by congruence.
    destruct (step_Reset b h (S n) Hb σ x sx Hcnt Hx) as (σ1 & Hreset & Hcnt1 & Hsh1).
    rewrite decide_True in Hsh1 by assumption.
    erewrite bind_Ok by exact Hreset.
    assert (Hx1 : shared σ1 !! x = Some null_shared).
    { rewrite Hsh1. apply lookup_insert_eq. }
    erewrite bind_Ok by (eapply put_shared_ok; exact Hx1).
    rewrite Hsy. simpl.
    eexists. split; [reflexivity|]. split.
    + apply counted_weaken. apply counted_idle; try assumption.
      * apply owns_only_insert; [apply Hcnt1 | right; reflexivity].
      * rewrite owners_of_insert_other.
        -- rewrite decide_False by (simpl; congruence). reflexivity.
        -- intros s Hs. pose proof (eq_trans (eq_sym Hs) Hx1) as E.
           injection E as ->. simpl. congruence.
    + intros _. simpl. rewrite lookup_insert_ne by assumption.
      rewrite Hsh1. rewrite lookup_insert_ne by assumption. assumption.
  - (* an empty pointer is assigned an owner *)
    rewrite (SharedPtr_assign_copy_steps σ x y sx sy) by congruence.
    erewrite bind_Ok by (eapply SharedPtr_Reset_null; eassumption).
    erewrite bind_Ok by (eapply put_shared_ok; exact Hx).
    destruct (counted_owner b h (S n) σ y sy Hcnt Hy Hsy) as (cb & Hcb & _ & Hlive & _).
    destruct sy as [yb yp]. simpl in Hsy. subst yb. simpl.
    unfold is_null. rewrite bool_decide_eq_false_2 by assumption. simpl.
    eexists. split; [apply AddStrong_ok; simpl; exact Hcb|]. simpl. split.
    + apply counted_gain; try assumption.
      eapply not_owner_of_null; eassumption.
    + intros _. rewrite lookup_insert_ne by assumption. assumption.
  - exists σ. split; [eapply SharedPtr_assign_copy_nulls; eassumption|].
    split; [apply counted_weaken; assumption | intros; assumption].
Qed.

(** [x = std::move(y);] *)
Lemma step_MoveAssign σ x y sx sy :
  counted b h (S n) σ →
  shared σ !! x = Some sx → shared σ !! y = Some sy →
  ¬ (x ≠ y ∧ holds σ x b ∧ holds σ y b) →
  ∃ σ', SharedPtr_assign_move x y σ = Ok () σ' ∧ counted b h n σ'.
Proof.
  intros Hcnt Hx Hy Hbenign.
  destruct (decide (x = y)) as [->|Hne].
  { exists σ. split; [apply SharedPtr_assign_move_self|].
    apply counted_weaken; assumption. }
  destruct (step_CopyAssign σ x y sx sy Hcnt Hx Hy Hbenign) as (σ1 & Hcopy & Hcnt1 & Hy1).
  destruct (step_Reset b h n Hb σ1 y sy Hcnt1 (Hy1 Hne)) as (σ2 & Hreset & Hcnt2 & _).
  exists σ2. split; [|assumption].
  rewrite SharedPtr_assign_move_as_copy by assumption.
  erewrite bind_Ok by exact Hcopy. exact Hreset.
Qed.

End assignments.

(** One operation that is not an assignment between two distinct owners keeps
    the count right. *)
Lemma run_op_counted b h n σ o :
  b ≠ nullptr → counted b h (S n) σ →
  well_scoped o σ → ¬ assigns_within b o σ →
  ∃ σ', run_op o σ = Ok () σ' ∧ counted b h n σ'.
Proof.
  intros Hb Hcnt Hscope Hbenign. destruct o as [x y|x y|x y|x y|x|x]; simpl in *.
  - destruct Hscope as [Hx [sy Hy]].
    destruct (step_CopyCons b h n Hb σ x y sy Hcnt Hx Hy) as (σ' & ? & ? & _). eauto.
  - destruct Hscope as [Hx [sy Hy]].
    destruct (step_MoveCons b h n Hb σ x y sy Hcnt Hx Hy) as (σ' & ? & ?). eauto.
  - destruct Hscope as [[sx Hx] [sy Hy]].
    destruct (step_CopyAssign b h n Hb σ x y sx sy Hcnt Hx Hy Hbenign) as (σ' & ? & ? & _).
    eauto.
  - destruct Hscope as [[sx Hx] [sy Hy]].
    destruct (step_MoveAssign b h n Hb σ x y sx sy Hcnt Hx Hy Hbenign) as (σ' & ? & ?).
    eauto.
  - destruct Hscope as [sx Hx]. apply counted_weaken in Hcnt.
    destruct (step_Reset b h n Hb σ x sx Hcnt Hx) as (σ' & ? & ? & _). eauto.
  - destruct Hscope as [sx Hx]. apply counted_weaken in Hcnt.
    destruct (step_Destroy b h n Hb σ x sx Hcnt Hx) as (σ' & ? & ?). eauto.
Qed.

Lemma counted_UseCount b h n σ x :
  b ≠ nullptr → counted b h n σ → holds σ x b →
  SharedPtr_UseCount x σ = Ok (Z.of_nat (live_owners b σ)) σ.
Proof.
  intros Hb Hcnt (s & Hx & Hs).
  destruct (counted_owner b h n σ x s Hcnt Hx Hs) as (cb & Hcb & Hstrong & _).
  rewrite <- Hstrong. rewrite <- Hs in Hcb, Hb.
  eapply SharedPtr_UseCount_live; eassumption.
Qed.

Lemma counted_zero_iff b h n σ :
  counted b h n σ →
  (live_owners b σ = 0%nat ↔ hook_calls b (trace σ) = S h).
Proof.
  intros (_ & Hpos & Hzero). split; [exact Hzero|].
  intros Hh. destruct (live_owners b σ) as [|k] eqn:Hk; [reflexivity|].
  destruct Hpos as (cb & _ & _ & _ & _ & Hh'); lia.
Qed.

(** Along every program of copy and move constructions, assignments,
    [Reset()] calls and destructions over the owners of one block, none of
    which assigns between two distinct owners of the block: every operation
    succeeds, at every point [UseCount()] of an owner is the number of live
    owners, and the block has no owner left exactly when its hook has run. *)
Theorem strong_count_counts_owners b h ops1 :
  b ≠ nullptr →
  ∀ ops2 σ,
    counted b h (length (ops1 ++ ops2)) σ → admissible b (ops1 ++ ops2) σ →
    ∃ σ', run_all run_op ops1 σ = Ok () σ' ∧
      counted b h (length ops2) σ' ∧ admissible b ops2 σ' ∧
      (∀ x, holds σ' x b →
         SharedPtr_UseCount x σ' = Ok (Z.of_nat (live_owners b σ')) σ') ∧
      (live_owners b σ' = 0%nat ↔ hook_calls b (trace σ') = S h).
Proof.
  intros Hb. induction ops1 as [|o ops1 IH]; intros ops2 σ Hcnt Hadm.
  - exists σ. simpl in *.
    split; [reflexivity|]. split; [assumption|]. split; [assumption|]. split.
    + intros x Hx. eapply counted_UseCount; eassumption.
    + apply (counted_zero_iff b h _ σ Hcnt).
  - simpl in Hcnt, Hadm. destruct Hadm as (Hscope & Hbenign & Hrest).
    destruct (run_op_counted b h _ σ o Hb Hcnt Hscope Hbenign) as (σ1 & Hrun & Hcnt1).
    destruct (IH ops2 σ1 Hcnt1 (Hrest σ1 Hrun)) as (σ' & Hrun' & Hfinal).
    exists σ'. split; [|exact Hfinal].
    simpl run_all. erewrite bind_Ok by exact Hrun. exact Hrun'.
Qed.

(** The invariant holds after [SharedPtr a(p); SharedPtr b(a);], with room
    for four more operations. *)
Lemma counted_two_owners : counted 100%N 0 4 σ_two_owners.
Proof.
  split; [|split].
  - unfold owns_only. apply (bool_decide_unpack (map_Forall _ _)). reflexivity.
  - intros _. eexists. split; [reflexivity|].
    repeat split; try reflexivity; vm_compute; discriminate.
  - discriminate.
Qed.

(** The theorem applied: [SharedPtr c(a); c = std::move(c); a.Reset();] and
    the destruction of [b] leave [c] as the only owner. *)
Lemma strong_count_counts_owners_example :
  ∃ σ', run_all run_op [CopyCons 3%N 1%N; MoveAssign 3%N 3%N; ResetOp 1%N; Destroy 2%N]
          σ_two_owners = Ok () σ' ∧
    SharedPtr_UseCount 3%N σ' = Ok 1 σ'.
Proof.
  destruct (strong_count_counts_owners 100%N 0
              [CopyCons 3%N 1%N; MoveAssign 3%N 3%N; ResetOp 1%N; Destroy 2%N]
              ltac:(discriminate) [] σ_two_owners counted_two_owners)
    as (σ' & Hrun & _ & _ & Hcount & _).
  { simpl app.
    repeat match goal with
           | |- admissible _ [] _ => exact I
           | |- admissible _ (_ :: _) _ =>
               split; [|split; [|let H := fresh in
                                 intros ? H; vm_compute in H; injection H as <-]]
           end.
    all: simpl.
    all: try (intros [Hne _]; apply Hne; reflexivity).
    all: try (intros []).
    all: try (split; [reflexivity || (eexists; reflexivity) | eexists; reflexivity]).
    all: eexists; reflexivity. }
  exists σ'. split; [exact Hrun|].
  assert (Hσ : σ' = exec (run_all run_op [CopyCons 3%N 1%N; MoveAssign 3%N 3%N; ResetOp 1%N; Destroy 2%N]) σ_two_owners).
  { unfold exec. rewrite Hrun. reflexivity. }
  rewrite (Hcount 3%N).
  - subst σ'. reflexivity.
  - subst σ'. eexists. split; reflexivity.
Qed.

(** * Further properties of SharedPtr *)

(** Bounds on concrete counts *)
Ltac size_arith := simpl; unfold SizeT.max, SizeT.modulus; lia.

Lemma block_eta cb : mkBlock (strong_ cb) (weak_ cb) (derived cb) = cb.
Proof. destruct cb; reflexivity. Qed.

(** Adding a strong reference to a block with owners and releasing one
    again gives the block back. *)
Lemma release_after_add b cb :
  0 < strong_ cb < SizeT.max → 0 <= weak_ cb →
  strong_ cb + weak_ cb <= SizeT.max →
  release_strong (mkBlock (SizeT.incr (strong_ cb)) (weak_ cb) (derived cb)) = Some cb ∧
  release_strong_events b (mkBlock (SizeT.incr (strong_ cb)) (weak_ cb) (derived cb))
    = [EvRemoveStrong b].
Proof.
  intros Hs Hw Hsum. unfold release_strong, release_strong_events. simpl.
  rewrite decr_incr by (unfold SizeT.in_range, SizeT.max in *; lia).
  rewrite add_small by lia.
  assert (H1 : (strong_ cb + weak_ cb =? 0) = false) by (apply Z.eqb_neq; lia).
  assert (H2 : (strong_ cb =? 0) = false) by (apply Z.eqb_neq; lia).
  rewrite H1, H2, block_eta. split; reflexivity.
Qed.

(** X1: Move construction transfers the reference: the new object holds the
    address and the block of the source, the source is null, and the block is
    as before; the count went up and down again, the hook did not run. *)
Theorem SharedPtr_ctor_move_transfers σ this other o cb :
  shared σ !! other = Some o → shared σ !! this = None →
  s_block_ o ≠ nullptr → blocks σ !! s_block_ o = Some cb →
  0 < strong_ cb < SizeT.max → 0 <= weak_ cb →
  strong_ cb + weak_ cb <= SizeT.max →
  SharedPtr_ctor_move this other σ =
  Ok () (mkState (blocks σ)
           (<[other := null_shared]> (<[this := o]> (shared σ))) (weak σ)
           (trace σ ++ [EvAddStrong (s_block_ o); EvRemoveStrong (s_block_ o)])).
Proof.
  intros Ho Hthis Hb Hcb Hs Hw Hsum.
  assert (Hne : this ≠ other) by congruence.
  destruct (release_after_add (s_block_ o) cb Hs Hw Hsum) as [Hr He].
  rewrite SharedPtr_ctor_move_steps.
  erewrite bind_Ok by (eapply SharedPtr_ctor_copy_live; eassumption).
  erewrite SharedPtr_Reset_live.
  2:{ simpl. rewrite lookup_insert_ne by assumption. eassumption. }
  2:{ assumption. }
  2:{ simpl. apply lookup_insert_eq. }
  simpl. rewrite Hr, He. simpl.
  rewrite insert_insert_eq, (insert_id _ _ _ Hcb), <- app_assoc. reflexivity.
Qed.

Lemma SharedPtr_ctor_move_transfers_witness :
  shared σ_two_owners !! 1%N = Some (mkShared 100%N 7%N) ∧
  shared σ_two_owners !! 3%N = None ∧
  ∃ σ', SharedPtr_ctor_move 3%N 1%N σ_two_owners = Ok () σ' ∧
    SharedPtr_UseCount 3%N σ' = Ok 2 σ' ∧
    shared σ' !! 1%N = Some null_shared.
Proof.
  split; [reflexivity|]. split; [reflexivity|].
  eexists. split.
  - apply (SharedPtr_ctor_move_transfers σ_two_owners 3%N 1%N (mkShared 100%N 7%N)
             (mkBlock 2 0 (ControlBlockPointer 7%N)));
      first [reflexivity | discriminate | size_arith].
  - split; reflexivity.
Defined.

(** X2: A copy that is destroyed again leaves heap and store as they were. *)
Theorem SharedPtr_copy_then_destroy σ this other o cb :
  shared σ !! other = Some o → shared σ !! this = None →
  s_block_ o ≠ nullptr → blocks σ !! s_block_ o = Some cb →
  0 < strong_ cb < SizeT.max → 0 <= weak_ cb →
  strong_ cb + weak_ cb <= SizeT.max →
  (SharedPtr_ctor_copy this other;; SharedPtr_dtor this) σ =
  Ok () (mkState (blocks σ) (shared σ) (weak σ)
           (trace σ ++ [EvAddStrong (s_block_ o); EvRemoveStrong (s_block_ o)])).
Proof.
  intros Ho Hthis Hb Hcb Hs Hw Hsum.
  destruct (release_after_add (s_block_ o) cb Hs Hw Hsum) as [Hr He].
  erewrite bind_Ok by (eapply SharedPtr_ctor_copy_live; eassumption).
  erewrite SharedPtr_dtor_live.
  2:{ simpl. apply lookup_insert_eq. }
  2:{ assumption. }
  2:{ simpl. apply lookup_insert_eq. }
  simpl. rewrite Hr, He. simpl.
  rewrite insert_insert_eq, (insert_id _ _ _ Hcb), <- app_assoc.
  rewrite delete_insert_id by assumption. reflexivity.
Qed.

Lemma SharedPtr_copy_then_destroy_witness :
  shared σ_two_owners !! 1%N = Some (mkShared 100%N 7%N) ∧
  shared σ_two_owners !! 3%N = None ∧
  ∃ σ', (SharedPtr_ctor_copy 3%N 1%N;; SharedPtr_dtor 3%N) σ_two_owners = Ok () σ' ∧
    blocks σ' = blocks σ_two_owners ∧ shared σ' = shared σ_two_owners.
Proof.
  split; [reflexivity|]. split; [reflexivity|].
  eexists. split.
  - apply (SharedPtr_copy_then_destroy σ_two_owners 3%N 1%N (mkShared 100%N 7%N)
             (mkBlock 2 0 (ControlBlockPointer 7%N)));
      first [reflexivity | discriminate | size_arith].
  - split; reflexivity.
Defined.

(** A lookup in a map built by inserts, or a side condition *)
Ltac lookup_solve :=
  repeat first [ rewrite lookup_insert_eq
               | rewrite lookup_insert_ne by congruence
               | rewrite lookup_delete_ne by congruence ];
  first [eassumption | reflexivity | congruence].

(** Both sides of an equation between lookups, normalised *)
Ltac lookup_norm :=
  repeat first [ rewrite lookup_insert_eq
               | rewrite lookup_delete_eq
               | rewrite lookup_insert_ne by congruence
               | rewrite lookup_delete_ne by congruence ];
  first [reflexivity | assumption | symmetry; assumption | congruence].

(** Copy assignment to an owner whose block has just gained a reference,
    from an owner of another block *)
Lemma SharedPtr_assign_copy_after_add σ this other s o cb0 cbo :
  this ≠ other → shared σ !! this = Some s → shared σ !! other = Some o →
  s_block_ s ≠ nullptr → s_block_ o ≠ nullptr → s_block_ s ≠ s_block_ o →
  blocks σ !! s_block_ s =
    Some (mkBlock (SizeT.incr (strong_ cb0)) (weak_ cb0) (derived cb0)) →
  0 < strong_ cb0 < SizeT.max → 0 <= weak_ cb0 →
  strong_ cb0 + weak_ cb0 <= SizeT.max →
  blocks σ !! s_block_ o = Some cbo →
  SharedPtr_assign_copy this other σ =
  Ok () (mkState
           (<[s_block_ o := mkBlock (SizeT.incr (strong_ cbo)) (weak_ cbo) (derived cbo)]>
              (<[s_block_ s := cb0]> (blocks σ)))
           (<[this := o]> (shared σ)) (weak σ)
           (trace σ ++ [EvRemoveStrong (s_block_ s); EvAddStrong (s_block_ o)])).
Proof.
  intros Hne Hs Ho Hsn Hon Hb Hcbs Hr1 Hr2 Hr3 Hcbo.
  destruct (release_after_add (s_block_ s) cb0 Hr1 Hr2 Hr3) as [Hr He].
  rewrite (SharedPtr_assign_copy_steps σ this other s o) by assumption.
  erewrite bind_Ok by (eapply SharedPtr_Reset_live; eassumption).
  rewrite Hr, He. simpl.
  erewrite bind_Ok by (eapply put_shared_ok; simpl; apply lookup_insert_eq).
  unfold is_null. rewrite bool_decide_eq_false_2 by assumption. simpl.
  erewrite AddStrong_ok by (simpl; rewrite lookup_insert_ne by assumption; eassumption).
  simpl. rewrite insert_insert_eq, <- app_assoc. destruct o. reflexivity.
Qed.

(** Copy assignment between two distinct owners of one block: the guard of
    [Reset(ptr, block)] returns, the count is incremented all the same, and
    the destination keeps its own address. *)
Lemma SharedPtr_assign_copy_same_block σ this other s o cb :
  this ≠ other → shared σ !! this = Some s → shared σ !! other = Some o →
  s_block_ s = s_block_ o → s_block_ s ≠ nullptr →
  blocks σ !! s_block_ s = Some cb →
  SharedPtr_assign_copy this other σ =
  Ok () (mkState
           (<[s_block_ s := mkBlock (SizeT.incr (strong_ cb)) (weak_ cb) (derived cb)]>
              (blocks σ))
           (shared σ) (weak σ) (trace σ ++ [EvAddStrong (s_block_ s)])).
Proof.
  intros Hne Hs Ho Hb Hn Hcb.
  unfold SharedPtr_assign_copy, SharedPtr_Get, SharedPtr_GetControlBlock,
    SharedPtr_Reset_ptr_block, ControlBlockBase.AddStrong, is_null.
  mrun. reflexivity.
Qed.

(** X3: [Swap] between owners of two different blocks exchanges addresses and
    blocks and leaves both blocks as they were. *)
Theorem SharedPtr_Swap_exchanges σ tmp this other s o cbs cbo :
  shared σ !! tmp = None → this ≠ other →
  shared σ !! this = Some s → shared σ !! other = Some o →
  s_block_ s ≠ nullptr → s_block_ o ≠ nullptr → s_block_ s ≠ s_block_ o →
  blocks σ !! s_block_ s = Some cbs → blocks σ !! s_block_ o = Some cbo →
  0 < strong_ cbs < SizeT.max → 0 <= weak_ cbs →
  strong_ cbs + weak_ cbs <= SizeT.max →
  0 < strong_ cbo < SizeT.max → 0 <= weak_ cbo →
  strong_ cbo + weak_ cbo <= SizeT.max →
  SharedPtr_Swap tmp this other σ =
  Ok () (mkState (blocks σ)
           (<[other := s]> (<[this := o]> (shared σ))) (weak σ)
           (trace σ ++ [EvAddStrong (s_block_ s); EvRemoveStrong (s_block_ s);
                        EvAddStrong (s_block_ o); EvRemoveStrong (s_block_ o);
                        EvAddStrong (s_block_ s); EvRemoveStrong (s_block_ s)])).
Proof.
  intros Htmp Hne Hs Ho Hsn Hon Hb Hcbs Hcbo Hs1 Hs2 Hs3 Ho1 Ho2 Ho3.
  assert (Hts : tmp ≠ this) by congruence.
  assert (Hto : tmp ≠ other) by congruence.
  destruct (release_after_add (s_block_ s) cbs Hs1 Hs2 Hs3) as [Hr He].
  unfold SharedPtr_Swap.
  erewrite bind_Ok by (eapply SharedPtr_ctor_copy_live; eassumption).
  erewrite bind_Ok.
  2:{ eapply (SharedPtr_assign_copy_after_add _ this other s o cbs cbo); simpl;
        lookup_solve. }
  erewrite bind_Ok.
  2:{ eapply (SharedPtr_assign_copy_after_add _ other tmp o s cbo cbs); simpl;
        lookup_solve. }
  erewrite SharedPtr_dtor_live.
  2:{ simpl. rewrite lookup_insert_ne by congruence.
      rewrite lookup_insert_ne by congruence. apply lookup_insert_eq. }
  2:{ assumption. }
  2:{ simpl. apply lookup_insert_eq. }
  simpl. rewrite Hr, He. simpl. f_equal. f_equal.
  - apply map_eq. intros k.
    destruct (decide (k = s_block_ s)) as [->|?]; [lookup_norm|].
    destruct (decide (k = s_block_ o)) as [->|?]; lookup_norm.
  - apply map_eq. intros k.
    destruct (decide (k = tmp)) as [->|?]; [lookup_norm|].
    destruct (decide (k = other)) as [->|?]; [lookup_norm|].
    destruct (decide (k = this)) as [->|?]; lookup_norm.
  - trace_eq.
Qed.

Lemma SharedPtr_Swap_exchanges_witness :
  shared σ_two_objects !! 1%N = Some (mkShared 100%N 7%N) ∧
  shared σ_two_objects !! 2%N = Some (mkShared 200%N 8%N) ∧
  ∃ σ', SharedPtr_Swap 3%N 1%N 2%N σ_two_objects = Ok () σ' ∧
    shared σ' !! 1%N = Some (mkShared 200%N 8%N) ∧
    shared σ' !! 2%N = Some (mkShared 100%N 7%N) ∧
    blocks σ' = blocks σ_two_objects.
Proof.
  split; [reflexivity|]. split; [reflexivity|].
  eexists. split.
  - apply (SharedPtr_Swap_exchanges σ_two_objects 3%N 1%N 2%N
             (mkShared 100%N 7%N) (mkShared 200%N 8%N)
             (mkBlock 1 0 (ControlBlockPointer 7%N))
             (mkBlock 1 0 (ControlBlockPointer 8%N)));
      first [reflexivity | discriminate | size_arith].
  - repeat split; reflexivity.
Defined.

(** X4: [Swap] between two distinct owners of one block exchanges nothing, not
    even the addresses, and leaves the strong count two higher; [Swap] of an
    owner with itself leaves it one higher. *)
Theorem SharedPtr_Swap_within_block σ tmp this other s o cb :
  shared σ !! tmp = None → this ≠ other →
  shared σ !! this = Some s → shared σ !! other = Some o →
  s_block_ s = s_block_ o → s_block_ s ≠ nullptr →
  blocks σ !! s_block_ s = Some cb →
  0 < strong_ cb → 0 <= weak_ cb → strong_ cb + weak_ cb + 3 <= SizeT.max →
  SharedPtr_Swap tmp this other σ =
  Ok () (mkState
           (<[s_block_ s := mkBlock (strong_ cb + 2) (weak_ cb) (derived cb)]> (blocks σ))
           (shared σ) (weak σ)
           (trace σ ++ [EvAddStrong (s_block_ s); EvAddStrong (s_block_ s);
                        EvAddStrong (s_block_ s); EvRemoveStrong (s_block_ s)])) ∧
  SharedPtr_Swap tmp this this σ =
  Ok () (mkState
           (<[s_block_ s := mkBlock (strong_ cb + 1) (weak_ cb) (derived cb)]> (blocks σ))
           (shared σ) (weak σ)
           (trace σ ++ [EvAddStrong (s_block_ s); EvAddStrong (s_block_ s);
                        EvRemoveStrong (s_block_ s)])).
Proof.
  intros Htmp Hne Hs Ho Hb Hn Hcb Hpos Hw Hmax.
  assert (Hts : tmp ≠ this) by congruence.
  assert (Hto : tmp ≠ other) by congruence.
  assert (H1 : SizeT.incr (strong_ cb) = strong_ cb + 1) by (apply incr_small; lia).
  assert (H2 : SizeT.incr (strong_ cb + 1) = strong_ cb + 2).
  { rewrite incr_small by lia. lia. }
  assert (H3 : SizeT.incr (strong_ cb + 2) = strong_ cb + 3).
  { rewrite incr_small by lia. lia. }
  split.
  - unfold SharedPtr_Swap.
    erewrite bind_Ok by (eapply SharedPtr_ctor_copy_live; eassumption).
    rewrite H1.
    erewrite bind_Ok.
    2:{ eapply (SharedPtr_assign_copy_same_block _ this other s o); simpl; lookup_solve. }
    simpl. rewrite H2.
    erewrite bind_Ok.
    2:{ eapply (SharedPtr_assign_copy_same_block _ other tmp o s); simpl;
          rewrite <- ?Hb; lookup_solve. }
    simpl. rewrite <- Hb, H3.
    erewrite SharedPtr_dtor_live.
    2:{ simpl. apply lookup_insert_eq. }
    2:{ assumption. }
    2:{ simpl. apply lookup_insert_eq. }
    destruct (release_strong_many (s_block_ s)
                (mkBlock (strong_ cb + 3) (weak_ cb) (derived cb))) as [Hr He];
      [simpl; lia | simpl; lia | simpl; lia |].
    simpl in Hr. simpl. rewrite Hr, He. simpl.
    replace (strong_ cb + 3 - 1) with (strong_ cb + 2) by lia.
    rewrite !insert_insert_eq, delete_insert_id by assumption.
    f_equal. f_equal. trace_eq.
  - unfold SharedPtr_Swap.
    erewrite bind_Ok by (eapply SharedPtr_ctor_copy_live; eassumption).
    rewrite H1. erewrite bind_Ok by apply SharedPtr_assign_copy_self.
    erewrite bind_Ok.
    2:{ eapply (SharedPtr_assign_copy_same_block _ this tmp s s); simpl; lookup_solve. }
    simpl. rewrite H2.
    erewrite SharedPtr_dtor_live.
    2:{ simpl. apply lookup_insert_eq. }
    2:{ assumption. }
    2:{ simpl. apply lookup_insert_eq. }
    destruct (release_strong_many (s_block_ s)
                (mkBlock (strong_ cb + 2) (weak_ cb) (derived cb))) as [Hr He];
      [simpl; lia | simpl; lia | simpl; lia |].
    simpl in Hr. simpl. rewrite Hr, He. simpl.
    replace (strong_ cb + 2 - 1) with (strong_ cb + 1) by lia.
    rewrite !insert_insert_eq, delete_insert_id by assumption.
    f_equal. f_equal. trace_eq.
Qed.

Lemma SharedPtr_Swap_within_block_witness :
  shared σ_aliased !! 1%N = Some (mkShared 100%N 7%N) ∧
  shared σ_aliased !! 2%N = Some (mkShared 100%N 9%N) ∧
  ∃ σ', SharedPtr_Swap 3%N 1%N 2%N σ_aliased = Ok () σ' ∧
    SharedPtr_Get 1%N σ' = Ok 7%N σ' ∧
    SharedPtr_UseCount 1%N σ' = Ok 4 σ' ∧
    live_owners 100%N σ' = 2%nat.
Proof.
  split; [reflexivity|]. split; [reflexivity|].
  eexists. split.
  - apply (SharedPtr_Swap_within_block σ_aliased 3%N 1%N 2%N
             (mkShared 100%N 7%N) (mkShared 100%N 9%N)
             (mkBlock 2 0 (ControlBlockPointer 7%N)));
      first [reflexivity | discriminate | size_arith].
  - repeat split; reflexivity.
Defined.

Lemma SharedPtr_ctor_alias_live σ this other o ptr cb :
  shared σ !! other = Some o → shared σ !! this = None →
  s_block_ o ≠ nullptr → blocks σ !! s_block_ o = Some cb →
  SharedPtr_ctor_alias this other ptr σ =
  Ok () (mkState
           (<[s_block_ o := mkBlock (SizeT.incr (strong_ cb)) (weak_ cb) (derived cb)]> (blocks σ))
           (<[this := mkShared (s_block_ o) ptr]> (shared σ)) (weak σ)
           (trace σ ++ [EvAddStrong (s_block_ o)])).
Proof.
  intros Ho Hthis Hb Hcb.
  unfold SharedPtr_ctor_alias, SharedPtr_GetControlBlock,
    ControlBlockBase.AddStrong, is_null.
  mrun. reflexivity.
Qed.

Lemma deletions_cons_neq p e t :
  e ≠ EvDelete p → deletions p (e :: t) = deletions p t.
Proof. intros. apply count_occ_cons_neq. assumption. Qed.

Lemma deletions_nil p : deletions p [] = 0%nat.
Proof. reflexivity. Qed.

(** Two owners of one fresh referencing block, destroyed one after the
    other: the first destruction only decrements, the second deletes the
    address the block was created for, and nothing else, and frees the
    block. *)
Lemma destroy_two_owners σ b p y y' sy sy' :
  y ≠ y' → b ≠ nullptr →
  shared σ !! y = Some sy → shared σ !! y' = Some sy' →
  s_block_ sy = b → s_block_ sy' = b →
  blocks σ !! b = Some (mkBlock 2 0 (ControlBlockPointer p)) →
  ∃ σ2 σ3,
    SharedPtr_dtor y σ = Ok () σ2 ∧
    trace σ2 = trace σ ++ [EvRemoveStrong b] ∧
    SharedPtr_UseCount y' σ2 = Ok 1 σ2 ∧
    SharedPtr_dtor y' σ2 = Ok () σ3 ∧
    trace σ3 = trace σ ++ [EvRemoveStrong b; EvRemoveStrong b; EvOnZeroStrong b;
                           EvDelete p; EvFree b] ∧
    blocks σ3 !! b = None ∧
    shared σ3 = delete y' (delete y (shared σ)).
Proof.
  intros Hne Hb Hy Hy' Hsy Hsy' Hcb. subst b.
  destruct (release_strong_many (s_block_ sy) (mkBlock 2 0 (ControlBlockPointer p)))
    as [Hr He]; [simpl; lia | simpl; lia | size_arith |].
  destruct (release_strong_one (s_block_ sy) (mkBlock 1 0 (ControlBlockPointer p)))
    as [Hr1 He1]; [reflexivity | size_arith |].
  simpl in Hr, He, Hr1, He1. change (2 - 1) with 1 in Hr.
  pose proof (SharedPtr_dtor_live σ y sy _ Hy Hb Hcb) as Hd.
  rewrite Hr, He in Hd. simpl in Hd.
  match type of Hd with _ = Ok () ?τ => set (σ2 := τ) in * end.
  assert (Hy2 : shared σ2 !! y' = Some sy').
  { subst σ2. simpl. rewrite lookup_delete_ne by assumption. assumption. }
  assert (Hn2 : s_block_ sy' ≠ nullptr) by congruence.
  assert (Hb2 : blocks σ2 !! s_block_ sy' = Some (mkBlock 1 0 (ControlBlockPointer p))).
  { subst σ2. simpl. rewrite Hsy'. apply lookup_insert_eq. }
  pose proof (SharedPtr_dtor_live σ2 y' sy' _ Hy2 Hn2 Hb2) as Hd2.
  rewrite Hsy', Hr1, He1 in Hd2.
  exists σ2. eexists. split; [exact Hd|].
  split; [reflexivity|].
  split; [exact (SharedPtr_UseCount_live σ2 y' sy' _ Hy2 Hn2 Hb2)|].
  split; [exact Hd2|]. simpl.
  split; [trace_eq|]. split; [apply lookup_delete_eq | reflexivity].
Qed.

(** X5: The aliasing constructor: the new pointer dereferences to the given
    address, but shares the block of its source; whichever of the two is
    destroyed first, the object stays, and the destruction of the other one
    deletes the address the block was created for, once, and no other
    address. *)
Theorem alias_shares_liveness σ nb p q x0 x1 :
  nb ≠ nullptr → blocks σ !! nb = None →
  x0 ≠ x1 → shared σ !! x0 = None → shared σ !! x1 = None →
  ∃ σ1,
    (SharedPtr_ctor_ptr nb x0 p;; SharedPtr_ctor_alias x1 x0 q) σ = Ok () σ1 ∧
    SharedPtr_Get x0 σ1 = Ok p σ1 ∧ SharedPtr_Get x1 σ1 = Ok q σ1 ∧
    SharedPtr_UseCount x0 σ1 = Ok 2 σ1 ∧ SharedPtr_UseCount x1 σ1 = Ok 2 σ1 ∧
    ∀ y y', (y = x0 ∧ y' = x1) ∨ (y = x1 ∧ y' = x0) →
      ∃ σ2 σ3,
        SharedPtr_dtor y σ1 = Ok () σ2 ∧
        (∀ a, deletions a (trace σ2) = deletions a (trace σ)) ∧
        SharedPtr_UseCount y' σ2 = Ok 1 σ2 ∧
        SharedPtr_dtor y' σ2 = Ok () σ3 ∧
        deletions p (trace σ3) = S (deletions p (trace σ)) ∧
        (∀ a, a ≠ p → deletions a (trace σ3) = deletions a (trace σ)) ∧
        blocks σ3 !! nb = None.
Proof.
  intros Hnb Hfree Hne Hx0 Hx1.
  pose proof (SharedPtr_ctor_ptr_ok σ nb x0 p Hnb Hfree Hx0) as Hctor.
  match type of Hctor with
  | _ = Ok () ?σa =>
      pose proof (SharedPtr_ctor_alias_live σa x1 x0 (mkShared nb p) q
                    (mkBlock 1 0 (ControlBlockPointer p))) as Halias
  end.
  simpl in Halias. rewrite insert_insert_eq in Halias.
  change (SizeT.incr 1) with 2 in Halias.
  eexists. split.
  { erewrite bind_Ok by exact Hctor. apply Halias.
    - apply lookup_insert_eq.
    - rewrite lookup_insert_ne by assumption. assumption.
    - assumption.
    - apply lookup_insert_eq. }
  assert (H0 : ∀ σ' : State, shared σ' = <[x1 := mkShared nb q]> (<[x0 := mkShared nb p]> (shared σ)) →
                 shared σ' !! x0 = Some (mkShared nb p) ∧
                 shared σ' !! x1 = Some (mkShared nb q)).
  { intros σ' ->. split; lookup_solve. }
  match goal with
  | |- SharedPtr_Get x0 ?σ1 = _ ∧ _ => destruct (H0 σ1 eq_refl) as [Hs0 Hs1]; set (τ := σ1) in *
  end.
  assert (Hblk : blocks τ !! nb = Some (mkBlock 2 0 (ControlBlockPointer p)))
    by apply lookup_insert_eq.
  split; [unfold SharedPtr_Get; mrun; reflexivity|].
  split; [unfold SharedPtr_Get; mrun; reflexivity|].
  split; [exact (SharedPtr_UseCount_live τ x0 _ _ Hs0 Hnb Hblk)|].
  split; [exact (SharedPtr_UseCount_live τ x1 _ _ Hs1 Hnb Hblk)|].
  intros y y' Hy.
  assert (Htwo : ∃ sy sy', y ≠ y' ∧ shared τ !! y = Some sy ∧ shared τ !! y' = Some sy' ∧
                   s_block_ sy = nb ∧ s_block_ sy' = nb).
  { destruct Hy as [[-> ->]|[-> ->]]; eexists _, _;
      (split; [congruence|]); (split; [eassumption|]); (split; [eassumption|]);
      split; reflexivity. }
  destruct Htwo as (sy & sy' & Hyy & Hsy & Hsy' & Hb1 & Hb2).
  destruct (destroy_two_owners τ nb p y y' sy sy' Hyy Hnb Hsy Hsy' Hb1 Hb2 Hblk)
    as (σ2 & σ3 & Hd1 & Ht1 & Hu & Hd2 & Ht2 & Hgone & _).
  exists σ2, σ3. split; [exact Hd1|].
  assert (Hτ : trace τ = trace σ ++ [EvAddStrong nb]) by reflexivity.
  split.
  { intros a. rewrite Ht1, Hτ, !deletions_app. unfold deletions. simpl. lia. }
  split; [exact Hu|]. split; [exact Hd2|]. split; [|split; [|exact Hgone]].
  - rewrite Ht2, Hτ, !deletions_app.
    rewrite !deletions_cons_neq by discriminate.
    unfold deletions at 3. rewrite count_occ_cons_eq by reflexivity.
    unfold deletions. simpl. lia.
  - intros a Ha. rewrite Ht2, Hτ, !deletions_app.
    rewrite !deletions_cons_neq by congruence.
    unfold deletions. simpl. lia.
Qed.

Lemma alias_shares_liveness_witness :
  blocks σ0 !! 100%N = None ∧ shared σ0 !! 1%N = None ∧ shared σ0 !! 2%N = None ∧
  ∃ σ1 σ2 σ3,
    (SharedPtr_ctor_ptr 100%N 1%N 7%N;; SharedPtr_ctor_alias 2%N 1%N 9%N) σ0 = Ok () σ1 ∧
    SharedPtr_Get 2%N σ1 = Ok 9%N σ1 ∧
    SharedPtr_dtor 1%N σ1 = Ok () σ2 ∧ deletions 7%N (trace σ2) = 0%nat ∧
    SharedPtr_dtor 2%N σ2 = Ok () σ3 ∧
    deletions 7%N (trace σ3) = 1%nat ∧ deletions 9%N (trace σ3) = 0%nat.
Proof.
  do 3 (split; [reflexivity|]).
  destruct (alias_shares_liveness σ0 100%N 7%N 9%N 1%N 2%N)
    as (σ1 & Hrun & _ & Hget & _ & _ & Hrest);
    try reflexivity; try discriminate.
  destruct (Hrest 1%N 2%N) as (σ2 & σ3 & Hd1 & Hn1 & _ & Hd2 & Hp & Hq & _);
    [left; split; reflexivity|].
  exists σ1, σ2, σ3. repeat split; try assumption.
  - apply Hn1.
  - apply Hq. discriminate.
Defined.

(** * MakeShared *)




(** * Reset and the empty states of a SharedPtr *)

Lemma SharedPtr_Reset_dangling σ x s :
  shared σ !! x = Some s → s_block_ s ≠ nullptr → blocks σ !! s_block_ s = None →
  SharedPtr_Reset x σ = Undef.
Proof.
  intros Hx Hn Hb. unfold SharedPtr_Reset, ControlBlockBase.RemoveStrong, is_null.
  mrun. reflexivity.
Qed.

(** X7: Whenever [Reset()] returns, the pointer holds no block, [UseCount()] is
    0, and a second [Reset()] changes nothing. *)
Theorem SharedPtr_Reset_idempotent σ x σ' :
  SharedPtr_Reset x σ = Ok () σ' →
  SharedPtr_Reset x σ' = Ok () σ' ∧
  SharedPtr_UseCount x σ' = Ok 0 σ' ∧
  SharedPtr_GetControlBlock x σ' = Ok nullptr σ'.
Proof.
  intros Hrun.
  assert (Hnull : ∃ s, shared σ' !! x = Some s ∧ s_block_ s = nullptr).
  { destruct (shared σ !! x) as [s|] eqn:Hx.
    2:{ unfold SharedPtr_Reset in Hrun. revert Hrun. mrun. discriminate. }
    destruct (decide (s_block_ s = nullptr)) as [Hn|Hn].
    { rewrite (SharedPtr_Reset_null σ x s Hx Hn) in Hrun. injection Hrun as <-. eauto. }
    destruct (blocks σ !! s_block_ s) as [cb|] eqn:Hb.
    - rewrite (SharedPtr_Reset_live σ x s cb Hx Hn Hb) in Hrun. injection Hrun as <-.
      exists null_shared. split; [apply lookup_insert_eq | reflexivity].
    - rewrite (SharedPtr_Reset_dangling σ x s Hx Hn Hb) in Hrun. discriminate. }
  destruct Hnull as (s & Hs & Hn).
  split; [eapply SharedPtr_Reset_null; eassumption|].
  split; [eapply SharedPtr_UseCount_null; eassumption|].
  unfold SharedPtr_GetControlBlock. mrun. rewrite Hn. reflexivity.
Qed.

Lemma SharedPtr_Reset_idempotent_witness :
  ∃ σ', SharedPtr_Reset 1%N σ_two_owners = Ok () σ' ∧
    SharedPtr_Reset 1%N σ' = Ok () σ' ∧ SharedPtr_UseCount 2%N σ' = Ok 1 σ'.
Proof.
  eexists. split; [reflexivity|]. split.
  - apply (SharedPtr_Reset_idempotent σ_two_owners 1%N). reflexivity.
  - reflexivity.
Defined.

(** X8: The aliasing constructor applied to a source without a block stores the
    given address without a block: [operator bool()] is true for a non-null
    address while [UseCount()] is 0; [Reset()] leaves the address in place,
    and the destructor touches no block. *)
Theorem alias_of_null_source σ x n sn q :
  shared σ !! n = Some sn → s_block_ sn = nullptr → shared σ !! x = None →
  let σ1 := mkState (blocks σ) (<[x := mkShared nullptr q]> (shared σ))
              (weak σ) (trace σ) in
  SharedPtr_ctor_alias x n q σ = Ok () σ1 ∧
  SharedPtr_bool x σ1 = Ok (negb (is_null q)) σ1 ∧
  SharedPtr_UseCount x σ1 = Ok 0 σ1 ∧
  SharedPtr_Reset x σ1 = Ok () σ1 ∧
  SharedPtr_Get x σ1 = Ok q σ1 ∧
  SharedPtr_dtor x σ1 = Ok () (mkState (blocks σ) (shared σ) (weak σ) (trace σ)).
Proof.
  intros Hn Hsn Hx σ1.
  assert (Hx1 : shared σ1 !! x = Some (mkShared nullptr q)) by apply lookup_insert_eq.
  split.
  { unfold SharedPtr_ctor_alias, SharedPtr_GetControlBlock, is_null. mrun.
    subst σ1. rewrite Hsn. reflexivity. }
  split; [unfold SharedPtr_bool; subst σ1; mrun; reflexivity|].
  split; [exact (SharedPtr_UseCount_null σ1 x _ Hx1 eq_refl)|].
  split; [exact (SharedPtr_Reset_null σ1 x _ Hx1 eq_refl)|].
  split; [unfold SharedPtr_Get; subst σ1; mrun; reflexivity|].
  rewrite (SharedPtr_dtor_null σ1 x _ Hx1 eq_refl). subst σ1. simpl.
  rewrite delete_insert_id by assumption. reflexivity.
Qed.

Lemma alias_of_null_source_witness :
  shared σ_null_objects !! 1%N = Some null_shared ∧
  shared σ_null_objects !! 3%N = None ∧
  ∃ σ1, SharedPtr_ctor_alias 3%N 1%N 9%N σ_null_objects = Ok () σ1 ∧
    SharedPtr_bool 3%N σ1 = Ok true σ1 ∧ SharedPtr_UseCount 3%N σ1 = Ok 0 σ1.
Proof.
  do 2 (split; [reflexivity|]).
  destruct (alias_of_null_source σ_null_objects 3%N 1%N null_shared 9%N
              eq_refl eq_refl eq_refl) as (Hrun & Hb & Hu & _).
  eexists. split; [exact Hrun|]. split; [exact Hb | exact Hu].
Defined.

(** * Demotion and promotion *)

Lemma WeakPtr_ctor_shared_live σ this other o cb :
  shared σ !! other = Some o → weak σ !! this = None →
  s_block_ o ≠ nullptr → blocks σ !! s_block_ o = Some cb →
  WeakPtr_ctor_shared this other σ =
  Ok () (mkState
           (<[s_block_ o := mkBlock (strong_ cb) (SizeT.incr (weak_ cb)) (derived cb)]> (blocks σ))
           (shared σ) (<[this := mkWeak (s_block_ o) (s_ptr_ o)]> (weak σ))
           (trace σ ++ [EvAddWeak (s_block_ o)])).
Proof.
  intros Ho Hthis Hb Hcb.
  unfold WeakPtr_ctor_shared, SharedPtr_Get, SharedPtr_GetControlBlock,
    ControlBlockBase.AddWeak, is_null.
  mrun. reflexivity.
Qed.

Lemma WeakPtr_Lock_live σ ret w wp cb :
  weak σ !! w = Some wp → shared σ !! ret = None →
  w_block_ wp ≠ nullptr → blocks σ !! w_block_ wp = Some cb → strong_ cb ≠ 0 →
  WeakPtr_Lock ret w σ =
  Ok () (mkState
           (<[w_block_ wp := mkBlock (SizeT.incr (strong_ cb)) (weak_ cb) (derived cb)]> (blocks σ))
           (<[ret := mkShared (w_block_ wp) (w_ptr_ wp)]> (shared σ)) (weak σ)
           (trace σ ++ [EvAddStrong (w_block_ wp)])).
Proof.
  intros Hw Hret Hb Hcb Hs. apply Z.eqb_neq in Hs.
  unfold WeakPtr_Lock, SharedPtr_ctor_weak.
  erewrite !bind_Ok by (eapply WeakPtr_Expired_live; eassumption).
  rewrite Hs.
  erewrite !bind_Ok by (eapply WeakPtr_Expired_live; eassumption).
  rewrite Hs.
  unfold WeakPtr_Get, WeakPtr_GetControlBlock, ControlBlockBase.AddStrong, is_null.
  mrun. reflexivity.
Qed.

(** Adding a weak reference to a block that is in use and releasing one
    again gives the block back. *)
Lemma release_weak_after_add b cb :
  0 <= strong_ cb → 0 <= weak_ cb < SizeT.max →
  0 < strong_ cb + weak_ cb <= SizeT.max →
  release_weak (mkBlock (strong_ cb) (SizeT.incr (weak_ cb)) (derived cb)) = Some cb ∧
  release_weak_events b (mkBlock (strong_ cb) (SizeT.incr (weak_ cb)) (derived cb))
    = [EvRemoveWeak b].
Proof.
  intros Hs Hw Hsum. unfold release_weak, release_weak_events. simpl.
  rewrite decr_incr by (unfold SizeT.in_range, SizeT.max in *; lia).
  rewrite add_small by lia.
  assert (H1 : (strong_ cb + weak_ cb =? 0) = false) by (apply Z.eqb_neq; lia).
  rewrite H1, block_eta. split; reflexivity.
Qed.

(** X9: Demoting an owner and locking the WeakPtr gives a second owner of the
    same block that compares equal to the first; destroying that owner and
    the WeakPtr again leaves heap and stores as they were. *)
Theorem demote_lock_round_trip σ s sp cb w ret :
  shared σ !! s = Some sp → s_block_ sp ≠ nullptr →
  blocks σ !! s_block_ sp = Some cb →
  weak σ !! w = None → shared σ !! ret = None →
  0 < strong_ cb < SizeT.max → 0 <= weak_ cb →
  strong_ cb + weak_ cb < SizeT.max →
  ∃ σ2,
    (WeakPtr_ctor_shared w s;; WeakPtr_Lock ret w) σ = Ok () σ2 ∧
    shared σ2 !! ret = Some sp ∧
    SharedPtr_eq ret s σ2 = Ok true σ2 ∧
    SharedPtr_UseCount s σ2 = Ok (strong_ cb + 1) σ2 ∧
    (SharedPtr_dtor ret;; WeakPtr_dtor w) σ2 =
    Ok () (mkState (blocks σ) (shared σ) (weak σ)
             (trace σ ++ [EvAddWeak (s_block_ sp); EvAddStrong (s_block_ sp);
                          EvRemoveStrong (s_block_ sp); EvRemoveWeak (s_block_ sp)])).
Proof.
  intros Hs Hn Hcb Hw Hret Hstrong Hweak Hsum.
  assert (Hrs : ret ≠ s) by congruence.
  set (b := s_block_ sp) in *.
  assert (Hiw : SizeT.incr (weak_ cb) = weak_ cb + 1) by (apply incr_small; lia).
  set (cbw := mkBlock (strong_ cb) (SizeT.incr (weak_ cb)) (derived cb)).
  pose proof (WeakPtr_ctor_shared_live σ w s sp cb Hs Hw Hn Hcb) as Hdemote.
  fold b cbw in Hdemote.
  match type of Hdemote with _ = Ok () ?τ => set (σ1 := τ) in * end.
  assert (Hw1 : weak σ1 !! w = Some (mkWeak b (s_ptr_ sp))) by apply lookup_insert_eq.
  assert (Hb1 : blocks σ1 !! b = Some cbw) by apply lookup_insert_eq.
  pose proof (WeakPtr_Lock_live σ1 ret w _ cbw Hw1 Hret Hn Hb1) as Hlock.
  simpl in Hlock. specialize (Hlock ltac:(lia)).
  match type of Hlock with _ = Ok () ?τ => set (σ2 := τ) in * end.
  assert (Hret2 : shared σ2 !! ret = Some sp).
  { subst σ2. simpl. rewrite lookup_insert_eq. subst b. destruct sp. reflexivity. }
  assert (Hs2 : shared σ2 !! s = Some sp).
  { subst σ2. simpl. rewrite lookup_insert_ne by assumption. assumption. }
  assert (Hb2 : blocks σ2 !! b =
                Some (mkBlock (SizeT.incr (strong_ cbw)) (weak_ cbw) (derived cbw)))
    by apply lookup_insert_eq.
  exists σ2. split; [erewrite bind_Ok by exact Hdemote; exact Hlock|].
  split; [exact Hret2|]. split.
  { unfold SharedPtr_eq, SharedPtr_Get. mrun. reflexivity. }
  split.
  { rewrite (SharedPtr_UseCount_live σ2 s sp _ Hs2 Hn Hb2). simpl.
    rewrite incr_small by lia. reflexivity. }
  destruct (release_after_add b cbw) as [Hr He]; [simpl; lia | simpl; lia | simpl; lia |].
  destruct (release_weak_after_add b cb) as [Hrw Hew]; [lia | lia | lia |].
  fold cbw in Hrw, Hew.
  pose proof (SharedPtr_dtor_live σ2 ret sp _ Hret2 Hn Hb2) as Hd.
  fold b in Hd. rewrite Hr, He in Hd.
  match type of Hd with _ = Ok () ?τ => set (σ3 := τ) in * end.
  assert (Hw3 : weak σ3 !! w = Some (mkWeak b (s_ptr_ sp))) by apply lookup_insert_eq.
  assert (Hb3 : blocks σ3 !! b = Some cbw) by apply lookup_insert_eq.
  pose proof (WeakPtr_dtor_live σ3 w _ _ Hw3 Hn Hb3) as Hdw.
  simpl w_block_ in Hdw. rewrite Hrw, Hew in Hdw.
  erewrite bind_Ok by exact Hd. rewrite Hdw. subst σ3 σ2 σ1. simpl.
  f_equal. f_equal.
  - rewrite !insert_insert_eq. apply insert_id. assumption.
  - apply delete_insert_id. assumption.
  - apply delete_insert_id. assumption.
  - trace_eq.
Qed.

Lemma demote_lock_round_trip_witness :
  shared σ_two_owners !! 1%N = Some (mkShared 100%N 7%N) ∧
  weak σ_two_owners !! 11%N = None ∧ shared σ_two_owners !! 3%N = None ∧
  ∃ σ2 σ3,
    (WeakPtr_ctor_shared 11%N 1%N;; WeakPtr_Lock 3%N 11%N) σ_two_owners = Ok () σ2 ∧
    SharedPtr_eq 3%N 1%N σ2 = Ok true σ2 ∧
    (SharedPtr_dtor 3%N;; WeakPtr_dtor 11%N) σ2 = Ok () σ3 ∧
    blocks σ3 = blocks σ_two_owners.
Proof.
  do 3 (split; [reflexivity|]).
  destruct (demote_lock_round_trip σ_two_owners 1%N (mkShared 100%N 7%N)
              (mkBlock 2 0 (ControlBlockPointer 7%N)) 11%N 3%N)
    as (σ2 & Hrun & _ & Heq & _ & Hback);
    first [reflexivity | discriminate | size_arith | idtac].
  exists σ2. eexists.
  split; [exact Hrun|]. split; [exact Heq|]. split; [exact Hback|]. reflexivity.
Defined.



(** * UniquePtr: release, moves and swap *)

Lemma alter_Some_insert {A} (f : A → A) (m : gmap N A) i x :
  m !! i = Some x → alter f i m = <[i := f x]> m.
Proof.
  intros H. apply map_eq. intros j. destruct (decide (i = j)) as [<-|Hne].
  - rewrite lookup_alter_eq, lookup_insert_eq, H. reflexivity.
  - rewrite lookup_alter_ne, lookup_insert_ne by assumption. reflexivity.
Qed.

Lemma unique_eta {D} (u : UniquePtr D) : mkUnique (u_first u) (u_second u) = u.
Proof. destruct u. reflexivity. Qed.

(** X11: [Release] hands the address to the caller and keeps the policy: the
    pointer is null afterwards, and its destructor then calls no policy. *)
Theorem UniquePtr_Release_gives_up_ownership {D U}
    (call : D → addr → World D U → World D U)
    (σ : UState D U) (this : addr) (u : UniquePtr D) :
  uniques (world σ) !! this = Some u →
  ∃ σ1,
    UniquePtr_Release this σ = Some (u_first u, σ1) ∧
    UniquePtr_Get this (world σ1) = Some nullptr ∧
    UniquePtr_GetDeleter this (world σ1) = Some (u_second u) ∧
    UniquePtr_bool this (world σ1) = Some false ∧
    UniquePtr_dtor call this σ1 =
    Some (mkUState (mkWorld (delete this (uniques (world σ))) (user (world σ)))
            (cleanups σ)).
Proof.
  intros Hu. unfold UniquePtr_Release. rewrite Hu. eexists. split; [reflexivity|].
  unfold UniquePtr_Get, UniquePtr_GetDeleter, UniquePtr_bool, UniquePtr_dtor,
    UniquePtr_Reset, set_first. simpl.
  rewrite !lookup_alter_eq, Hu. simpl.
  repeat split.
  rewrite !delete_alter_eq. reflexivity.
Qed.

Lemma UniquePtr_Release_gives_up_ownership_witness :
  ∃ σ1,
    UniquePtr_Release 1%N two_uniques = Some (7%N, σ1) ∧
    cleanups <$> UniquePtr_dtor noting_policy 1%N σ1 = Some [] ∧
    (user ∘ world) <$> UniquePtr_dtor noting_policy 1%N σ1 = Some [].
Proof.
  destruct (UniquePtr_Release_gives_up_ownership noting_policy two_uniques 1%N
              (mkUnique 7%N true) eq_refl) as (σ1 & Hr & _ & _ & _ & Hd).
  exists σ1. split; [exact Hr|]. rewrite Hd. split; reflexivity.
Defined.

(** X12: The move constructor transfers address and policy and leaves the source
    null with a moved-from policy, calling no policy itself.  Destroying
    the source then calls no policy; destroying the new owner calls the
    transferred policy once on the transferred address. *)
Theorem UniquePtr_ctor_move_transfers {D U}
    (call : D → addr → World D U → World D U) (moved : D → D)
    (σ : UState D U) (this other : addr) (u : UniquePtr D) :
  uniques (world σ) !! other = Some u →
  uniques (world σ) !! this = None →
  let m1 := <[this := u]>
              (<[other := mkUnique nullptr (moved (u_second u))]> (uniques (world σ))) in
  let σ1 := mkUState (mkWorld m1 (user (world σ))) (cleanups σ) in
  UniquePtr_ctor_move moved this other σ = Some σ1 ∧
  UniquePtr_dtor call other σ1 =
    Some (mkUState (mkWorld (delete other m1) (user (world σ))) (cleanups σ)) ∧
  (u_first u ≠ nullptr →
   UniquePtr_dtor call this σ1 =
   Some (let w := call (u_second u) (u_first u) (set_first this nullptr (world σ1)) in
         mkUState (mkWorld (delete this (uniques w)) (user w))
           (cleanups σ ++ [(this, u_first u)]))).
Proof.
  intros Ho Ht m1 σ1.
  assert (Hne : this ≠ other) by congruence.
  assert (Ho1 : m1 !! other = Some (mkUnique nullptr (moved (u_second u)))).
  { subst m1. rewrite lookup_insert_ne by assumption. apply lookup_insert_eq. }
  assert (Ht1 : m1 !! this = Some u) by apply lookup_insert_eq.
  split; [|split].
  - unfold UniquePtr_ctor_move, UniquePtr_Release. rewrite Ho.
    unfold UniquePtr_GetDeleter, set_first. simpl.
    rewrite lookup_alter_eq, Ho. simpl.
    unfold UniquePtr_ctor, set_second. simpl.
    rewrite !lookup_alter_ne, Ht by congruence.
    subst σ1 m1. do 3 f_equal.
    rewrite (alter_Some_insert _ _ _ _ Ho). simpl.
    rewrite (alter_Some_insert _ _ _ _ (lookup_insert_eq _ _ _)). simpl.
    rewrite insert_insert_eq, unique_eta. reflexivity.
  - unfold UniquePtr_dtor, UniquePtr_Reset. simpl. rewrite Ho1. simpl.
    unfold set_first. simpl. rewrite delete_alter_eq. reflexivity.
  - intros Hp. unfold UniquePtr_dtor, UniquePtr_Reset. simpl. rewrite Ht1.
    unfold is_null. rewrite bool_decide_eq_false_2 by assumption.
    unfold set_first at 1. simpl. rewrite lookup_alter_eq, Ht1. simpl. reflexivity.
Qed.

Lemma UniquePtr_ctor_move_transfers_witness :
  ∃ σ1,
    UniquePtr_ctor_move negb 3%N 1%N two_uniques = Some σ1 ∧
    uniques (world σ1) !! 3%N = Some (mkUnique 7%N true) ∧
    uniques (world σ1) !! 1%N = Some (mkUnique nullptr false) ∧
    cleanups <$> UniquePtr_dtor noting_policy 1%N σ1 = Some [] ∧
    (user ∘ world) <$> UniquePtr_dtor noting_policy 3%N σ1 = Some [(true, 7%N)].
Proof.
  destruct (UniquePtr_ctor_move_transfers noting_policy negb two_uniques 3%N 1%N
              (mkUnique 7%N true) eq_refl eq_refl) as (Hm & Hd1 & Hd3).
  eexists. split; [exact Hm|]. split; [reflexivity|]. split; [reflexivity|].
  rewrite Hd1. split; [reflexivity|].
  rewrite Hd3 by discriminate. reflexivity.
Defined.

(** X13: Move assignment between pointers that hold different addresses: the
    destination's old address is cleaned up with the destination's OLD
    policy, then the destination takes the source's address and policy and
    the source is left null.  The policy is assumed to leave the UniquePtr
    objects alone. *)
Theorem UniquePtr_assign_move_transfers {D U}
    (call : D → addr → World D U → World D U) (moved : D → D)
    (σ : UState D U) (this other : addr) (ut uo : UniquePtr D) :
  uniques (world σ) !! this = Some ut →
  uniques (world σ) !! other = Some uo →
  u_first uo ≠ u_first ut →
  (∀ w, uniques (call (u_second ut) (u_first ut) w) = uniques w) →
  let w1 := set_first this (u_first uo) (set_first other nullptr (world σ)) in
  let w2 := if is_null (u_first ut) then w1 else call (u_second ut) (u_first ut) w1 in
  UniquePtr_assign_move call moved this other σ =
  Some (mkUState
          (mkWorld (<[this := uo]>
                      (<[other := mkUnique nullptr (moved (u_second uo))]>
                         (uniques (world σ))))
             (user w2))
          (cleanups σ ++ if is_null (u_first ut) then [] else [(this, u_first ut)])).
Proof.
  intros Ht Ho Hdiff Hcall w1 w2.
  assert (Hne : this ≠ other) by congruence.
  assert (Hu1 : uniques w1 =
                <[this := mkUnique (u_first uo) (u_second ut)]>
                  (<[other := mkUnique nullptr (u_second uo)]> (uniques (world σ)))).
  { subst w1. unfold set_first. simpl.
    rewrite (alter_Some_insert _ _ _ _ Ho).
    rewrite (alter_Some_insert _ _ _ ut) by (rewrite lookup_insert_ne by congruence; exact Ht).
    reflexivity. }
  assert (Hu2 : uniques w2 = uniques w1).
  { subst w2. destruct (is_null (u_first ut)); [reflexivity | apply Hcall]. }
  assert (Ho2 : uniques w2 !! other = Some (mkUnique nullptr (u_second uo))).
  { rewrite Hu2, Hu1. rewrite lookup_insert_ne by assumption. apply lookup_insert_eq. }
  assert (Ht2 : uniques w2 !! this = Some (mkUnique (u_first uo) (u_second ut))).
  { rewrite Hu2, Hu1. apply lookup_insert_eq. }
  assert (Hreset : UniquePtr_Reset call this (u_first uo)
                     (mkUState (set_first other nullptr (world σ)) (cleanups σ)) =
                   Some (mkUState w2
                           (cleanups σ ++
                            if is_null (u_first ut) then [] else [(this, u_first ut)]))).
  { unfold UniquePtr_Reset. simpl.
    unfold set_first at 1. simpl. rewrite lookup_alter_ne, Ht by congruence.
    fold w1. subst w2. destruct (is_null (u_first ut)).
    - rewrite app_nil_r. reflexivity.
    - change (alter _ this _) with (uniques w1).
      rewrite Hu1, lookup_insert_eq. reflexivity. }
  unfold UniquePtr_assign_move, UniquePtr_Get. rewrite Ho, Ht. simpl.
  rewrite bool_decide_eq_false_2 by assumption.
  unfold UniquePtr_Release. rewrite Ho. rewrite Hreset.
  unfold UniquePtr_GetDeleter. simpl. rewrite Ho2, Ht2. simpl.
  do 2 f_equal. unfold set_second. simpl. f_equal.
  rewrite (alter_Some_insert _ _ _ _ Ho2). simpl.
  rewrite (alter_Some_insert _ _ _ (mkUnique (u_first uo) (u_second ut)))
    by (rewrite lookup_insert_ne by congruence; exact Ht2).
  simpl. rewrite Hu2, Hu1, unique_eta.
  apply map_eq. intros k.
  destruct (decide (k = this)) as [->|Hk1]; [rewrite !lookup_insert_eq; reflexivity|].
  destruct (decide (k = other)) as [->|Hk2].
  - rewrite !(lookup_insert_ne _ this) by congruence.
    rewrite !lookup_insert_eq. reflexivity.
  - rewrite !lookup_insert_ne by congruence. reflexivity.
Qed.

Lemma UniquePtr_assign_move_transfers_witness :
  ∃ σ1,
    UniquePtr_assign_move noting_policy negb 1%N 2%N two_uniques = Some σ1 ∧
    uniques (world σ1) !! 1%N = Some (mkUnique 8%N false) ∧
    uniques (world σ1) !! 2%N = Some (mkUnique nullptr true) ∧
    user (world σ1) = [(true, 7%N)] ∧
    cleanups σ1 = [(1%N, 7%N)].
Proof.
  pose proof (UniquePtr_assign_move_transfers noting_policy negb two_uniques 1%N 2%N
                (mkUnique 7%N true) (mkUnique 8%N false) eq_refl eq_refl
                ltac:(discriminate) (λ w, eq_refl)) as H.
  eexists. split; [exact H|]. repeat split.
Defined.

(** X14: Move assignment between pointers that hold the same address does
    nothing at all: the source keeps its address and neither policy is
    moved or called.  In particular a null source leaves a null destination
    with the policy it had. *)
Theorem UniquePtr_assign_move_same_address {D U}
    (call : D → addr → World D U → World D U) (moved : D → D)
    (σ : UState D U) (this other : addr) (ut uo : UniquePtr D) :
  uniques (world σ) !! this = Some ut →
  uniques (world σ) !! other = Some uo →
  u_first uo = u_first ut →
  UniquePtr_assign_move call moved this other σ = Some σ ∧
  UniquePtr_GetDeleter this (world σ) = Some (u_second ut) ∧
  UniquePtr_Get other (world σ) = Some (u_first uo).
Proof.
  intros Ht Ho Heq.
  unfold UniquePtr_assign_move, UniquePtr_Get, UniquePtr_GetDeleter.
  rewrite Ho, Ht. simpl.
  rewrite bool_decide_eq_true_2 by assumption. repeat split.
Qed.

Lemma UniquePtr_assign_move_same_address_witness :
  UniquePtr_assign_move noting_policy negb 1%N 2%N two_null_uniques
    = Some two_null_uniques ∧
  UniquePtr_GetDeleter 1%N (world two_null_uniques) = Some true.
Proof.
  destruct (UniquePtr_assign_move_same_address noting_policy negb two_null_uniques 1%N 2%N
              (mkUnique nullptr true) (mkUnique nullptr false) eq_refl eq_refl eq_refl)
    as (H & Hd & _).
  split; [exact H | exact Hd].
Defined.

(** X15: [Swap] exchanges addresses and policies of the two pointers, calls no
    policy, and swapping twice gives the first state back. *)
Theorem UniquePtr_Swap_exchanges {D U}
    (σ : UState D U) (this other : addr) (u o : UniquePtr D) :
  uniques (world σ) !! this = Some u →
  uniques (world σ) !! other = Some o →
  ∃ σ1,
    UniquePtr_Swap this other σ = Some σ1 ∧
    uniques (world σ1) !! this = Some o ∧
    uniques (world σ1) !! other = Some u ∧
    (∀ k, k ≠ this → k ≠ other → uniques (world σ1) !! k = uniques (world σ) !! k) ∧
    user (world σ1) = user (world σ) ∧
    cleanups σ1 = cleanups σ ∧
    UniquePtr_Swap this other σ1 = Some σ.
Proof.
  intros Hu Ho. unfold UniquePtr_Swap at 1. rewrite Hu, Ho.
  eexists. split; [reflexivity|]. simpl.
  assert (H1 : <[other := u]> (<[this := o]> (uniques (world σ))) !! this = Some o).
  { destruct (decide (other = this)) as [->|Hne].
    - rewrite lookup_insert_eq. congruence.
    - rewrite lookup_insert_ne by assumption. apply lookup_insert_eq. }
  assert (H2 : <[other := u]> (<[this := o]> (uniques (world σ))) !! other = Some u)
    by apply lookup_insert_eq.
  split; [exact H1|]. split; [exact H2|]. split.
  { intros k Hk1 Hk2. rewrite !lookup_insert_ne by congruence. reflexivity. }
  split; [reflexivity|]. split; [reflexivity|].
  unfold UniquePtr_Swap. simpl. rewrite H1, H2.
  destruct σ as [[m us] cs]. simpl in *. do 3 f_equal.
  apply map_eq. intros k.
  destruct (decide (k = other)) as [->|Hk2];
    [rewrite lookup_insert_eq; symmetry; exact Ho|].
  rewrite (lookup_insert_ne _ other) by congruence.
  destruct (decide (k = this)) as [->|Hk1];
    [rewrite lookup_insert_eq; symmetry; exact Hu|].
  rewrite !lookup_insert_ne by congruence. reflexivity.
Qed.

Lemma UniquePtr_Swap_exchanges_witness :
  ∃ σ1,
    UniquePtr_Swap 1%N 2%N two_uniques = Some σ1 ∧
    uniques (world σ1) !! 1%N = Some (mkUnique 8%N false) ∧
    uniques (world σ1) !! 2%N = Some (mkUnique 7%N true) ∧
    UniquePtr_Swap 1%N 2%N σ1 = Some two_uniques.
Proof.
  destruct (UniquePtr_Swap_exchanges two_uniques 1%N 2%N
              (mkUnique 7%N true) (mkUnique 8%N false) eq_refl eq_refl)
    as (σ1 & Hs & H1 & H2 & _ & _ & _ & Hback).
  exists σ1. split; [exact Hs|]. split; [exact H1|]. split; [exact H2 | exact Hback].
Defined.

(** * The weak count counts the observers *)

Lemma frees_cons_neq b e t : e ≠ EvFree b → frees b (e :: t) = frees b t.
Proof. intros. apply count_occ_cons_neq. assumption. Qed.

(** A weak reference released from a block that has owners. *)
Lemma release_weak_owned b cb :
  0 < strong_ cb → 0 < weak_ cb → strong_ cb + weak_ cb <= SizeT.max →
  release_weak cb = Some (mkBlock (strong_ cb) (weak_ cb - 1) (derived cb)) ∧
  release_weak_events b cb = [EvRemoveWeak b].
Proof.
  intros Hs Hw Hsum. unfold release_weak, release_weak_events.
  assert (Hd : SizeT.decr (weak_ cb) = weak_ cb - 1).
  { apply decr_pos. unfold SizeT.max in *. lia. }
  rewrite Hd. rewrite add_small by lia.
  assert (H1 : (strong_ cb + (weak_ cb - 1) =? 0) = false) by (apply Z.eqb_neq; lia).
  rewrite H1. split; reflexivity.
Qed.

Section observers.
Variable b : addr.

Lemma observers_of_insert_other m x w' :
  (∀ w, m !! x = Some w → w_block_ w ≠ b) →
  observers_of b (<[x := w']> m) =
  if decide (w_block_ w' = b) then S (observers_of b m) else observers_of b m.
Proof.
  intros Hx. unfold observers_of. destruct (decide (w_block_ w' = b)) as [Hw|Hw].
  - rewrite map_filter_insert_True by exact Hw.
    apply map_size_insert_None. apply map_lookup_filter_None. right.
    intros w Hm. simpl. apply Hx. assumption.
  - rewrite map_filter_insert_not'; [reflexivity | exact Hw |].
    intros w Hm. simpl. apply Hx. assumption.
Qed.

Lemma observers_of_delete_other m x :
  (∀ w, m !! x = Some w → w_block_ w ≠ b) →
  observers_of b (delete x m) = observers_of b m.
Proof.
  intros Hx. unfold observers_of. rewrite map_filter_delete_not; [reflexivity|].
  intros w Hm. simpl. apply Hx. assumption.
Qed.

Lemma observers_of_delete_observer m x w :
  m !! x = Some w → w_block_ w = b →
  S (observers_of b (delete x m)) = observers_of b m.
Proof.
  intros Hm Hw. rewrite <- (insert_delete_id m x w Hm) at 2.
  rewrite observers_of_insert_other.
  - rewrite decide_True by exact Hw. reflexivity.
  - intros w0. rewrite lookup_delete_eq. discriminate.
Qed.

Lemma observers_of_insert_observer m x w w' :
  m !! x = Some w → w_block_ w = b → w_block_ w' ≠ b →
  S (observers_of b (<[x := w']> m)) = observers_of b m.
Proof.
  intros Hm Hw Hw'. rewrite <- (insert_delete_eq m).
  rewrite observers_of_insert_other.
  - rewrite decide_False by exact Hw'. eapply observers_of_delete_observer; eassumption.
  - intros w0. rewrite lookup_delete_eq. discriminate.
Qed.

Lemma observers_of_pos m x w :
  m !! x = Some w → w_block_ w = b → (0 < observers_of b m)%nat.
Proof.
  intros Hm Hw. rewrite <- (observers_of_delete_observer m x w Hm Hw). lia.
Qed.

Lemma observes_only_insert m x w :
  observes_only b m → w_block_ w = b ∨ w_block_ w = nullptr →
  observes_only b (<[x := w]> m).
Proof.
  intros Hm Hw y wy Hy. apply lookup_insert_Some in Hy as [[_ <-]|[_ Hy]].
  - assumption.
  - eapply Hm. eassumption.
Qed.

Lemma observes_only_delete m x : observes_only b m → observes_only b (delete x m).
Proof.
  intros Hm y wy Hy. apply lookup_delete_Some in Hy as [_ Hy]. eapply Hm. eassumption.
Qed.

End observers.

(** ** The WeakPtr operations, step by step *)

Lemma WeakPtr_ctor_copy_live σ this other o cb :
  weak σ !! other = Some o → weak σ !! this = None →
  w_block_ o ≠ nullptr → blocks σ !! w_block_ o = Some cb →
  WeakPtr_ctor_copy this other σ =
  Ok () (mkState
           (<[w_block_ o := mkBlock (strong_ cb) (SizeT.incr (weak_ cb)) (derived cb)]> (blocks σ))
           (shared σ) (<[this := o]> (weak σ))
           (trace σ ++ [EvAddWeak (w_block_ o)])).
Proof.
  intros Ho Hthis Hb Hcb.
  unfold WeakPtr_ctor_copy, WeakPtr_Get, WeakPtr_GetControlBlock,
    ControlBlockBase.AddWeak, is_null.
  mrun. destruct o. reflexivity.
Qed.

Lemma WeakPtr_ctor_copy_null σ this other o :
  weak σ !! other = Some o → weak σ !! this = None →
  w_block_ o = nullptr →
  WeakPtr_ctor_copy this other σ =
  Ok () (mkState (blocks σ) (shared σ) (<[this := o]> (weak σ)) (trace σ)).
Proof.
  intros Ho Hthis Hb.
  unfold WeakPtr_ctor_copy, WeakPtr_Get, WeakPtr_GetControlBlock, is_null.
  mrun. destruct o as [ob op]. simpl in *. subst ob. reflexivity.
Qed.

Lemma WeakPtr_ctor_shared_null σ this other o :
  shared σ !! other = Some o → weak σ !! this = None →
  s_block_ o = nullptr →
  WeakPtr_ctor_shared this other σ =
  Ok () (mkState (blocks σ) (shared σ)
           (<[this := mkWeak nullptr (s_ptr_ o)]> (weak σ)) (trace σ)).
Proof.
  intros Ho Hthis Hb.
  unfold WeakPtr_ctor_shared, SharedPtr_Get, SharedPtr_GetControlBlock, is_null.
  mrun. rewrite Hb. reflexivity.
Qed.

Lemma WeakPtr_ctor_move_steps σ this other :
  WeakPtr_ctor_move this other σ =
  (WeakPtr_ctor_copy this other;; WeakPtr_Reset other) σ.
Proof.
  unfold WeakPtr_ctor_move, WeakPtr_ctor_copy, WeakPtr_Get, WeakPtr_GetControlBlock.
  munfold. destruct (weak σ !! other) as [o|] eqn:Ho; simpl; [|reflexivity].
  rewrite ?Ho. simpl.
  destruct (weak σ !! this); reflexivity.
Qed.

Lemma WeakPtr_dtor_null σ this w :
  weak σ !! this = Some w → w_block_ w = nullptr →
  WeakPtr_dtor this σ =
  Ok () (mkState (blocks σ) (shared σ) (delete this (weak σ)) (trace σ)).
Proof.
  intros H Hb. unfold WeakPtr_dtor.
  erewrite bind_Ok by (eapply WeakPtr_Reset_null; eassumption).
  mrun. reflexivity.
Qed.

Lemma WeakPtr_assign_copy_self σ x : WeakPtr_assign_copy x x σ = Ok () σ.
Proof.
  unfold WeakPtr_assign_copy. rewrite bool_decide_eq_true_2 by reflexivity. reflexivity.
Qed.

Lemma WeakPtr_assign_move_self σ x : WeakPtr_assign_move x x σ = Ok () σ.
Proof.
  unfold WeakPtr_assign_move. rewrite bool_decide_eq_true_2 by reflexivity. reflexivity.
Qed.

Lemma WeakPtr_assign_copy_same_block σ this other w o :
  weak σ !! this = Some w → weak σ !! other = Some o →
  w_block_ w = w_block_ o →
  WeakPtr_assign_copy this other σ = Ok () σ.
Proof.
  intros Hw Ho Hb.
  unfold WeakPtr_assign_copy, WeakPtr_Get, WeakPtr_GetControlBlock,
    WeakPtr_Reset_ptr_block.
  destruct (bool_decide (this = other)); mrun; reflexivity.
Qed.

Lemma WeakPtr_assign_copy_steps σ this other w o :
  this ≠ other → weak σ !! this = Some w → weak σ !! other = Some o →
  w_block_ w ≠ w_block_ o →
  WeakPtr_assign_copy this other σ =
  (WeakPtr_Reset this;;
   put_weak this (mkWeak (w_block_ o) (w_ptr_ o));;
   when (negb (is_null (w_block_ o))) (ControlBlockBase.AddWeak (w_block_ o))) σ.
Proof.
  intros Hne Hw Ho Hb.
  unfold WeakPtr_assign_copy, WeakPtr_Get, WeakPtr_GetControlBlock,
    WeakPtr_Reset_ptr_block.
  mrun. reflexivity.
Qed.

Lemma WeakPtr_assign_move_as_copy σ this other :
  this ≠ other →
  WeakPtr_assign_move this other σ =
  (WeakPtr_assign_copy this other;; WeakPtr_Reset other) σ.
Proof.
  intros Hne.
  unfold WeakPtr_assign_move, WeakPtr_assign_copy, WeakPtr_Get,
    WeakPtr_GetControlBlock.
  munfold. rewrite bool_decide_eq_false_2 by assumption.
  destruct (weak σ !! other) as [o|] eqn:Ho; simpl; [|reflexivity].
  rewrite ?Ho. simpl. reflexivity.
Qed.

Lemma put_weak_ok σ x w v :
  weak σ !! x = Some w →
  put_weak x v σ =
  Ok () (mkState (blocks σ) (shared σ) (<[x := v]> (weak σ)) (trace σ)).
Proof. intros H. mrun. reflexivity. Qed.

Section observed.
Variables (b : addr) (s : Z) (d : Derived) (h f : nat).

Lemma observed_weaken n σ : observed b s d h f (S n) σ → observed b s d h f n σ.
Proof.
  intros (Hc & Ho & Hcb & Hs & Hmax & Hh & Hf).
  repeat (split; [assumption|]). split; [lia|]. split; assumption.
Qed.

Lemma observed_weaken_by k n σ :
  observed b s d h f (k + n) σ → observed b s d h f n σ.
Proof.
  induction k as [|k IH]; [trivial|]. intros H. apply IH, observed_weaken. exact H.
Qed.

(** An object that observed nothing (or a new object) becomes an observer. *)
Lemma observed_gain n σ x p :
  observed b s d h f (S n) σ →
  (∀ w, weak σ !! x = Some w → w_block_ w ≠ b) →
  observed b s d h f n
    (mkState (<[b := mkBlock s (SizeT.incr (Z.of_nat (live_observers b σ))) d]> (blocks σ))
       (shared σ) (<[x := mkWeak b p]> (weak σ)) (trace σ ++ [EvAddWeak b])).
Proof.
  intros (Hc & Ho & Hcb & Hs & Hmax & Hh & Hf) Hx.
  assert (Hobs : live_observers b
            (mkState (<[b := mkBlock s (SizeT.incr (Z.of_nat (live_observers b σ))) d]> (blocks σ))
               (shared σ) (<[x := mkWeak b p]> (weak σ)) (trace σ ++ [EvAddWeak b]))
          = S (live_observers b σ)).
  { unfold live_observers. simpl. rewrite observers_of_insert_other by assumption.
    rewrite decide_True by reflexivity. reflexivity. }
  unfold observed. rewrite Hobs. simpl.
  split; [apply observes_only_insert; [assumption | left; reflexivity]|].
  split; [assumption|].
  split; [rewrite lookup_insert_eq, incr_small by lia; do 3 f_equal; lia|].
  split; [assumption|]. split; [lia|]. split.
  - rewrite hook_calls_app, Hh, hook_calls_cons_neq by discriminate.
    unfold hook_calls. simpl. lia.
  - rewrite frees_app, Hf, frees_cons_neq by discriminate.
    unfold frees. simpl. lia.
Qed.

(** The store changes, the observers do not. *)
Lemma observed_idle n σ m' :
  observed b s d h f n σ → observes_only b m' →
  observers_of b m' = live_observers b σ →
  observed b s d h f n (mkState (blocks σ) (shared σ) m' (trace σ)).
Proof.
  intros (Hc & Ho & Hcb & Hs & Hmax & Hh & Hf) Hc' Hobs.
  unfold observed, live_observers in *. simpl. rewrite Hobs.
  repeat (split; [assumption|]). assumption.
Qed.

(** An observer releases its reference. *)
Lemma observed_lose n σ m' :
  observed b s d h f n σ → observes_only b m' →
  S (observers_of b m') = live_observers b σ →
  observed b s d h f n
    (mkState
       (update_block b (release_weak (mkBlock s (Z.of_nat (live_observers b σ)) d))
          (blocks σ))
       (shared σ) m'
       (trace σ ++ release_weak_events b (mkBlock s (Z.of_nat (live_observers b σ)) d))).
Proof.
  intros (Hc & Ho & Hcb & Hs & Hmax & Hh & Hf) Hc' Hobs.
  destruct (release_weak_owned b (mkBlock s (Z.of_nat (live_observers b σ)) d))
    as [Hr He]; [simpl; lia | simpl; lia | simpl; lia |].
  rewrite Hr, He. simpl.
  unfold observed, live_observers in *. simpl.
  split; [assumption|]. split; [assumption|].
  split; [rewrite lookup_insert_eq; do 3 f_equal; lia|].
  split; [assumption|]. split; [lia|]. split.
  - rewrite hook_calls_app, Hh, hook_calls_cons_neq by discriminate.
    unfold hook_calls. simpl. lia.
  - rewrite frees_app, Hf, frees_cons_neq by discriminate.
    unfold frees. simpl. lia.
Qed.

Lemma observed_observer n σ x w :
  observed b s d h f n σ → weak σ !! x = Some w → w_block_ w = b →
  blocks σ !! w_block_ w = Some (mkBlock s (Z.of_nat (live_observers b σ)) d).
Proof. intros (_ & _ & Hcb & _) _ ->. exact Hcb. Qed.

End observed.

Section observer_steps.
Variables (b : addr) (s : Z) (d : Derived) (h f : nat).
Hypothesis Hb : b ≠ nullptr.

Lemma not_observer_of_fresh σ x :
  weak σ !! x = None → ∀ w, weak σ !! x = Some w → w_block_ w ≠ b.
Proof. intros Hx w Hw. congruence. Qed.

Lemma not_observer_of_null σ x w0 :
  weak σ !! x = Some w0 → w_block_ w0 = nullptr →
  ∀ w, weak σ !! x = Some w → w_block_ w ≠ b.
Proof. intros Hx Hn w Hw. congruence. Qed.

(** [x.Reset()] *)
Lemma step_WReset n σ x w :
  observed b s d h f n σ → weak σ !! x = Some w →
  ∃ σ', WeakPtr_Reset x σ = Ok () σ' ∧ observed b s d h f n σ' ∧
    (∀ z, z ≠ x → weak σ' !! z = weak σ !! z) ∧
    ∃ w', weak σ' !! x = Some w' ∧ w_block_ w' = nullptr.
Proof.
  intros Hobs Hx. pose proof Hobs as (Hc & _).
  destruct (Hc x w Hx) as [Hw|Hw].
  - pose proof (observed_observer b s d h f n σ x w Hobs Hx Hw) as Hcb.
    eexists. split.
    { eapply WeakPtr_Reset_live; [exact Hx | rewrite Hw; exact Hb | exact Hcb]. }
    rewrite Hw. split.
    { apply observed_lose; [assumption | |].
      - apply observes_only_insert; [assumption | right; reflexivity].
      - eapply observers_of_insert_observer; [eassumption | assumption |].
        simpl. congruence. }
    simpl. split.
    + intros z Hz. rewrite lookup_insert_ne by congruence. reflexivity.
    + exists null_weak. split; [apply lookup_insert_eq | reflexivity].
  - exists σ. split; [eapply WeakPtr_Reset_null; eassumption|].
    split; [assumption|]. split; [reflexivity|]. exists w. split; assumption.
Qed.

(** [x] goes out of scope *)
Lemma step_WDestroy n σ x w :
  observed b s d h f n σ → weak σ !! x = Some w →
  ∃ σ', WeakPtr_dtor x σ = Ok () σ' ∧ observed b s d h f n σ' ∧
    (∀ z, z ≠ x → weak σ' !! z = weak σ !! z).
Proof.
  intros Hobs Hx. pose proof Hobs as (Hc & _).
  destruct (Hc x w Hx) as [Hw|Hw].
  - pose proof (observed_observer b s d h f n σ x w Hobs Hx Hw) as Hcb.
    eexists. split.
    { eapply WeakPtr_dtor_live; [exact Hx | rewrite Hw; exact Hb | exact Hcb]. }
    rewrite Hw. split.
    { apply observed_lose; [assumption | |].
      - apply observes_only_delete. assumption.
      - eapply observers_of_delete_observer; eassumption. }
    simpl. intros z Hz. rewrite lookup_delete_ne by congruence. reflexivity.
  - eexists. split; [eapply WeakPtr_dtor_null; eassumption|]. split.
    { apply observed_idle; [assumption | |].
      - apply observes_only_delete. assumption.
      - apply observers_of_delete_other. eapply not_observer_of_null; eassumption. }
    simpl. intros z Hz. rewrite lookup_delete_ne by congruence. reflexivity.
Qed.

(** [WeakPtr x(y);] *)
Lemma step_WCopyCons n σ x y wy :
  observed b s d h f (S n) σ → weak σ !! x = None → weak σ !! y = Some wy →
  ∃ σ', WeakPtr_ctor_copy x y σ = Ok () σ' ∧ observed b s d h f n σ' ∧
    weak σ' = <[x := wy]> (weak σ).
Proof.
  intros Hobs Hx Hy. pose proof Hobs as (Hc & _).
  destruct (Hc y wy Hy) as [Hw|Hw].
  - pose proof (observed_observer b s d h f _ σ y wy Hobs Hy Hw) as Hcb.
    eexists. split.
    { eapply WeakPtr_ctor_copy_live; [exact Hy | exact Hx | rewrite Hw; exact Hb | exact Hcb]. }
    rewrite Hw. split; [|reflexivity].
    destruct wy as [yb yp]. simpl in Hw. subst yb. simpl.
    apply observed_gain; [assumption|]. apply not_observer_of_fresh. assumption.
  - eexists. split; [eapply WeakPtr_ctor_copy_null; eassumption|].
    split; [|reflexivity].
    apply observed_weaken. apply observed_idle; [assumption | |].
    + apply observes_only_insert; [assumption | right; assumption].
    + rewrite observers_of_insert_other by (apply not_observer_of_fresh; assumption).
      rewrite decide_False by congruence. reflexivity.
Qed.

(** [WeakPtr x(o);] for a SharedPtr [o] *)
Lemma step_Demote n σ x o so :
  observed b s d h f (S n) σ → weak σ !! x = None → shared σ !! o = Some so →
  ∃ σ', WeakPtr_ctor_shared x o σ = Ok () σ' ∧ observed b s d h f n σ' ∧
    weak σ' = <[x := mkWeak (s_block_ so) (s_ptr_ so)]> (weak σ).
Proof.
  intros Hobs Hx Ho. pose proof Hobs as (Hc & Hown & Hcb & _).
  destruct (Hown o so Ho) as [Hs|Hs].
  - eexists. split.
    { eapply WeakPtr_ctor_shared_live;
        [exact Ho | exact Hx | rewrite Hs; exact Hb | rewrite Hs; exact Hcb]. }
    rewrite Hs. split; [|reflexivity]. simpl.
    apply observed_gain; [assumption|]. apply not_observer_of_fresh. assumption.
  - eexists. split; [eapply WeakPtr_ctor_shared_null; eassumption|].
    rewrite Hs. split; [|reflexivity].
    apply observed_weaken. apply observed_idle; [assumption | |].
    + apply observes_only_insert; [assumption | right; reflexivity].
    + rewrite observers_of_insert_other by (apply not_observer_of_fresh; assumption).
      rewrite decide_False by (simpl; congruence). reflexivity.
Qed.

(** [WeakPtr x(std::move(y));] *)
Lemma step_WMoveCons n σ x y wy :
  observed b s d h f (S n) σ → weak σ !! x = None → weak σ !! y = Some wy →
  ∃ σ', WeakPtr_ctor_move x y σ = Ok () σ' ∧ observed b s d h f n σ'.
Proof.
  intros Hobs Hx Hy.
  destruct (step_WCopyCons n σ x y wy Hobs Hx Hy) as (σ1 & Hcopy & Hobs1 & Hw1).
  assert (Hy1 : weak σ1 !! y = Some wy).
  { rewrite Hw1. rewrite lookup_insert_ne by congruence. assumption. }
  destruct (step_WReset n σ1 y wy Hobs1 Hy1) as (σ2 & Hreset & Hobs2 & _).
  exists σ2. split; [|assumption].
  rewrite WeakPtr_ctor_move_steps. erewrite bind_Ok by exact Hcopy. exact Hreset.
Qed.

(** [x = y;] *)
Lemma step_WCopyAssign n σ x y wx wy :
  observed b s d h f (S n) σ →
  weak σ !! x = Some wx → weak σ !! y = Some wy →
  ∃ σ', WeakPtr_assign_copy x y σ = Ok () σ' ∧ observed b s d h f n σ' ∧
    (∀ z, z ≠ x → weak σ' !! z = weak σ !! z) ∧ is_Some (weak σ' !! x).
Proof.
  intros Hobs Hx Hy. pose proof Hobs as (Hc & _ & Hcb & _).
  destruct (decide (x = y)) as [->|Hne].
  { exists σ. split; [apply WeakPtr_assign_copy_self|].
    split; [apply observed_weaken; assumption|]. split; [reflexivity | eauto]. }
  destruct (Hc x wx Hx) as [Hwx|Hwx], (Hc y wy Hy) as [Hwy|Hwy].
  - exists σ. split; [eapply WeakPtr_assign_copy_same_block; try eassumption; congruence|].
    split; [apply observed_weaken; assumption|]. split; [reflexivity | eauto].
  - (* an observer is assigned an empty pointer *)
    rewrite (WeakPtr_assign_copy_steps σ x y wx wy) by congruence.
    destruct (step_WReset (S n) σ x wx Hobs Hx)
      as (σ1 & Hreset & Hobs1 & Hframe1 & w1 & Hx1 & Hw1).
    erewrite bind_Ok by exact Hreset.
    erewrite bind_Ok by (eapply put_weak_ok; exact Hx1).
    rewrite Hwy. simpl.
    eexists. split; [reflexivity|]. split; [|split].
    + apply observed_weaken. apply observed_idle; [assumption | |].
      * apply observes_only_insert; [apply Hobs1 | right; reflexivity].
      * rewrite observers_of_insert_other.
        -- rewrite decide_False by (simpl; congruence). reflexivity.
        -- eapply not_observer_of_null; eassumption.
    + intros z Hz. simpl. rewrite lookup_insert_ne by congruence. apply Hframe1. assumption.
    + simpl. rewrite lookup_insert_eq. eauto.
  - (* an empty pointer is assigned an observer *)
    rewrite (WeakPtr_assign_copy_steps σ x y wx wy) by congruence.
    erewrite bind_Ok by (eapply WeakPtr_Reset_null; eassumption).
    erewrite bind_Ok by (eapply put_weak_ok; exact Hx).
    destruct wy as [yb yp]. simpl in Hwy. subst yb. simpl.
    unfold is_null. rewrite bool_decide_eq_false_2 by assumption. simpl.
    eexists. split; [apply AddWeak_ok; simpl; exact Hcb|]. simpl. split; [|split].
    + apply observed_gain; [assumption|].
      eapply not_observer_of_null; eassumption.
    + intros z Hz. rewrite lookup_insert_ne by congruence. reflexivity.
    + rewrite lookup_insert_eq. eauto.
  - exists σ. split; [eapply WeakPtr_assign_copy_same_block; try eassumption; congruence|].
    split; [apply observed_weaken; assumption|]. split; [reflexivity | eauto].
Qed.

(** [x = std::move(y);] *)
Lemma step_WMoveAssign n σ x y wx wy :
  observed b s d h f (S n) σ →
  weak σ !! x = Some wx → weak σ !! y = Some wy →
  ∃ σ', WeakPtr_assign_move x y σ = Ok () σ' ∧ observed b s d h f n σ'.
Proof.
  intros Hobs Hx Hy.
  destruct (decide (x = y)) as [->|Hne].
  { exists σ. split; [apply WeakPtr_assign_move_self|].
    apply observed_weaken; assumption. }
  destruct (step_WCopyAssign n σ x y wx wy Hobs Hx Hy)
    as (σ1 & Hcopy & Hobs1 & Hframe1 & _).
  assert (Hy1 : weak σ1 !! y = Some wy) by (rewrite Hframe1 by congruence; exact Hy).
  destruct (step_WReset n σ1 y wy Hobs1 Hy1) as (σ2 & Hreset & Hobs2 & _).
  exists σ2. split; [|assumption].
  rewrite WeakPtr_assign_move_as_copy by assumption.
  erewrite bind_Ok by exact Hcopy. exact Hreset.
Qed.

(** [x.Swap(y);] *)
Lemma step_WSwap n σ tmp x y wx wy :
  observed b s d h f (3 + n) σ →
  weak σ !! tmp = None → weak σ !! x = Some wx → weak σ !! y = Some wy →
  ∃ σ', WeakPtr_Swap tmp x y σ = Ok () σ' ∧ observed b s d h f n σ'.
Proof.
  intros Hobs Htmp Hx Hy.
  assert (Htx : tmp ≠ x) by congruence. assert (Hty : tmp ≠ y) by congruence.
  destruct (step_WCopyCons (2 + n) σ tmp x wx Hobs Htmp Hx) as (σ1 & Hrun1 & Hobs1 & Hw1).
  assert (Hx1 : weak σ1 !! x = Some wx).
  { rewrite Hw1, lookup_insert_ne by assumption. exact Hx. }
  assert (Hy1 : weak σ1 !! y = Some wy).
  { rewrite Hw1, lookup_insert_ne by assumption. exact Hy. }
  assert (Ht1 : weak σ1 !! tmp = Some wx) by (rewrite Hw1; apply lookup_insert_eq).
  destruct (step_WCopyAssign (1 + n) σ1 x y wx wy Hobs1 Hx1 Hy1)
    as (σ2 & Hrun2 & Hobs2 & Hframe2 & Hx2).
  assert (Ht2 : weak σ2 !! tmp = Some wx) by (rewrite Hframe2 by assumption; exact Ht1).
  assert (Hy2 : is_Some (weak σ2 !! y)).
  { destruct (decide (y = x)) as [->|Hyx]; [exact Hx2|].
    rewrite Hframe2 by assumption. eauto. }
  destruct Hy2 as [wy2 Hy2].
  destruct (step_WCopyAssign n σ2 y tmp wy2 wx Hobs2 Hy2 Ht2)
    as (σ3 & Hrun3 & Hobs3 & Hframe3 & _).
  assert (Ht3 : weak σ3 !! tmp = Some wx) by (rewrite Hframe3 by assumption; exact Ht2).
  destruct (step_WDestroy n σ3 tmp wx Hobs3 Ht3) as (σ4 & Hrun4 & Hobs4 & _).
  exists σ4. split; [|assumption].
  unfold WeakPtr_Swap.
  erewrite bind_Ok by exact Hrun1. erewrite bind_Ok by exact Hrun2.
  erewrite bind_Ok by exact Hrun3. exact Hrun4.
Qed.

End observer_steps.

(** One WeakPtr operation keeps the weak count right. *)
Lemma run_wop_observed b s d h f n σ o :
  b ≠ nullptr → observed b s d h f (wop_room o + n) σ → wop_scoped o σ →
  ∃ σ', run_wop o σ = Ok () σ' ∧ observed b s d h f n σ'.
Proof.
  intros Hb Hobs Hscope. destruct o as [x y|x y|x o|x y|x y|tmp x y|x|x]; simpl in *.
  - destruct Hscope as [Hx [wy Hy]].
    destruct (step_WCopyCons b s d h f Hb n σ x y wy Hobs Hx Hy) as (σ' & ? & ? & _). eauto.
  - destruct Hscope as [Hx [wy Hy]].
    destruct (step_WMoveCons b s d h f Hb n σ x y wy Hobs Hx Hy) as (σ' & ? & ?). eauto.
  - destruct Hscope as [Hx [so Ho]].
    destruct (step_Demote b s d h f Hb n σ x o so Hobs Hx Ho) as (σ' & ? & ? & _). eauto.
  - destruct Hscope as [[wx Hx] [wy Hy]].
    destruct (step_WCopyAssign b s d h f Hb n σ x y wx wy Hobs Hx Hy) as (σ' & ? & ? & _).
    eauto.
  - destruct Hscope as [[wx Hx] [wy Hy]].
    destruct (step_WMoveAssign b s d h f Hb n σ x y wx wy Hobs Hx Hy) as (σ' & ? & ?).
    eauto.
  - destruct Hscope as (Htmp & [wx Hx] & [wy Hy]).
    destruct (step_WSwap b s d h f Hb n σ tmp x y wx wy Hobs Htmp Hx Hy) as (σ' & ? & ?).
    eauto.
  - destruct Hscope as [wx Hx]. apply observed_weaken in Hobs.
    destruct (step_WReset b s d h f Hb n σ x wx Hobs Hx) as (σ' & ? & ? & _). eauto.
  - destruct Hscope as [wx Hx]. apply observed_weaken in Hobs.
    destruct (step_WDestroy b s d h f Hb n σ x wx Hobs Hx) as (σ' & ? & ? & _). eauto.
Qed.

(** X16: Along every program of WeakPtr constructions (copy, move, demotion of a
    SharedPtr), copy and move assignments, [Swap], [Reset()] calls and
    destructions over the observers of one block that keeps its owners:
    every operation succeeds, at every point the weak count of the block is
    the number of live WeakPtr objects that observe it, no observer is
    expired, and the block is not freed and its hook does not run.  No
    assignment has to be excluded, as [WeakPtr::Reset(ptr, block)] adds its
    reference after its guard. *)
Theorem weak_count_counts_observers b s d h f ops1 :
  b ≠ nullptr →
  ∀ ops2 σ,
    observed b s d h f (wops_room (ops1 ++ ops2)) σ → wops_scoped (ops1 ++ ops2) σ →
    ∃ σ', run_all run_wop ops1 σ = Ok () σ' ∧
      observed b s d h f (wops_room ops2) σ' ∧ wops_scoped ops2 σ' ∧
      blocks σ' !! b = Some (mkBlock s (Z.of_nat (live_observers b σ')) d) ∧
      hook_calls b (trace σ') = hook_calls b (trace σ) ∧
      frees b (trace σ') = frees b (trace σ) ∧
      (∀ x w, weak σ' !! x = Some w → w_block_ w = b →
         WeakPtr_Expired x σ' = Ok false σ').
Proof.
  intros Hb. induction ops1 as [|o ops1 IH]; intros ops2 σ Hobs Hscoped.
  - exists σ. simpl in *.
    split; [reflexivity|]. split; [assumption|]. split; [assumption|].
    destruct Hobs as (_ & _ & Hcb & Hs & _).
    split; [exact Hcb|]. split; [reflexivity|]. split; [reflexivity|].
    intros x w Hx Hw. rewrite <- Hw in Hcb, Hb.
    rewrite (WeakPtr_Expired_live σ x w _ Hx Hb Hcb). simpl.
    replace (s =? 0) with false by (symmetry; apply Z.eqb_neq; lia). reflexivity.
  - simpl in Hobs, Hscoped. destruct Hscoped as (Hscope & Hrest).
    destruct (run_wop_observed b s d h f _ σ o Hb Hobs Hscope) as (σ1 & Hrun & Hobs1).
    destruct (IH ops2 σ1 Hobs1 (Hrest σ1 Hrun))
      as (σ' & Hrun' & Hobs' & Hscoped' & Hcb' & Hh' & Hf' & Hexp).
    exists σ'. split.
    { simpl run_all. erewrite bind_Ok by exact Hrun. exact Hrun'. }
    split; [exact Hobs'|]. split; [exact Hscoped'|]. split; [exact Hcb'|].
    destruct Hobs as (_ & _ & _ & _ & _ & Hh & Hf).
    destruct Hobs1 as (_ & _ & _ & _ & _ & Hh1 & Hf1).
    split; [congruence|]. split; [congruence|]. exact Hexp.
Qed.

(** The invariant holds after [SharedPtr a(p); WeakPtr w(a); WeakPtr v(w);],
    with room for nine increments. *)
Lemma observed_one_owner_two_observers :
  observed 100%N 1 (ControlBlockPointer 7%N) 0 0 9 σ_observed.
Proof.
  split; [|split; [|split; [|split; [|split; [|split]]]]].
  - unfold observes_only. apply (bool_decide_unpack (map_Forall _ _)). reflexivity.
  - unfold owns_only. apply (bool_decide_unpack (map_Forall _ _)). reflexivity.
  - reflexivity.
  - lia.
  - vm_compute. discriminate.
  - reflexivity.
  - reflexivity.
Qed.

(** The theorem applied to [w = v; w = std::move(v); w.Swap(v);
    WeakPtr u(a);] and the destruction of [w]: two observers are left, and
    the weak count is 2. *)
Lemma weak_count_counts_observers_witness :
  ∃ σ', run_all run_wop
          [WCopyAssign 11%N 12%N; WMoveAssign 11%N 12%N; WSwapOp 13%N 11%N 12%N;
           Demote 14%N 1%N; WDestroy 11%N] σ_observed = Ok () σ' ∧
    blocks σ' !! 100%N = Some (mkBlock 1 2 (ControlBlockPointer 7%N)) ∧
    live_observers 100%N σ' = 2%nat ∧
    hook_calls 100%N (trace σ') = 0%nat ∧ frees 100%N (trace σ') = 0%nat.
Proof.
  destruct (weak_count_counts_observers 100%N 1 (ControlBlockPointer 7%N) 0 0
              [WCopyAssign 11%N 12%N; WMoveAssign 11%N 12%N; WSwapOp 13%N 11%N 12%N;
               Demote 14%N 1%N; WDestroy 11%N]
              ltac:(discriminate) [] σ_observed)
    as (σ' & Hrun & _ & _ & Hcb & Hh & Hf & _).
  { simpl app. exact (observed_weaken_by _ _ _ _ _ 2 7 _ observed_one_owner_two_observers). }
  { simpl app.
    repeat match goal with
           | |- wops_scoped [] _ => exact I
           | |- wops_scoped (_ :: _) _ =>
               split; [|let H := fresh in
                        intros ? H; vm_compute in H; injection H as <-]
           end.
    all: simpl.
    all: repeat split; first [reflexivity | eexists; reflexivity]. }
  assert (Hσ : σ' = exec (run_all run_wop
            [WCopyAssign 11%N 12%N; WMoveAssign 11%N 12%N; WSwapOp 13%N 11%N 12%N;
             Demote 14%N 1%N; WDestroy 11%N]) σ_observed).
  { unfold exec. rewrite Hrun. reflexivity. }
  assert (Hlive : live_observers 100%N σ' = 2%nat) by (subst σ'; reflexivity).
  exists σ'. split; [exact Hrun|].
  rewrite Hlive in Hcb.
  split; [exact Hcb|]. split; [exact Hlive|]. split; [exact Hh | exact Hf].
Defined.

(** * Owners and observers released in any order *)













(** * WeakPtr::Swap *)

(** Copy assignment to an observer whose block has just gained a weak
    reference, from an observer of another block *)
Lemma WeakPtr_assign_copy_after_add σ this other w o cb0 cbo :
  this ≠ other → weak σ !! this = Some w → weak σ !! other = Some o →
  w_block_ w ≠ nullptr → w_block_ o ≠ nullptr → w_block_ w ≠ w_block_ o →
  blocks σ !! w_block_ w =
    Some (mkBlock (strong_ cb0) (SizeT.incr (weak_ cb0)) (derived cb0)) →
  0 <= strong_ cb0 → 0 <= weak_ cb0 < SizeT.max →
  0 < strong_ cb0 + weak_ cb0 <= SizeT.max →
  blocks σ !! w_block_ o = Some cbo →
  WeakPtr_assign_copy this other σ =
  Ok () (mkState
           (<[w_block_ o := mkBlock (strong_ cbo) (SizeT.incr (weak_ cbo)) (derived cbo)]>
              (<[w_block_ w := cb0]> (blocks σ)))
           (shared σ) (<[this := o]> (weak σ))
           (trace σ ++ [EvRemoveWeak (w_block_ w); EvAddWeak (w_block_ o)])).
Proof.
  intros Hne Hw Ho Hwn Hon Hb Hcbw Hr1 Hr2 Hr3 Hcbo.
  destruct (release_weak_after_add (w_block_ w) cb0 Hr1 Hr2 Hr3) as [Hr He].
  rewrite (WeakPtr_assign_copy_steps σ this other w o) by assumption.
  erewrite bind_Ok by (eapply WeakPtr_Reset_live; eassumption).
  rewrite Hr, He. simpl.
  erewrite bind_Ok by (eapply put_weak_ok; simpl; apply lookup_insert_eq).
  unfold is_null. rewrite bool_decide_eq_false_2 by assumption. simpl.
  erewrite AddWeak_ok by (simpl; rewrite lookup_insert_ne by assumption; eassumption).
  simpl. rewrite insert_insert_eq, <- app_assoc. destruct o. reflexivity.
Qed.

(** X18: [Swap] between observers of two different blocks exchanges them: each
    WeakPtr ends with the block and the address of the other, and both weak
    counts are what they were. *)
Theorem WeakPtr_Swap_exchanges σ tmp this other w o cbw cbo :
  weak σ !! tmp = None → this ≠ other →
  weak σ !! this = Some w → weak σ !! other = Some o →
  w_block_ w ≠ nullptr → w_block_ o ≠ nullptr → w_block_ w ≠ w_block_ o →
  blocks σ !! w_block_ w = Some cbw → blocks σ !! w_block_ o = Some cbo →
  0 <= strong_ cbw → 0 < weak_ cbw < SizeT.max →
  strong_ cbw + weak_ cbw <= SizeT.max →
  0 <= strong_ cbo → 0 < weak_ cbo < SizeT.max →
  strong_ cbo + weak_ cbo <= SizeT.max →
  WeakPtr_Swap tmp this other σ =
  Ok () (mkState (blocks σ) (shared σ)
           (<[other := w]> (<[this := o]> (weak σ)))
           (trace σ ++ [EvAddWeak (w_block_ w); EvRemoveWeak (w_block_ w);
                        EvAddWeak (w_block_ o); EvRemoveWeak (w_block_ o);
                        EvAddWeak (w_block_ w); EvRemoveWeak (w_block_ w)])).
Proof.
  intros Htmp Hne Hw Ho Hwn Hon Hb Hcbw Hcbo Hw1 Hw2 Hw3 Ho1 Ho2 Ho3.
  assert (Htw : tmp ≠ this) by congruence.
  assert (Hto : tmp ≠ other) by congruence.
  destruct (release_weak_after_add (w_block_ w) cbw) as [Hrw Hew]; [lia | lia | lia |].
  unfold WeakPtr_Swap.
  erewrite bind_Ok by (eapply WeakPtr_ctor_copy_live; eassumption).
  erewrite bind_Ok.
  2:{ eapply (WeakPtr_assign_copy_after_add _ this other w o cbw cbo); simpl;
        first [lia | lookup_solve]. }
  erewrite bind_Ok.
  2:{ eapply (WeakPtr_assign_copy_after_add _ other tmp o w cbo cbw); simpl;
        first [lia | lookup_solve]. }
  erewrite WeakPtr_dtor_live.
  2:{ simpl. rewrite lookup_insert_ne by congruence.
      rewrite lookup_insert_ne by congruence. apply lookup_insert_eq. }
  2:{ assumption. }
  2:{ simpl. apply lookup_insert_eq. }
  simpl. rewrite Hrw, Hew. simpl. f_equal. f_equal.
  - apply map_eq. intros k.
    destruct (decide (k = w_block_ w)) as [->|?]; [lookup_norm|].
    destruct (decide (k = w_block_ o)) as [->|?]; lookup_norm.
  - apply map_eq. intros k.
    destruct (decide (k = tmp)) as [->|?]; [lookup_norm|].
    destruct (decide (k = other)) as [->|?]; [lookup_norm|].
    destruct (decide (k = this)) as [->|?]; lookup_norm.
  - trace_eq.
Qed.

Lemma WeakPtr_Swap_exchanges_witness :
  weak σ_two_observed !! 11%N = Some (mkWeak 100%N 7%N) ∧
  weak σ_two_observed !! 12%N = Some (mkWeak 200%N 8%N) ∧
  ∃ σ', WeakPtr_Swap 13%N 11%N 12%N σ_two_observed = Ok () σ' ∧
    weak σ' !! 11%N = Some (mkWeak 200%N 8%N) ∧
    weak σ' !! 12%N = Some (mkWeak 100%N 7%N) ∧
    blocks σ' = blocks σ_two_observed.
Proof.
  split; [reflexivity|]. split; [reflexivity|].
  eexists. split.
  - apply (WeakPtr_Swap_exchanges σ_two_observed 13%N 11%N 12%N
             (mkWeak 100%N 7%N) (mkWeak 200%N 8%N)
             (mkBlock 1 1 (ControlBlockPointer 7%N))
             (mkBlock 1 1 (ControlBlockPointer 8%N)));
      first [reflexivity | discriminate | size_arith].
  - repeat split; reflexivity.
Defined.

(** X19: [Swap] between two observers of the same block leaves both as they
    were: the stored addresses are not exchanged, also when they differ.
    The weak count is what it was. *)
Theorem WeakPtr_Swap_within_block σ tmp this other w o cb :
  weak σ !! tmp = None →
  weak σ !! this = Some w → weak σ !! other = Some o →
  w_block_ w ≠ nullptr → w_block_ o = w_block_ w →
  blocks σ !! w_block_ w = Some cb →
  0 <= strong_ cb → 0 < weak_ cb < SizeT.max →
  strong_ cb + weak_ cb <= SizeT.max →
  ∃ σ', WeakPtr_Swap tmp this other σ = Ok () σ' ∧
    σ' = mkState (blocks σ) (shared σ) (weak σ)
           (trace σ ++ [EvAddWeak (w_block_ w); EvRemoveWeak (w_block_ w)]) ∧
    WeakPtr_Get this σ' = Ok (w_ptr_ w) σ' ∧
    WeakPtr_Get other σ' = Ok (w_ptr_ o) σ'.
Proof.
  intros Htmp Hw Ho Hwn Hb Hcb Hs1 Hw1 Hsum.
  assert (Htw : tmp ≠ this) by congruence.
  assert (Hto : tmp ≠ other) by congruence.
  destruct (release_weak_after_add (w_block_ w) cb) as [Hr He]; [lia | lia | lia |].
  eexists. split; [|split; [reflexivity|]].
  - unfold WeakPtr_Swap.
    erewrite bind_Ok by (eapply WeakPtr_ctor_copy_live; eassumption).
    erewrite bind_Ok.
    2:{ eapply (WeakPtr_assign_copy_same_block _ this other w o); simpl;
          first [lookup_solve | congruence]. }
    erewrite bind_Ok.
    2:{ eapply (WeakPtr_assign_copy_same_block _ other tmp o w); simpl;
          first [lookup_solve | congruence]. }
    erewrite WeakPtr_dtor_live.
    2:{ simpl. apply lookup_insert_eq. }
    2:{ assumption. }
    2:{ simpl. apply lookup_insert_eq. }
    simpl. rewrite Hr, He. simpl. f_equal. f_equal.
    + rewrite insert_insert_eq. apply insert_id. assumption.
    + apply delete_insert_id. assumption.
    + trace_eq.
  - unfold WeakPtr_Get. split; mrun; reflexivity.
Qed.

Lemma WeakPtr_Swap_within_block_witness :
  weak σ_aliased_observed !! 11%N = Some (mkWeak 100%N 7%N) ∧
  weak σ_aliased_observed !! 12%N = Some (mkWeak 100%N 9%N) ∧
  ∃ σ', WeakPtr_Swap 13%N 11%N 12%N σ_aliased_observed = Ok () σ' ∧
    WeakPtr_Get 11%N σ' = Ok 7%N σ' ∧ WeakPtr_Get 12%N σ' = Ok 9%N σ'.
Proof.
  split; [reflexivity|]. split; [reflexivity|].
  destruct (WeakPtr_Swap_within_block σ_aliased_observed 13%N 11%N 12%N
              (mkWeak 100%N 7%N) (mkWeak 100%N 9%N)
              (mkBlock 2 2 (ControlBlockPointer 7%N)))
    as (σ' & Hrun & _ & H1 & H2);
    first [reflexivity | discriminate | size_arith | idtac].
  exists σ'. split; [exact Hrun|]. split; [exact H1 | exact H2].
Defined.

(** * Pointees that own smart pointers *)

(** For a pointee whose destructor releases nothing, the functions with a
    destructor are the functions of the first part. *)

Lemma Owning_OnZeroStrong_plain off this σ :
  Owning.OnZeroStrong off plain this σ = ControlBlockBase.OnZeroStrong this σ.
Proof.
  unfold Owning.OnZeroStrong, ControlBlockBase.OnZeroStrong, plain. munfold.
  destruct (blocks σ !! this) as [cb|] eqn:Hcb; [|reflexivity].
  destruct (derived cb) as [p|]; [|reflexivity].
  destruct (negb (is_null p)); mrun; reflexivity.
Qed.

Lemma bind_cong {A B} (m m' : M A) (f g : A → M B) σ :
  m σ = m' σ → (∀ a σ', f a σ' = g a σ') →
  (x ← m; f x) σ = (x ← m'; g x) σ.
Proof.
  intros Hm Hf. unfold mbind, M_bind. rewrite Hm.
  destruct (m' σ); [apply Hf | reflexivity | reflexivity].
Qed.

Ltac same_steps known :=
  repeat first
    [ reflexivity
    | known
    | apply bind_cong; [try reflexivity | intros ? ?]
    | match goal with |- (if ?c then _ else _) _ = _ => destruct c end
    | match goal with |- when ?c _ _ = _ => destruct c; simpl end ].

Lemma Owning_RemoveStrong_plain off this σ :
  Owning.RemoveStrong off plain this σ = ControlBlockBase.RemoveStrong this σ.
Proof.
  unfold Owning.RemoveStrong, ControlBlockBase.RemoveStrong.
  same_steps ltac:(apply Owning_OnZeroStrong_plain).
Qed.

Lemma Owning_SharedPtr_Reset_plain off this σ :
  Owning.SharedPtr_Reset off plain this σ = SharedPtr_Reset this σ.
Proof.
  unfold Owning.SharedPtr_Reset, SharedPtr_Reset.
  same_steps ltac:(apply Owning_RemoveStrong_plain).
Qed.

Lemma Owning_SharedPtr_Reset_ptr_block_plain off this ptr block σ :
  Owning.SharedPtr_Reset_ptr_block off plain this ptr block σ =
  SharedPtr_Reset_ptr_block this ptr block σ.
Proof.
  unfold Owning.SharedPtr_Reset_ptr_block, SharedPtr_Reset_ptr_block.
  same_steps ltac:(apply Owning_SharedPtr_Reset_plain).
Qed.

Lemma Owning_SharedPtr_assign_copy_plain off this other σ :
  Owning.SharedPtr_assign_copy off plain this other σ =
  SharedPtr_assign_copy this other σ.
Proof.
  unfold Owning.SharedPtr_assign_copy, SharedPtr_assign_copy.
  same_steps ltac:(apply Owning_SharedPtr_Reset_ptr_block_plain).
Qed.

Lemma Owning_SharedPtr_assign_move_plain off this other σ :
  Owning.SharedPtr_assign_move off plain this other σ =
  SharedPtr_assign_move this other σ.
Proof.
  unfold Owning.SharedPtr_assign_move, SharedPtr_assign_move.
  same_steps ltac:(first [ apply Owning_SharedPtr_Reset_ptr_block_plain
                         | apply Owning_SharedPtr_Reset_plain ]).
Qed.

Lemma Owning_SharedPtr_dtor_plain off this σ :
  Owning.SharedPtr_dtor off plain this σ = SharedPtr_dtor this σ.
Proof.
  unfold Owning.SharedPtr_dtor, SharedPtr_dtor.
  same_steps ltac:(apply Owning_SharedPtr_Reset_plain).
Qed.

(** A pointee without members is destroyed without fuel. *)
Lemma destroy_members_none off members fuel p σ :
  members p = [] → destroy_members off members fuel p σ = Ok () σ.
Proof. intros H. destruct fuel; simpl; rewrite H; reflexivity. Qed.

(** The list of two nodes is built the same way by the functions with a
    destructor: no pointee is destroyed on the way. *)
Lemma linked_nodes_with_destructor (n : nat) :
  let destroy := destroy_members 0%N node_members n in
  (SharedPtr_ctor_default 5%N;;
   SharedPtr_ctor_ptr 100%N 1%N 7%N;;
   SharedPtr_ctor_default 6%N;;
   SharedPtr_ctor_ptr 200%N 3%N 8%N;;
   Owning.SharedPtr_assign_move 0%N destroy 5%N 3%N;;
   Owning.SharedPtr_dtor 0%N destroy 3%N) σ0 = Ok () σ_linked.
Proof. reflexivity. Qed.

(** C4, at the failing input [head = head->next;] for
    [struct Node { SharedPtr<Node> next; };] and a list of two nodes:
    [operator=] releases the reference of [head] first.  That deletes the
    first node and with it its member [next], the only owner of the second
    node, so the second node and its control block are deleted as well.
    [Reset(ptr, block)] then stores the address of the freed block in
    [head], and the [AddStrong] of [operator=] is applied to a freed control
    block; the same for the move assignment.  With the new reference added
    before the old one is released, as the claim has it, [head] ends as the
    only owner of the second node, which is not deleted.  Assigning [head]
    to itself does nothing. *)
Theorem assignment_frees_its_source (n : nat) :
  let destroy := destroy_members 0%N node_members (S (S n)) in
  shared σ_linked !! 1%N = Some (mkShared 100%N 7%N) ∧
  shared σ_linked !! 5%N = Some (mkShared 200%N 8%N) ∧
  blocks σ_linked !! 100%N = Some (mkBlock 1 0 (ControlBlockPointer 7%N)) ∧
  blocks σ_linked !! 200%N = Some (mkBlock 1 0 (ControlBlockPointer 8%N)) ∧
  (∃ σ1,
     Owning.SharedPtr_Reset_ptr_block 0%N destroy 1%N 8%N 200%N σ_linked = Ok () σ1 ∧
     trace σ1 = trace σ_linked ++
                [EvRemoveStrong 100%N; EvOnZeroStrong 100%N; EvDelete 7%N;
                 EvRemoveStrong 200%N; EvOnZeroStrong 200%N; EvDelete 8%N;
                 EvFree 200%N; EvFree 100%N] ∧
     blocks σ1 !! 200%N = None ∧
     shared σ1 !! 1%N = Some (mkShared 200%N 8%N) ∧
     shared σ1 !! 5%N = None ∧
     ControlBlockBase.AddStrong 200%N σ1 = Undef) ∧
  Owning.SharedPtr_assign_copy 0%N destroy 1%N 5%N σ_linked = Undef ∧
  Owning.SharedPtr_assign_move 0%N destroy 1%N 5%N σ_linked = Undef ∧
  (∃ σ2,
     (ControlBlockBase.AddStrong 200%N;;
      Owning.SharedPtr_Reset 0%N destroy 1%N;;
      put_shared 1%N (mkShared 200%N 8%N)) σ_linked = Ok () σ2 ∧
     shared σ2 !! 1%N = Some (mkShared 200%N 8%N) ∧
     blocks σ2 !! 200%N = Some (mkBlock 1 0 (ControlBlockPointer 8%N)) ∧
     deletions 7%N (trace σ2) = 1%nat ∧ deletions 8%N (trace σ2) = 0%nat) ∧
  Owning.SharedPtr_assign_copy 0%N destroy 1%N 1%N σ_linked = Ok () σ_linked ∧
  Owning.SharedPtr_assign_move 0%N destroy 1%N 1%N σ_linked = Ok () σ_linked.
Proof.
  intros destroy. subst destroy.
  do 4 (split; [reflexivity|]).
  split.
  { eexists. split; [reflexivity|]. repeat split. }
  split; [reflexivity|]. split; [reflexivity|].
  split.
  { eexists. split; [reflexivity|]. repeat split. }
  split; reflexivity.
Qed.

(** C7, at the failing input [SharedPtr a(p); SharedPtr b(a); WeakPtr w(a);
    a = b;] followed by the destruction of [a] and of [b]: no SharedPtr is
    left, and still [Expired()] of [w] is false, [UseCount()] is 1 and the
    pointee has not been deleted.  The assignment returned at the guard of
    [Reset(ptr, block)] and then added a strong reference that no SharedPtr
    holds. *)
Theorem last_owner_gone_not_expired :
  ∃ σ', owners_gone_after_assignment σ0 = Ok () σ' ∧
    shared σ' = ∅ ∧
    weak σ' !! 11%N = Some (mkWeak 100%N 7%N) ∧
    blocks σ' !! 100%N = Some (mkBlock 1 1 (ControlBlockPointer 7%N)) ∧
    WeakPtr_Expired 11%N σ' = Ok false σ' ∧
    WeakPtr_UseCount 11%N σ' = Ok 1 σ' ∧
    hook_calls 100%N (trace σ') = 0%nat ∧
    deletions 7%N (trace σ') = 0%nat.
Proof.
  eexists. split; [reflexivity|]. repeat split.
Qed.
